(** * Webcam recorder with image extraction, and the upload image viewer

    A shallow embedding of
    - [src/webcam_recorder_with_image_extraction.py]: the frame-index
      sampler, the extraction pass, the bounded frame queue and the
      start/stop control path of [WebcamRecorderWithExtraction];
    - [src/web_app.py]: [validate_file_security] and the upload loop of
      [main].

    Python integers are [Z]; strings are [string]; lists are [list].
    Code that can raise returns a [result]. *)

From Stdlib Require Import String Ascii Decimal DecimalString DecimalN DecimalPos.
From Stdlib Require Import ZArith List Bool Arith Lia Sorted.
Import ListNotations.

Local Open Scope Z_scope.

(** ** Exceptions *)

Inductive exn : Type :=
| ZeroDivisionError
| OverflowError
| ValueError
| TypeError
| AttributeError.

Inductive result (A : Type) : Type :=
| Ok (a : A)
| Raise (e : exn).

Arguments Ok {A} a.
Arguments Raise {A} e.

Definition bind {A B : Type} (r : result A) (k : A -> result B) : result B :=
  match r with
  | Ok a => k a
  | Raise e => Raise e
  end.

Notation "x <- r ;; k" := (bind r (fun x => k))
  (at level 61, r at next level, right associativity).

(** [[f(x) for x in l]] where [f] may raise: the first exception ends the
    comprehension. *)
Fixpoint comprehension {A B : Type} (f : A -> result B) (l : list A)
  : result (list B) :=
  match l with
  | [] => Ok []
  | x :: l' => y <- f x ;; ys <- comprehension f l' ;; Ok (y :: ys)
  end.

(** ** Python built-ins used by the sampler *)

Module Py.

(** [len(range(start, stop, step))] for [step <> 0]. *)
Definition range_len (start stop step : Z) : Z :=
  if 0 <? step then
    if start <? stop then (stop - start - 1) / step + 1 else 0
  else
    if stop <? start then (start - stop - 1) / (- step) + 1 else 0.

(** [start, start + step, ...], [n] elements. *)
Fixpoint range_from (n : nat) (start step : Z) : list Z :=
  match n with
  | O => []
  | S n' => start :: range_from n' (start + step) step
  end.

(** [list(range(start, stop, step))]; a zero step raises ValueError. *)
Definition range3 (start stop step : Z) : result (list Z) :=
  if step =? 0 then Raise ValueError
  else Ok (range_from (Z.to_nat (range_len start stop step)) start step).

(** [list(range(stop))]. *)
Definition range (stop : Z) : list Z :=
  range_from (Z.to_nat (range_len 0 stop 1)) 0 1.

(** [l[:n]]: a negative [n] counts from the end of the list. *)
Definition slice_to {A : Type} (l : list A) (n : Z) : list A :=
  if 0 <=? n then firstn (Z.to_nat n) l
  else firstn (length l - Z.to_nat (- n)) l.

(** The exact quotient of two integers truncated towards zero: what
    [int(a / b)] would be without rounding. Python rounds the quotient
    to binary64 before [int] truncates it; [Binary64.int_truediv] below
    is that operation, and gives the same integer for the numerators of
    the sampler while they stay below 2^53. *)
Definition int_truediv (a b : Z) : result Z :=
  if b =? 0 then Raise ZeroDivisionError else Ok (Z.quot a b).

End Py.

(** ** [int / int] in binary64 *)

Module Binary64.

(** A finite binary64 number, [mantissa * 2^exponent] (negated when
    [negative]), with [mantissa <= 2^53]. *)
Record float : Type := {
  negative : bool;
  mantissa : Z;
  exponent : Z
}.

(** The exponent [e] of the leading bit of a positive quotient:
    [2^e <= a / b < 2^(e+1)]. *)
Definition quotient_exponent (a b : Z) : Z :=
  let d := Z.log2 a - Z.log2 b in
  if (if 0 <=? d then b * 2 ^ d <=? a else b <=? a * 2 ^ (- d))
  then d else d - 1.

(** [num / den] rounded to the nearest integer, ties to even. *)
Definition round_half_even (num den : Z) : Z :=
  let q := num / den in
  let r := num mod den in
  if ((den <? 2 * r) || ((den =? 2 * r) && Z.odd q))%bool then q + 1 else q.

(** The quotient of two positive integers with a mantissa of 53 bits
    (fewer below the smallest normal number). *)
Definition divide_positive (a b : Z) : Z * Z :=
  let u := Z.max (quotient_exponent a b - 52) (-1074) in
  let m := if 0 <=? u then round_half_even a (b * 2 ^ u)
           else round_half_even (a * 2 ^ (- u)) b in
  (m, u).

(** [a / b] for Python integers: the exact quotient, correctly rounded;
    ZeroDivisionError for a zero divisor, OverflowError when the result
    is too large for a float. *)
Definition truediv (a b : Z) : result float :=
  if b =? 0 then Raise ZeroDivisionError
  else if a =? 0 then
    Ok {| negative := b <? 0; mantissa := 0; exponent := 0 |}
  else
    let '(m, u) := divide_positive (Z.abs a) (Z.abs b) in
    if 2 ^ 1024 <=? m * 2 ^ Z.max u 0 then Raise OverflowError
    else Ok {| negative := negb (Bool.eqb (a <? 0) (b <? 0));
               mantissa := m; exponent := u |}.

(** [int(x)]: the fractional part is dropped. *)
Definition int (x : float) : Z :=
  let magnitude :=
    if 0 <=? exponent x then mantissa x * 2 ^ exponent x
    else mantissa x / 2 ^ (- exponent x) in
  if negative x then - magnitude else magnitude.

(** [int(a / b)]. *)
Definition int_truediv (a b : Z) : result Z :=
  x <- truediv a b ;; Ok (int x).

End Binary64.

(** ** Configuration (module constants of the recorder) *)

(** [EXTRACTION_METHOD]: ['evenly_spaced'], or anything else, which the
    source takes as the interval method. *)
Inductive extraction_method : Type :=
| evenly_spaced
| interval.

Definition BUFFER_SIZE : Z := 3.
Definition NUM_IMAGES_TO_EXTRACT : Z := 100.
Definition EXTRACTION_METHOD : extraction_method := evenly_spaced.
Definition FRAME_INTERVAL : Z := 30.
Definition IMAGE_QUALITY : Z := 95.
Definition OUTPUT_FOLDER : string := "Recordings".
Definition IMAGES_FOLDER : string := "Images".

(** ** The sampler: which frames [extract_images_from_video] reads *)

Module Sampler.

(** The [if EXTRACTION_METHOD == 'evenly_spaced': ... else: ...] block,
    with the three constants it reads as arguments, over a given
    [int(a / b)]. *)
Definition frame_indices_with (int_truediv : Z -> Z -> result Z)
    (method : extraction_method)
    (num_images_to_extract frame_interval total_frames : Z)
  : result (list Z) :=
  match method with
  | evenly_spaced =>
      if total_frames <=? num_images_to_extract then
        Ok (Py.range total_frames)
      else
        comprehension
          (fun i => int_truediv (i * total_frames) num_images_to_extract)
          (Py.range num_images_to_extract)
  | interval =>
      l <- Py.range3 0 total_frames frame_interval ;;
      Ok (Py.slice_to l num_images_to_extract)
  end.

(** The block as Python runs it: [i * total_frames / NUM_IMAGES_TO_EXTRACT]
    is a binary64 division, truncated by [int]. This is the sampler of
    the extraction pass. *)
Definition frame_indices
  : extraction_method -> Z -> Z -> Z -> result (list Z) :=
  frame_indices_with Binary64.int_truediv.

(** The block read over the exact quotient, floor(i * T / N): not what
    the source computes, but what it is compared with. The two agree
    while the numerators stay below 2^53; beyond that they can part. *)
Definition frame_indices_exact
  : extraction_method -> Z -> Z -> Z -> result (list Z) :=
  frame_indices_with Py.int_truediv.

End Sampler.

(** ** String formatting and paths *)

Module Fmt.

Local Open Scope string_scope.

(** [str(n)] for [n >= 0]. *)
Definition decimal (n : Z) : string :=
  NilZero.string_of_uint (N.to_uint (Z.to_N n)).

Fixpoint zeros (k : nat) : string :=
  match k with
  | O => ""
  | S k' => String "0" (zeros k')
  end.

(** Left padding with zeros up to [width] characters; longer strings
    are left as they are. *)
Definition zfill (width : nat) (s : string) : string :=
  zeros (width - String.length s) ++ s.

(** [f"{n:03d}"]: the sign counts in the width. *)
Definition format_03d (n : Z) : string :=
  if (n <? 0)%Z then "-" ++ zfill 2 (decimal (- n)) else zfill 3 (decimal n).

(** [int(s)] for a string of decimal digits, [None] for any other
    string. *)
Definition parse_decimal (s : string) : option N :=
  option_map N.of_uint (NilEmpty.uint_of_string s).

Definition starts_with_slash (s : string) : bool :=
  match s with
  | String c _ => Ascii.eqb c "/"
  | EmptyString => false
  end.

Fixpoint ends_with_slash (s : string) : bool :=
  match s with
  | EmptyString => false
  | String c EmptyString => Ascii.eqb c "/"
  | String _ s' => ends_with_slash s'
  end.

(** [os.path.join(a, b)] (POSIX). *)
Definition path_join (a b : string) : string :=
  if starts_with_slash b then b
  else if (String.eqb a "" || ends_with_slash a)%bool then a ++ b
  else a ++ "/" ++ b.

End Fmt.

(** ** The extraction pass: [extract_images_from_video] *)

Record config : Type := {
  method : extraction_method;
  num_images_to_extract : Z;
  frame_interval : Z;
  image_quality : Z
}.

(** The constants as the source sets them. *)
Definition source_config : config := {|
  method := EXTRACTION_METHOD;
  num_images_to_extract := NUM_IMAGES_TO_EXTRACT;
  frame_interval := FRAME_INTERVAL;
  image_quality := IMAGE_QUALITY
|}.

Section ExtractionPass.

Variable frame : Type.

(** What [cv2.VideoCapture(video_path)] gives the pass: whether the
    file opened, the frame count it reports, and what [read()] returns
    after [set(CAP_PROP_POS_FRAMES, n)] ([None] when [ret] is false). *)
Record video_capture : Type := {
  isOpened : bool;
  frame_count : Z;
  read_at : Z -> option frame
}.

(** The file system as the pass sees it. *)
Variable VideoCapture : string -> video_capture.

(** Calls the pass makes, in order. *)
Inductive io_event : Type :=
| MakeDirs (path : string)
| SetPos (frame_number : Z)
| ReadFrame (ret : bool)
| ImWrite (path : string) (f : frame) (quality : Z)
| ShowProgress (n num_images : Z)
| ReleaseCapture.

(** How the pass ends. *)
Inductive outcome : Type :=
| ErrorOpeningVideo
| ExtractionComplete (images_extracted num_images : Z)
| ExtractionError (e : exn).

Record loop_state : Type := {
  images_extracted : Z;
  trace : list io_event
}.

Definition image_filename (idx : Z) : string :=
  ("image_" ++ Fmt.format_03d (idx + 1) ++ ".jpg")%string.

Definition images_output_folder (timestamp : string) : string :=
  Fmt.path_join IMAGES_FOLDER ("video_" ++ timestamp)%string.

(** One iteration of [for idx, frame_number in enumerate(frame_indices)]. *)
Definition extract_one (cfg : config) (folder : string) (num_images : Z)
    (video : video_capture) (idx frame_number : Z) (st : loop_state)
  : result loop_state :=
  match read_at video frame_number with
  | Some f =>
      let image_path := Fmt.path_join folder (image_filename idx) in
      (* progress = (idx + 1) / num_images * 100 *)
      if num_images =? 0 then Raise ZeroDivisionError
      else Ok {| images_extracted := images_extracted st + 1;
                 trace := trace st ++
                          [SetPos frame_number; ReadFrame true;
                           ImWrite image_path f (image_quality cfg);
                           ShowProgress (idx + 1) num_images] |}
  | None =>
      Ok {| images_extracted := images_extracted st;
            trace := trace st ++ [SetPos frame_number; ReadFrame false] |}
  end.

Fixpoint extract_loop (cfg : config) (folder : string) (num_images : Z)
    (video : video_capture) (idx : Z) (frame_indices : list Z)
    (st : loop_state) : result loop_state :=
  match frame_indices with
  | [] => Ok st
  | frame_number :: rest =>
      st' <- extract_one cfg folder num_images video idx frame_number st ;;
      extract_loop cfg folder num_images video (idx + 1) rest st'
  end.

(** The body of the [try] block. *)
Definition extract_body (cfg : config) (video_path timestamp : string)
  : result (outcome * list io_event) :=
  let folder := images_output_folder timestamp in
  let video := VideoCapture video_path in
  if negb (isOpened video) then Ok (ErrorOpeningVideo, [MakeDirs folder])
  else
    let total_frames := frame_count video in
    frame_indices <- Sampler.frame_indices (method cfg)
                       (num_images_to_extract cfg) (frame_interval cfg)
                       total_frames ;;
    let num_images := Z.of_nat (length frame_indices) in
    st <- extract_loop cfg folder num_images video 0 frame_indices
            {| images_extracted := 0; trace := [MakeDirs folder] |} ;;
    Ok (ExtractionComplete (images_extracted st) num_images,
        trace st ++ [ReleaseCapture]).

(** [extract_images_from_video]: [except Exception] turns anything
    raised into the error report. *)
Definition extract_images_from_video (cfg : config)
    (video_path timestamp : string) : outcome * list io_event :=
  match extract_body cfg video_path timestamp with
  | Ok r => r
  | Raise e => (ExtractionError e, [MakeDirs (images_output_folder timestamp)])
  end.

(** The image files a run wrote, in order. *)
Fixpoint written_files (t : list io_event) : list string :=
  match t with
  | [] => []
  | ImWrite path _ _ :: t' => path :: written_files t'
  | _ :: t' => written_files t'
  end.

(** The frame positions a run asked the decoder for, in order. *)
Fixpoint seeks (t : list io_event) : list Z :=
  match t with
  | [] => []
  | SetPos n :: t' => n :: seeks t'
  | _ :: t' => seeks t'
  end.

(** The results of the [read()] calls, in order. *)
Fixpoint reads (t : list io_event) : list bool :=
  match t with
  | [] => []
  | ReadFrame ret :: t' => ret :: reads t'
  | _ :: t' => reads t'
  end.

(** The positions, counted from [idx], of the sampled frames that
    decode: the values of [idx] at which the loop writes an image. *)
Fixpoint decoded_positions (video : video_capture) (idx : Z)
    (frame_indices : list Z) : list Z :=
  match frame_indices with
  | [] => []
  | frame_number :: rest =>
      match read_at video frame_number with
      | Some _ => idx :: decoded_positions video (idx + 1) rest
      | None => decoded_positions video (idx + 1) rest
      end
  end.

(** The calls the loop makes from position [idx] on, as a function of
    the indices still to visit. *)
Fixpoint loop_trace (cfg : config) (folder : string)
    (video : video_capture) (num_images idx : Z) (l : list Z)
  : list io_event :=
  match l with
  | [] => []
  | n :: rest =>
      match read_at video n with
      | Some f =>
          [SetPos n; ReadFrame true;
           ImWrite (Fmt.path_join folder (image_filename idx)) f
                   (image_quality cfg);
           ShowProgress (idx + 1) num_images]
      | None => [SetPos n; ReadFrame false]
      end ++ loop_trace cfg folder video num_images (idx + 1) rest
  end.

Definition decodes (video : video_capture) (frame_number : Z) : bool :=
  match read_at video frame_number with
  | Some _ => true
  | None => false
  end.

(** Numbering without gaps: the files are image_001.jpg, image_002.jpg,
    ... up to their number, in the folder of [timestamp]. *)
Definition sequential_names (timestamp : string) (files : list string) : Prop :=
  files = map (fun j => Fmt.path_join (images_output_folder timestamp)
                          (image_filename (Z.of_nat j)))
              (seq 0 (length files)).

End ExtractionPass.

Arguments isOpened {frame} _.
Arguments frame_count {frame} _.
Arguments read_at {frame} _ _.
Arguments MakeDirs {frame} _.
Arguments SetPos {frame} _.
Arguments ReadFrame {frame} _.
Arguments ImWrite {frame} _ _ _.
Arguments ShowProgress {frame} _ _.
Arguments ReleaseCapture {frame}.
Arguments images_extracted {frame} _.
Arguments trace {frame} _.
Arguments extract_one {frame} _ _ _ _ _ _ _.
Arguments extract_loop {frame} _ _ _ _ _ _ _.
Arguments extract_body {frame} _ _ _ _.
Arguments extract_images_from_video {frame} _ _ _ _.
Arguments written_files {frame} _.
Arguments seeks {frame} _.
Arguments reads {frame} _.
Arguments decoded_positions {frame} _ _ _.
Arguments decodes {frame} _ _.
Arguments loop_trace {frame} _ _ _ _ _ _.

(** ** The frame queue: [queue.Queue(maxsize=BUFFER_SIZE)] *)

Module FrameQueue.
Section Queue.

Variable frame : Type.

Definition maxsize : Z := BUFFER_SIZE.

Definition qsize (q : list frame) : Z := Z.of_nat (length q).

(** [Queue.full()]: [0 < maxsize <= qsize()]. *)
Definition full (q : list frame) : bool :=
  (0 <? maxsize) && (maxsize <=? qsize q).

(** [Queue.empty()]. *)
Definition empty (q : list frame) : bool := qsize q =? 0.

(** [Queue.put(item, block)]: on a full queue a blocking put waits
    for a free slot, a non-blocking one raises [queue.Full]. *)
Inductive put_result : Type :=
| Stored (q' : list frame)
| RaisesFull
| PutWaits.

Definition put (q : list frame) (item : frame) (block : bool) : put_result :=
  if full q then (if block then PutWaits else RaisesFull)
  else Stored (q ++ [item]).

Definition put_nowait (q : list frame) (item : frame) : put_result :=
  put q item false.

(** [Queue.get(block)]. *)
Inductive get_result : Type :=
| Got (item : frame) (q' : list frame)
| RaisesEmpty
| GetWaits.

Definition get (q : list frame) (block : bool) : get_result :=
  match q with
  | [] => if block then GetWaits else RaisesEmpty
  | item :: q' => Got item q'
  end.

Definition get_nowait (q : list frame) : get_result := get q false.

(** The two threads. The capture loop (producer) runs
    [if not self.frame_queue.full(): try: put_nowait(frame) except
    queue.Full: pass]; [update_preview] (consumer) runs
    [if not self.frame_queue.empty(): frame = get_nowait()] under
    [except queue.Empty: pass]. Each queue call is atomic; the other
    thread may run between the test and the call. *)
Inductive producer_pc : Type :=
| P_idle
| P_put (item : frame).

Inductive consumer_pc : Type :=
| C_idle
| C_get.

Record state : Type := {
  queue : list frame;
  producer : producer_pc;
  consumer : consumer_pc;
  previewed : list frame
}.

Definition initial : state :=
  {| queue := []; producer := P_idle; consumer := C_idle; previewed := [] |}.

(** Which thread runs next; [ProducerStep f] carries the frame the
    camera returns should the producer be at the top of its loop. *)
Inductive sched : Type :=
| ProducerStep (f : frame)
| ConsumerStep.

(** One atomic step; [None] when the scheduled thread is waiting on the
    queue and cannot run. *)
Definition step (e : sched) (s : state) : option state :=
  match e with
  | ProducerStep f =>
      match producer s with
      | P_idle =>
          if negb (full (queue s)) then
            Some {| queue := queue s; producer := P_put f;
                    consumer := consumer s; previewed := previewed s |}
          else Some s
      | P_put item =>
          match put_nowait (queue s) item with
          | Stored q' =>
              Some {| queue := q'; producer := P_idle;
                      consumer := consumer s; previewed := previewed s |}
          | RaisesFull =>
              Some {| queue := queue s; producer := P_idle;
                      consumer := consumer s; previewed := previewed s |}
          | PutWaits => None
          end
      end
  | ConsumerStep =>
      match consumer s with
      | C_idle =>
          if negb (empty (queue s)) then
            Some {| queue := queue s; producer := producer s;
                    consumer := C_get; previewed := previewed s |}
          else Some s
      | C_get =>
          match get_nowait (queue s) with
          | Got item q' =>
              Some {| queue := q'; producer := producer s;
                      consumer := C_idle;
                      previewed := previewed s ++ [item] |}
          | RaisesEmpty =>
              Some {| queue := queue s; producer := producer s;
                      consumer := C_idle; previewed := previewed s |}
          | GetWaits => None
          end
      end
  end.

(** A schedule, run from a state; [None] as soon as a scheduled
    thread cannot run. *)
Fixpoint run (es : list sched) (s : state) : option state :=
  match es with
  | [] => Some s
  | e :: es' =>
      match step e s with
      | Some s' => run es' s'
      | None => None
      end
  end.

Definition within_capacity (s : state) : Prop :=
  qsize (queue s) <= maxsize.

(** The producer's two steps with nothing in between: the publish
    block of one capture-loop iteration. *)
Definition publish (f : frame) (s : state) : option state :=
  match step (ProducerStep f) s with
  | Some s' =>
      match producer s' with
      | P_idle => Some s'
      | P_put _ => step (ProducerStep f) s'
      end
  | None => None
  end.

End Queue.
End FrameQueue.

Arguments FrameQueue.full {frame} _.
Arguments FrameQueue.empty {frame} _.
Arguments FrameQueue.qsize {frame} _.
Arguments FrameQueue.put {frame} _ _ _.
Arguments FrameQueue.put_nowait {frame} _ _.
Arguments FrameQueue.get {frame} _ _.
Arguments FrameQueue.get_nowait {frame} _.
Arguments FrameQueue.Stored {frame} _.
Arguments FrameQueue.RaisesFull {frame}.
Arguments FrameQueue.PutWaits {frame}.
Arguments FrameQueue.P_idle {frame}.
Arguments FrameQueue.P_put {frame} _.
Arguments FrameQueue.queue {frame} _.
Arguments FrameQueue.producer {frame} _.
Arguments FrameQueue.consumer {frame} _.
Arguments FrameQueue.previewed {frame} _.
Arguments FrameQueue.initial {frame}.
Arguments FrameQueue.ProducerStep {frame} _.
Arguments FrameQueue.ConsumerStep {frame}.
Arguments FrameQueue.step {frame} _ _.
Arguments FrameQueue.run {frame} _ _.
Arguments FrameQueue.publish {frame} _ _.
Arguments FrameQueue.within_capacity {frame} _.

(** ** The recorder: start, stop and the recording half of the capture loop *)

(** The quotient [a / b] of two numbers, kept as a fraction; it is only
    ever displayed. *)
Record ratio : Type := { numerator : Z; denominator : Z }.

Definition truediv (a b : Z) : result ratio :=
  if b =? 0 then Raise ZeroDivisionError
  else Ok {| numerator := a; denominator := b |}.

Inductive status_message : Type :=
| StatusCameraError              (* "Error: Cannot open webcam at port ..." *)
| StatusReady
| StatusCameraNotAvailable       (* "Error: Camera not available" *)
| StatusCouldNotCreateVideoFile  (* "Error: Could not create video file" *)
| StatusRecording
| StatusExtracting.              (* "Recording saved - Extracting images..." *)

Section Recorder.

Variable frame : Type.

(** A [cv2.VideoWriter] object: the file it writes, whether it is open
    ([isOpened()], false after [release()] or when the file could not
    be created), and the frames written to it. *)
Record writer : Type := {
  w_path : string;
  w_isOpened : bool;
  w_frames : list frame
}.

(** The fields of [WebcamRecorderWithExtraction] the control path
    touches. [video_writer] is a reference (an index) into [writers],
    the store of every writer constructed so far; a writer stays open
    until [release()] is called on it, which the source does in
    [stop_recording], or until the object is destroyed, which happens
    when [start_recording] binds the field anew. [extraction_threads]
    lists the arguments of
    the extraction threads started so far. Clock readings are ticks. *)
Record recorder : Type := {
  camera_opened : bool;
  is_recording : bool;
  video_writer : option nat;
  current_video_path : option string;
  current_video_timestamp : option string;
  recording_start_time : option Z;
  frames_recorded : Z;
  running : bool;
  capture_thread_error : option exn;
  status : status_message;
  stats : option (Z * ratio);
  writers : list writer;
  extraction_threads : list (option string * option string)
}.

(** The state [__init__] leaves, given whether the camera opened. *)
Definition init (camera_ok : bool) : recorder := {|
  camera_opened := camera_ok;
  is_recording := false;
  video_writer := None;
  current_video_path := None;
  current_video_timestamp := None;
  recording_start_time := None;
  frames_recorded := 0;
  running := true;
  capture_thread_error := None;
  status := if camera_ok then StatusReady else StatusCameraError;
  stats := None;
  writers := [];
  extraction_threads := []
|}.

Fixpoint update_nth {A : Type} (i : nat) (f : A -> A) (l : list A) : list A :=
  match l, i with
  | [], _ => []
  | x :: l', O => f x :: l'
  | x :: l', S i' => x :: update_nth i' f l'
  end.

Definition release (w : writer) : writer :=
  {| w_path := w_path w; w_isOpened := false; w_frames := w_frames w |}.

(** [VideoWriter.write(frame)]: nothing is written to a writer that is
    not open. *)
Definition write (f : frame) (w : writer) : writer :=
  if w_isOpened w then
    {| w_path := w_path w; w_isOpened := true; w_frames := w_frames w ++ [f] |}
  else w.

(** The writers that are open: constructed, not released. *)
Definition open_writers (r : recorder) : list writer :=
  filter w_isOpened (writers r).

(** What becomes of the store when [self.video_writer] is bound anew:
    the assignment drops the only reference to the writer the field
    held, if it held one (the writer of a start that could not create
    its file); CPython destroys that object at once, and the destructor
    of [cv2.VideoWriter] releases it. *)
Definition dropped (held : option nat) (ws : list writer) : list writer :=
  match held with
  | Some i => update_nth i release ws
  | None => ws
  end.

(** [start_recording]. The clock gives [timestamp]
    ([datetime.now().strftime(...)]) and [now] ([time.time()]);
    [writer_opens] tells whether the video file could be created. *)
Definition start_recording (timestamp : string) (writer_opens : bool)
    (now : Z) (r : recorder) : recorder :=
  if negb (camera_opened r) then
    {| camera_opened := camera_opened r;
       is_recording := is_recording r;
       video_writer := video_writer r;
       current_video_path := current_video_path r;
       current_video_timestamp := current_video_timestamp r;
       recording_start_time := recording_start_time r;
       frames_recorded := frames_recorded r;
       running := running r;
       capture_thread_error := capture_thread_error r;
       status := StatusCameraNotAvailable;
       stats := stats r;
       writers := writers r;
       extraction_threads := extraction_threads r |}
  else
    let filename := ("video_" ++ timestamp ++ ".avi")%string in
    let path := Fmt.path_join OUTPUT_FOLDER filename in
    let w := {| w_path := path; w_isOpened := writer_opens; w_frames := [] |} in
    if negb writer_opens then
      {| camera_opened := camera_opened r;
         is_recording := is_recording r;
         video_writer := Some (length (writers r));
         current_video_path := Some path;
         current_video_timestamp := Some timestamp;
         recording_start_time := recording_start_time r;
         frames_recorded := frames_recorded r;
         running := running r;
         capture_thread_error := capture_thread_error r;
         status := StatusCouldNotCreateVideoFile;
         stats := stats r;
         writers := dropped (video_writer r) (writers r) ++ [w];
         extraction_threads := extraction_threads r |}
    else
      {| camera_opened := camera_opened r;
         is_recording := true;
         video_writer := Some (length (writers r));
         current_video_path := Some path;
         current_video_timestamp := Some timestamp;
         recording_start_time := Some now;
         frames_recorded := 0;
         running := running r;
         capture_thread_error := capture_thread_error r;
         status := StatusRecording;
         stats := stats r;
         writers := dropped (video_writer r) (writers r) ++ [w];
         extraction_threads := extraction_threads r |}.

(** [stop_recording]. Subtracting from a start time that was never set
    raises TypeError. *)
Definition stop_recording (now : Z) (r : recorder) : result recorder :=
  if negb (is_recording r) then Ok r
  else
    match recording_start_time r with
    | None => Raise TypeError
    | Some t0 =>
        let elapsed := now - t0 in
        actual_fps <- (if 0 <? elapsed then truediv (frames_recorded r) elapsed
                       else Ok {| numerator := 0; denominator := 1 |}) ;;
        Ok {| camera_opened := camera_opened r;
              is_recording := false;
              video_writer := None;
              current_video_path := current_video_path r;
              current_video_timestamp := current_video_timestamp r;
              recording_start_time := recording_start_time r;
              frames_recorded := frames_recorded r;
              running := running r;
              capture_thread_error := capture_thread_error r;
              status := StatusExtracting;
              stats := Some (frames_recorded r, actual_fps);
              writers := match video_writer r with
                         | Some i => update_nth i release (writers r)
                         | None => writers r
                         end;
              extraction_threads :=
                extraction_threads r ++
                [(current_video_path r, current_video_timestamp r)] |}
    end.

(** [toggle_recording]: the command of the record button. *)
Definition toggle_recording (timestamp : string) (writer_opens : bool)
    (now : Z) (r : recorder) : result recorder :=
  if is_recording r then stop_recording now r
  else Ok (start_recording timestamp writer_opens now r).

(** The [if self.is_recording and self.video_writer:] block of one
    iteration of [capture_frames], for a frame the camera returned.
    The statistics are refreshed every 31 frames; an exception there
    ends the capture thread. *)
Definition record_frame (f : frame) (now : Z) (r : recorder) : recorder :=
  match is_recording r, video_writer r with
  | true, Some i =>
      let n := frames_recorded r + 1 in
      let fps : result (option (Z * ratio)) :=
        if n mod 31 =? 0 then
          match recording_start_time r with
          | None => Raise TypeError
          | Some t0 => q <- truediv n (now - t0) ;; Ok (Some (n, q))
          end
        else Ok (stats r) in
      {| camera_opened := camera_opened r;
         is_recording := is_recording r;
         video_writer := video_writer r;
         current_video_path := current_video_path r;
         current_video_timestamp := current_video_timestamp r;
         recording_start_time := recording_start_time r;
         frames_recorded := n;
         running := running r;
         capture_thread_error := match fps with
                                 | Ok _ => capture_thread_error r
                                 | Raise e => Some e
                                 end;
         status := status r;
         stats := match fps with
                  | Ok st => st
                  | Raise _ => stats r
                  end;
         writers := update_nth i (write f) (writers r);
         extraction_threads := extraction_threads r |}
  | _, _ => r
  end.

(** [on_closing]. *)
Definition on_closing (now : Z) (r : recorder) : result recorder :=
  r1 <- (if is_recording r then stop_recording now r else Ok r) ;;
  Ok {| camera_opened := false;
        is_recording := is_recording r1;
        video_writer := video_writer r1;
        current_video_path := current_video_path r1;
        current_video_timestamp := current_video_timestamp r1;
        recording_start_time := recording_start_time r1;
        frames_recorded := frames_recorded r1;
        running := false;
        capture_thread_error := capture_thread_error r1;
        status := status r1;
        stats := stats r1;
        writers := writers r1;
        extraction_threads := extraction_threads r1 |}.

(** What can happen to a recorder: the button is pressed, the capture
    thread gets a frame, the window is closed. *)
Inductive event : Type :=
| Toggle (timestamp : string) (writer_opens : bool) (now : Z)
| Frame (f : frame) (now : Z)
| Closing (now : Z).

(** A callback that raises leaves the state as it was (both raise
    before their first assignment). The capture thread handles frames
    while [running] holds, the camera is open and it has not died. A
    frame is handled in one step, the test of line 248 together with
    the block it guards; [capture_iteration] below takes them apart. *)
Definition handle (e : event) (r : recorder) : recorder :=
  match e with
  | Toggle timestamp writer_opens now =>
      match toggle_recording timestamp writer_opens now r with
      | Ok r' => r'
      | Raise _ => r
      end
  | Frame f now =>
      match capture_thread_error r with
      | None =>
          if (running r && camera_opened r)%bool then record_frame f now r
          else r
      | Some _ => r
      end
  | Closing now =>
      match on_closing now r with
      | Ok r' => r'
      | Raise _ => r
      end
  end.

Inductive reachable : recorder -> Prop :=
| reachable_init (camera_ok : bool) : reachable (init camera_ok)
| reachable_step (e : event) (r : recorder) :
    reachable r -> reachable (handle e r).

(** The file a session that starts at [timestamp] records to. *)
Definition session_path (timestamp : string) : string :=
  Fmt.path_join OUTPUT_FOLDER ("video_" ++ timestamp ++ ".avi")%string.

(** An extraction thread was given the file and the timestamp of one
    session. *)
Definition job_of_session (job : option string * option string) : Prop :=
  exists timestamp,
    job = (Some (session_path timestamp), Some timestamp).

(** What holds of the recorder between two events: as many writers
    are open as sessions are active (one or none); an active session
    has its writer, its start time, its timestamp and its file; every
    extraction thread belongs to a session. *)
Definition recorder_inv (r : recorder) : Prop :=
  length (open_writers r) = (if is_recording r then 1 else 0)%nat /\
  (is_recording r = true ->
   exists i w t0 timestamp,
     video_writer r = Some i /\
     nth_error (writers r) i = Some w /\
     w_isOpened w = true /\
     recording_start_time r = Some t0 /\
     current_video_timestamp r = Some timestamp /\
     current_video_path r = Some (session_path timestamp)) /\
  Forall job_of_session (extraction_threads r).

End Recorder.

Arguments w_path {frame} _.
Arguments w_isOpened {frame} _.
Arguments w_frames {frame} _.
Arguments camera_opened {frame} _.
Arguments is_recording {frame} _.
Arguments video_writer {frame} _.
Arguments current_video_path {frame} _.
Arguments current_video_timestamp {frame} _.
Arguments recording_start_time {frame} _.
Arguments frames_recorded {frame} _.
Arguments running {frame} _.
Arguments capture_thread_error {frame} _.
Arguments status {frame} _.
Arguments stats {frame} _.
Arguments writers {frame} _.
Arguments extraction_threads {frame} _.
Arguments init {frame} _.
Arguments release {frame} _.
Arguments dropped {frame} _ _.
Arguments write {frame} _ _.
Arguments open_writers {frame} _.
Arguments start_recording {frame} _ _ _ _.
Arguments stop_recording {frame} _ _.
Arguments toggle_recording {frame} _ _ _ _.
Arguments record_frame {frame} _ _ _.
Arguments on_closing {frame} _ _.
Arguments Toggle {frame} _ _ _.
Arguments Frame {frame} _ _.
Arguments Closing {frame} _.
Arguments handle {frame} _ _.
Arguments reachable {frame} _.
Arguments job_of_session _ : clear implicits.
Arguments recorder_inv {frame} _.

(** ** The image viewer: upload validation ([web_app.py]) *)

Module Upload.

Local Open Scope string_scope.

Definition MAX_FILE_SIZE : Z := 50 * 1024 * 1024.

Definition ALLOWED_EXTENSIONS : list string :=
  [".png"; ".jpg"; ".jpeg"; ".gif"; ".bmp"].

(** What the validation reads of an uploaded file. *)
Record uploaded_file : Type := {
  name : string;
  size : Z
}.

(** [str.lower()]. File names are byte strings here; only the ASCII
    capitals change, which is also all that can turn a suffix into a
    member of [ALLOWED_EXTENSIONS]. *)
Definition lower_char (c : ascii) : ascii :=
  let n := nat_of_ascii c in
  if ((65 <=? n)%nat && (n <=? 90)%nat)%bool then ascii_of_nat (n + 32) else c.

Fixpoint lower (s : string) : string :=
  match s with
  | EmptyString => EmptyString
  | String c s' => String (lower_char c) (lower s')
  end.

(** [s.split("/")]. *)
Fixpoint split_slash (s : string) : list string :=
  match s with
  | EmptyString => [EmptyString]
  | String c s' =>
      if Ascii.eqb c "/" then EmptyString :: split_slash s'
      else match split_slash s' with
           | h :: t => String c h :: t
           | [] => [String c EmptyString]
           end
  end.

(** [Path(s).name]: the last component of the path, empty and ["."]
    components apart (POSIX flavour). *)
Definition path_name (s : string) : string :=
  last (filter (fun p => negb (String.eqb p "" || String.eqb p ".")%bool)
               (split_slash s))
       "".

(** [s.rfind(".")], [None] for -1. *)
Fixpoint rfind_dot (s : string) : option nat :=
  match s with
  | EmptyString => None
  | String c s' =>
      match rfind_dot s' with
      | Some i => Some (S i)
      | None => if Ascii.eqb c "." then Some O else None
      end
  end.

(** [s[i:]]. *)
Fixpoint drop (i : nat) (s : string) : string :=
  match i, s with
  | O, _ => s
  | S i', String _ s' => drop i' s'
  | S _, EmptyString => EmptyString
  end.

(** [PurePath.suffix]: from the last dot of the name on, unless that
    dot opens or closes the name. *)
Definition suffix (path : string) : string :=
  let nm := path_name path in
  match rfind_dot nm with
  | Some i =>
      if ((0 <? i)%nat && (S i <? String.length nm)%nat)%bool then drop i nm
      else ""
  | None => ""
  end.

Inductive message : Type :=
| FileTypeNotAllowed (file_ext : string)   (* "File type {file_ext} not allowed" *)
| FileTooLarge (size : Z)                  (* "File too large (...MB > 50MB)" *)
| FileIsSecure.                            (* "File is secure" *)

Definition allowed (file_ext : string) : bool :=
  existsb (String.eqb file_ext) ALLOWED_EXTENSIONS.

(** [validate_file_security]. *)
Definition validate_file_security (file : uploaded_file) : bool * message :=
  let file_ext := lower (suffix (name file)) in
  if negb (allowed file_ext) then (false, FileTypeNotAllowed file_ext)
  else if (MAX_FILE_SIZE <? size file)%Z then (false, FileTooLarge (size file))
  else (true, FileIsSecure).

Definition is_valid (file : uploaded_file) : bool :=
  fst (validate_file_security file).

Definition rejection (file : uploaded_file) : message :=
  snd (validate_file_security file).

(** [st.session_state], the part the upload touches. *)
Record session_state : Type := {
  images : list uploaded_file;
  current_index : Z
}.

(** What the page shows for an upload. *)
Inductive notice : Type :=
| Warning (file_name : string) (msg : message)   (* "Skipped {name}: {message}" *)
| Success (loaded : Z).                          (* "Loaded {n} images" *)

(** [for file in uploaded_files: ...]: the valid files and the
    warnings, both in upload order. *)
Fixpoint validate_all (uploaded_files : list uploaded_file)
  : list uploaded_file * list notice :=
  match uploaded_files with
  | [] => ([], [])
  | file :: rest =>
      let '(is_valid, msg) := validate_file_security file in
      let '(valid_images, warnings) := validate_all rest in
      if is_valid then (file :: valid_images, warnings)
      else (valid_images, Warning (name file) msg :: warnings)
  end.

(** The [if uploaded_files:] block of [main]. *)
Definition upload (uploaded_files : list uploaded_file) (st : session_state)
  : session_state * list notice :=
  match uploaded_files with
  | [] => (st, [])
  | _ :: _ =>
      let '(valid_images, warnings) := validate_all uploaded_files in
      match valid_images with
      | [] => (st, warnings)
      | _ :: _ =>
          ({| images := valid_images; current_index := 0 |},
           (warnings ++ [Success (Z.of_nat (length valid_images))])%list)
      end
  end.

Definition is_warning (n : notice) : bool :=
  match n with
  | Warning _ _ => true
  | Success _ => false
  end.

End Upload.

(** ** Sample inputs *)

(** A recording of three frames whose middle frame does not decode. *)
Definition gap_video (video_path : string) : video_capture nat := {|
  isOpened := true;
  frame_count := 3;
  read_at := fun n => if n =? 1 then None else Some (Z.to_nat n)
|}.

(** A recorder whose camera opened, after one press of the button at
    tick 0: a session is active and no frame has been written yet. *)
Definition active_recorder : recorder nat :=
  handle (Toggle "20240101_120000" true 0) (init true).

(** A recording to which no frame was written. *)
Definition empty_video (video_path : string) : video_capture nat := {|
  isOpened := true;
  frame_count := 0;
  read_at := fun _ => None
|}.

(** ** Further views of a pass *)

(** The [cv2.imwrite] calls of a run: path, frame and JPEG quality. *)
Fixpoint image_writes {frame : Type} (t : list (io_event frame))
  : list (string * frame * Z) :=
  match t with
  | [] => []
  | ImWrite path f quality :: t' => (path, f, quality) :: image_writes t'
  | _ :: t' => image_writes t'
  end.

(** The progress lines of a run: [n] of [num_images]. *)
Fixpoint progress_reports {frame : Type} (t : list (io_event frame))
  : list (Z * Z) :=
  match t with
  | [] => []
  | ShowProgress n num_images :: t' => (n, num_images) :: progress_reports t'
  | _ :: t' => progress_reports t'
  end.

(** ** Further views of the frame queue *)

(** The frame a step stores in the queue, if it is a [put_nowait] that
    succeeds. *)
Definition stored_by {frame : Type} (e : FrameQueue.sched frame)
    (s : FrameQueue.state frame) : list frame :=
  match e, FrameQueue.producer s with
  | FrameQueue.ProducerStep _, FrameQueue.P_put item =>
      match FrameQueue.put_nowait (FrameQueue.queue s) item with
      | FrameQueue.Stored _ => [item]
      | _ => []
      end
  | _, _ => []
  end.

(** The frame a step lets past the producer's [full()] test, if it is
    that test and the queue is not full. *)
Definition admitted_by {frame : Type} (e : FrameQueue.sched frame)
    (s : FrameQueue.state frame) : list frame :=
  match e, FrameQueue.producer s with
  | FrameQueue.ProducerStep f, FrameQueue.P_idle =>
      if FrameQueue.full (FrameQueue.queue s) then [] else [f]
  | _, _ => []
  end.

(** The frames stored, and the frames admitted, along a schedule run
    from [s], in order. *)
Fixpoint stored_frames {frame : Type} (es : list (FrameQueue.sched frame))
    (s : FrameQueue.state frame) : list frame :=
  match es with
  | [] => []
  | e :: es' =>
      match FrameQueue.step e s with
      | Some s' => stored_by e s ++ stored_frames es' s'
      | None => []
      end
  end.

Fixpoint admitted_frames {frame : Type} (es : list (FrameQueue.sched frame))
    (s : FrameQueue.state frame) : list frame :=
  match es with
  | [] => []
  | e :: es' =>
      match FrameQueue.step e s with
      | Some s' => admitted_by e s ++ admitted_frames es' s'
      | None => []
      end
  end.

(** The frame the producer holds between its test and its put. *)
Definition pending {frame : Type} (s : FrameQueue.state frame) : list frame :=
  match FrameQueue.producer s with
  | FrameQueue.P_put item => [item]
  | FrameQueue.P_idle => []
  end.

(** Between a thread's test and its queue call the test still holds:
    a producer about to put has a free slot, a consumer about to get has
    a frame. *)
Definition tests_still_hold {frame : Type} (s : FrameQueue.state frame) : Prop :=
  match FrameQueue.producer s with
  | FrameQueue.P_put _ => FrameQueue.full (FrameQueue.queue s) = false
  | FrameQueue.P_idle => True
  end /\
  match FrameQueue.consumer s with
  | FrameQueue.C_get => FrameQueue.empty (FrameQueue.queue s) = false
  | FrameQueue.C_idle => True
  end.

(** ** Further views of the recorder *)

(** While a session is active, the writer the recorder refers to is
    open, writes to the session's file, and holds as many frames as
    [frames_recorded] says. *)
Definition session_file_counted {frame : Type} (r : recorder frame) : Prop :=
  is_recording r = true ->
  exists i w,
    video_writer r = Some i /\
    nth_error (writers r) i = Some w /\
    w_isOpened w = true /\
    current_video_path r = Some (w_path w) /\
    Z.of_nat (length (w_frames w)) = frames_recorded r.

(** The writers an event constructs: the entries it adds to the store.
    Each [cv2.VideoWriter(path, ...)] opens [path] for writing afresh. *)
Definition constructed {frame : Type} (e : event frame) (r : recorder frame)
  : list (writer frame) :=
  skipn (length (writers r)) (writers (handle e r)).

(** A session ends at an event: it was active before and is not after. *)
Definition session_ends {frame : Type} (e : event frame) (r : recorder frame)
  : bool :=
  is_recording r && negb (is_recording (handle e r)).

(** ** The capture loop against the main thread

    [capture_frames] runs in a thread of its own, the callbacks of the
    button and of the window in the main thread. The loop tests
    [is_recording] and [video_writer] (line 248) before it takes
    [camera_lock]; [stop_recording] clears the first and, under the
    lock, releases the writer and sets the second to [None]. [handle]
    runs the test and the body of the loop as one step; here they are
    apart, and a callback can run in between. *)

(** Line 248, [if self.is_recording and self.video_writer:]. *)
Definition frame_test {frame : Type} (r : recorder frame) : bool :=
  is_recording r &&
  match video_writer r with
  | Some _ => true
  | None => false
  end.

(** Lines 249-251, under [camera_lock]: [self.video_writer.write(frame)]
    and the count. The field is read again: on [None] the attribute
    lookup raises AttributeError. *)
Definition frame_write {frame : Type} (f : frame) (r : recorder frame)
  : result (recorder frame) :=
  match video_writer r with
  | None => Raise AttributeError
  | Some i =>
      Ok {| camera_opened := camera_opened r;
            is_recording := is_recording r;
            video_writer := video_writer r;
            current_video_path := current_video_path r;
            current_video_timestamp := current_video_timestamp r;
            recording_start_time := recording_start_time r;
            frames_recorded := frames_recorded r + 1;
            running := running r;
            capture_thread_error := capture_thread_error r;
            status := status r;
            stats := stats r;
            writers := update_nth i (write f) (writers r);
            extraction_threads := extraction_threads r |}
  end.

(** Lines 254-259: the statistics, every 31 frames. *)
Definition frame_stats {frame : Type} (now : Z) (r : recorder frame)
  : result (recorder frame) :=
  if frames_recorded r mod 31 =? 0 then
    match recording_start_time r with
    | None => Raise TypeError
    | Some t0 =>
        q <- truediv (frames_recorded r) (now - t0) ;;
        Ok {| camera_opened := camera_opened r;
              is_recording := is_recording r;
              video_writer := video_writer r;
              current_video_path := current_video_path r;
              current_video_timestamp := current_video_timestamp r;
              recording_start_time := recording_start_time r;
              frames_recorded := frames_recorded r;
              running := running r;
              capture_thread_error := capture_thread_error r;
              status := status r;
              stats := Some (frames_recorded r, q);
              writers := writers r;
              extraction_threads := extraction_threads r |}
    end
  else Ok r.

(** An exception that reaches the top of [capture_frames] ends the
    thread. *)
Definition died {frame : Type} (e : exn) (r : recorder frame)
  : recorder frame :=
  {| camera_opened := camera_opened r;
     is_recording := is_recording r;
     video_writer := video_writer r;
     current_video_path := current_video_path r;
     current_video_timestamp := current_video_timestamp r;
     recording_start_time := recording_start_time r;
     frames_recorded := frames_recorded r;
     running := running r;
     capture_thread_error := Some e;
     status := status r;
     stats := stats r;
     writers := writers r;
     extraction_threads := extraction_threads r |}.

(** The callbacks of the main thread. *)
Inductive callback : Type :=
| Button (timestamp : string) (writer_opens : bool) (now : Z)
| CloseWindow (now : Z).

Definition event_of {frame : Type} (c : callback) : event frame :=
  match c with
  | Button timestamp writer_opens now => Toggle timestamp writer_opens now
  | CloseWindow now => Closing now
  end.

(** Where a callback lands in an iteration of the loop: after the test
    and before the loop holds the lock, or after the lock is given back
    and before the statistics. *)
Inductive landing : Type :=
| BeforeWrite
| AfterWrite.

Definition lands {frame : Type} (here : landing)
    (cb : option (landing * callback)) (r : recorder frame) : recorder frame :=
  match cb, here with
  | Some (BeforeWrite, c), BeforeWrite => handle (event_of c) r
  | Some (AfterWrite, c), AfterWrite => handle (event_of c) r
  | _, _ => r
  end.

(** One iteration of the loop for a frame the camera returned, during
    which at most one callback runs. The iteration starts under the
    conditions of [handle]: the thread is alive, [running] holds and the
    camera is open. *)
Definition capture_iteration {frame : Type} (f : frame) (now : Z)
    (cb : option (landing * callback)) (r : recorder frame)
  : recorder frame :=
  match capture_thread_error r with
  | Some _ => lands AfterWrite cb (lands BeforeWrite cb r)
  | None =>
      if (running r && camera_opened r)%bool then
        if frame_test r then
          let r1 := lands BeforeWrite cb r in
          match frame_write f r1 with
          | Raise e => died e r1
          | Ok r2 =>
              let r3 := lands AfterWrite cb r2 in
              match frame_stats now r3 with
              | Raise e => died e r3
              | Ok r4 => r4
              end
          end
        else lands AfterWrite cb (lands BeforeWrite cb r)
      else lands AfterWrite cb (lands BeforeWrite cb r)
  end.

(** ** The image viewer: one run of the script ([main] of [web_app.py]) *)

Module Viewer.

Inductive button : Type :=
| Previous
| Next
| First
| Last
| NewSession.

(** What the widgets hand to one run of the script: the files held by
    the uploader, the value of the slider, and the button whose click
    caused the run, if any (a click causes a run of its own, so at most
    one button reads true in a run). *)
Record widgets : Type := {
  uploaded_files : list Upload.uploaded_file;
  slider_value : Z;
  clicked : option button
}.

(** [l[i]]: a negative index counts from the end; [None] for
    IndexError. *)
Definition list_index {A : Type} (l : list A) (i : Z) : option A :=
  let n := Z.of_nat (length l) in
  if (0 <=? i) && (i <? n) then nth_error l (Z.to_nat i)
  else if (- n <=? i) && (i <? 0) then nth_error l (Z.to_nat (n + i))
  else None.

(** What a run ends with: [st.rerun()], the welcome screen, an image, or
    the IndexError of [images[current_index]]. *)
Inductive view : Type :=
| Rerun
| Welcome
| Shows (file : Upload.uploaded_file)
| RaisesIndexError.

(** The navigation block, [if st.session_state.images:] of the sidebar:
    the slider sets the index, then the clicked button acts; the flag
    tells whether [st.rerun()] ended the run. *)
Definition navigate (w : widgets) (st : Upload.session_state)
  : Upload.session_state * bool :=
  match Upload.images st with
  | [] => (st, false)
  | _ :: _ =>
      let len := Z.of_nat (length (Upload.images st)) in
      let index := slider_value w in
      let at_index (i : Z) : Upload.session_state :=
        {| Upload.images := Upload.images st; Upload.current_index := i |} in
      match clicked w with
      | Some Previous =>
          if 0 <? index then (at_index (index - 1), true)
          else (at_index index, false)
      | Some Next =>
          if index <? len - 1 then (at_index (index + 1), true)
          else (at_index index, false)
      | Some First => (at_index 0, true)
      | Some Last => (at_index (len - 1), true)
      | Some NewSession =>
          ({| Upload.images := []; Upload.current_index := 0 |}, true)
      | None => (at_index index, false)
      end
  end.

(** The main content: the current image, or the welcome screen. *)
Definition display (st : Upload.session_state) : view :=
  match Upload.images st with
  | [] => Welcome
  | _ :: _ =>
      match list_index (Upload.images st) (Upload.current_index st) with
      | Some file => Shows file
      | None => RaisesIndexError
      end
  end.

(** One run of the script: upload block, navigation block, display. *)
Definition run_script (w : widgets) (st : Upload.session_state)
  : Upload.session_state * view :=
  let st1 := fst (Upload.upload (uploaded_files w) st) in
  let '(st2, rerun) := navigate w st1 in
  (st2, if rerun then Rerun else display st2).

(** The slider keeps its promise: its value lies between its bounds, 0
    and [len(images) - 1], whenever it is drawn. *)
Definition slider_in_range (w : widgets) (st : Upload.session_state) : Prop :=
  match Upload.images (fst (Upload.upload (uploaded_files w) st)) with
  | [] => True
  | (_ :: _) as l => 0 <= slider_value w <= Z.of_nat (length l) - 1
  end.

(** The state of a fresh session. *)
Definition fresh : Upload.session_state :=
  {| Upload.images := []; Upload.current_index := 0 |}.

Inductive reachable : Upload.session_state -> Prop :=
| reachable_fresh : reachable fresh
| reachable_run (w : widgets) (st : Upload.session_state) :
    reachable st -> slider_in_range w st -> reachable (fst (run_script w st)).

(** The index points into the list of images (or the list is empty and
    the index is 0), and every image of the list passed validation. *)
Definition index_in_bounds (st : Upload.session_state) : Prop :=
  (Upload.images st = [] /\ Upload.current_index st = 0 \/
   0 <= Upload.current_index st < Z.of_nat (length (Upload.images st))) /\
  Forall (fun file => Upload.is_valid file = true) (Upload.images st).

End Viewer.

(** A name has no directory part. *)
Fixpoint has_slash (s : string) : bool :=
  match s with
  | EmptyString => false
  | String c s' => Ascii.eqb c "/" || has_slash s'
  end.

(** * Theorems *)

(** ** Lists of integers: ranges, increasing lists *)

Section ListFacts.

Lemma range_from_length (n : nat) (start step : Z) :
  length (Py.range_from n start step) = n.
Proof.
  revert start. induction n as [|n IH]; intros start; simpl; [reflexivity|].
  now rewrite IH.
Qed.

Lemma range_from_map (n : nat) (start step : Z) :
  Py.range_from n start step
  = map (fun j => start + Z.of_nat j * step) (seq 0 n).
Proof.
  revert start. induction n as [|n IH]; intros start; [reflexivity|].
  cbn [Py.range_from seq map]. f_equal; [lia|].
  rewrite IH, <- seq_shift, map_map.
  apply map_ext. intros j. lia.
Qed.

Lemma range_map (stop : Z) :
  Py.range stop = map Z.of_nat (seq 0 (Z.to_nat stop)).
Proof.
  unfold Py.range, Py.range_len. rewrite range_from_map.
  change (0 <? 1) with true. cbn iota.
  destruct (0 <? stop) eqn:E.
  - apply Z.ltb_lt in E. rewrite Z.div_1_r.
    replace (stop - 0 - 1 + 1) with stop by lia.
    apply map_ext. intros j. lia.
  - apply Z.ltb_ge in E.
    replace (Z.to_nat stop) with O by lia. reflexivity.
Qed.

Lemma comprehension_total {A B : Type} (f : A -> result B) (g : A -> B)
    (l : list A) :
  (forall x, In x l -> f x = Ok (g x)) ->
  comprehension f l = Ok (map g l).
Proof.
  induction l as [|x l IH]; intros H; [reflexivity|].
  cbn [comprehension map]. rewrite (H x (or_introl eq_refl)).
  cbn [bind]. rewrite IH; [reflexivity|].
  intros y Hy. apply H. now right.
Qed.

Lemma sorted_map_seq (h : nat -> Z) (a n : nat) :
  (forall i j, (a <= i)%nat -> (i < j)%nat -> (j < a + n)%nat -> h i < h j) ->
  StronglySorted Z.lt (map h (seq a n)).
Proof.
  revert a. induction n as [|n IH]; intros a H; cbn [seq map].
  - constructor.
  - constructor.
    + apply IH. intros i j Hi Hij Hj. apply H; lia.
    + apply Forall_forall. intros y Hy.
      apply in_map_iff in Hy. destruct Hy as [j [<- Hj]].
      apply in_seq in Hj. apply H; lia.
Qed.

Lemma sorted_lt_NoDup (l : list Z) : StronglySorted Z.lt l -> NoDup l.
Proof.
  induction 1 as [|x l Hs IH Hall]; constructor; [|exact IH].
  intros Hin. rewrite Forall_forall in Hall.
  specialize (Hall x Hin). lia.
Qed.

Lemma firstn_seq (n a m : nat) :
  firstn n (seq a m) = seq a (Nat.min n m).
Proof.
  revert a m. induction n as [|n IH]; intros a m; [reflexivity|].
  destruct m as [|m]; [reflexivity|].
  cbn [firstn seq Nat.min]. now rewrite IH.
Qed.

End ListFacts.

(** ** Binary64 division agrees with the exact quotient below 2^53 *)

(** [quotient_exponent] brackets the quotient of two positive
    integers between two consecutive powers of two (written without
    fractions: a negative exponent scales the other side). *)
Lemma quotient_exponent_bounds (a b : Z) :
  0 < a -> 0 < b ->
  let e := Binary64.quotient_exponent a b in
  (if 0 <=? e then b * 2 ^ e <= a else b <= a * 2 ^ (- e)) /\
  (if 0 <=? e + 1 then a < b * 2 ^ (e + 1) else a * 2 ^ (- (e + 1)) < b).
Proof.
  intros Ha Hb. cbv zeta. unfold Binary64.quotient_exponent.
  pose proof (Z.log2_nonneg a) as Hla.
  pose proof (Z.log2_nonneg b) as Hlb.
  pose proof (Z.log2_spec a Ha) as [Ha1 Ha2].
  pose proof (Z.log2_spec b Hb) as [Hb1 Hb2].
  rewrite <- Z.add_1_r in Ha2, Hb2.
  set (la := Z.log2 a) in *. set (lb := Z.log2 b) in *.
  set (d := la - lb).
  assert (Hpa : 0 < 2 ^ la) by (apply Z.pow_pos_nonneg; lia).
  assert (Hpb : 0 < 2 ^ lb) by (apply Z.pow_pos_nonneg; lia).
  destruct (if 0 <=? d then b * 2 ^ d <=? a else b <=? a * 2 ^ (- d)) eqn:Etest.
  - (* the quotient reaches 2^d *)
    split.
    + destruct (0 <=? d); now apply Z.leb_le.
    + destruct (0 <=? d + 1) eqn:E1.
      * apply Z.leb_le in E1.
        assert (Hpow : 2 ^ (la + 1) = 2 ^ lb * 2 ^ (d + 1)).
        { rewrite <- Z.pow_add_r by lia. f_equal. subst d. lia. }
        assert (0 < 2 ^ (d + 1)) by (apply Z.pow_pos_nonneg; lia). nia.
      * apply Z.leb_gt in E1.
        assert (Hpow : 2 ^ (la + 1) * 2 ^ (- (d + 1)) = 2 ^ lb).
        { rewrite <- Z.pow_add_r by lia. f_equal. subst d. lia. }
        assert (0 < 2 ^ (- (d + 1))) by (apply Z.pow_pos_nonneg; lia). nia.
  - (* the quotient stays below 2^d *)
    split.
    + destruct (0 <=? d - 1) eqn:E1.
      * apply Z.leb_le in E1.
        assert (Hpow : 2 ^ (lb + 1) * 2 ^ (d - 1) = 2 ^ la).
        { rewrite <- Z.pow_add_r by lia. f_equal. subst d. lia. }
        assert (0 < 2 ^ (d - 1)) by (apply Z.pow_pos_nonneg; lia). nia.
      * apply Z.leb_gt in E1.
        assert (Hpow : 2 ^ (lb + 1) = 2 ^ la * 2 ^ (- (d - 1))).
        { rewrite <- Z.pow_add_r by lia. f_equal. subst d. lia. }
        assert (0 < 2 ^ (- (d - 1))) by (apply Z.pow_pos_nonneg; lia). nia.
    + replace (d - 1 + 1) with d by lia.
      destruct (0 <=? d); now apply Z.leb_gt.
Qed.

Section Binary64Facts.

Variables a b : Z.
Hypothesis b_pos : 0 < b.
Hypothesis b_le_a : b <= a.
Hypothesis a_small : a < 2 ^ 53.

(** Rounding to nearest moves to the floor or to the next integer, and
    upwards only from the upper half. *)
Lemma round_half_even_cases (num den : Z) :
  0 < den ->
  Binary64.round_half_even num den = num / den \/
  Binary64.round_half_even num den = num / den + 1 /\ den <= 2 * (num mod den).
Proof.
  intros Hden. unfold Binary64.round_half_even.
  destruct (den <? 2 * (num mod den)) eqn:E1; cbn [orb].
  - right. apply Z.ltb_lt in E1. split; [reflexivity | lia].
  - destruct (den =? 2 * (num mod den)) eqn:E2; cbn [andb]; [|now left].
    apply Z.eqb_eq in E2.
    destruct (Z.odd (num / den)); [right; split; [reflexivity | lia] | now left].
Qed.

(** For a quotient of at least 1 the leading exponent lies in 0..52 and
    [b * 2^e] does not exceed [a]. *)
Lemma quotient_exponent_spec :
  let e := Binary64.quotient_exponent a b in
  0 <= e <= 52 /\ b * 2 ^ e <= a.
Proof.
  cbv zeta. unfold Binary64.quotient_exponent.
  pose proof (Z.log2_nonneg b) as Hlb.
  pose proof (Z.log2_le_mono b a b_le_a) as Hmono.
  assert (Hla : Z.log2 a < 53) by (apply Z.log2_lt_pow2; lia).
  pose proof (Z.log2_spec a ltac:(lia)) as [Ha1 _].
  pose proof (Z.log2_spec b b_pos) as [_ Hb2].
  set (d := Z.log2 a - Z.log2 b).
  assert (Hd : 0 <= d) by (subst d; lia).
  destruct (0 <=? d) eqn:E0; [|apply Z.leb_gt in E0; lia].
  destruct (b * 2 ^ d <=? a) eqn:E.
  - apply Z.leb_le in E. subst d. lia.
  - apply Z.leb_gt in E.
    assert (Hd1 : 1 <= d).
    { destruct (Z.eq_dec d 0) as [H0|]; [|lia].
      rewrite H0, Z.pow_0_r in E. lia. }
    split; [subst d; lia|].
    assert (Hpow : 2 ^ Z.succ (Z.log2 b) * 2 ^ (d - 1) = 2 ^ Z.log2 a).
    { rewrite <- Z.pow_add_r by lia. f_equal. subst d. lia. }
    assert (0 < 2 ^ (d - 1)) by (apply Z.pow_pos_nonneg; lia).
    nia.
Qed.

(** The rounded quotient, scaled back, has the integer part of the
    exact quotient. *)
Lemma divide_positive_floor :
  let m := fst (Binary64.divide_positive a b) in
  let u := snd (Binary64.divide_positive a b) in
  -52 <= u <= 0 /\ 0 <= m < 2 ^ 106 /\ m / 2 ^ (- u) = a / b.
Proof.
  cbv zeta. unfold Binary64.divide_positive. cbn [fst snd].
  destruct quotient_exponent_spec as [He HL].
  set (e := Binary64.quotient_exponent a b) in *.
  replace (Z.max (e - 52) (-1074)) with (e - 52) by lia.
  set (s := 52 - e).
  replace (- (e - 52)) with s by (subst s; lia).
  assert (Hs : 0 <= s <= 52) by (subst s; lia).
  assert (HP : 0 < 2 ^ s) by (apply Z.pow_pos_nonneg; lia).
  assert (HP52 : 2 ^ s <= 2 ^ 52) by (apply Z.pow_le_mono_r; lia).
  assert (HPe : 0 < 2 ^ e) by (apply Z.pow_pos_nonneg; lia).
  assert (H53 : 2 * 2 ^ s * 2 ^ e = 2 ^ 53).
  { replace 53 with (1 + s + e) by (subst s; lia).
    rewrite !Z.pow_add_r by lia. reflexivity. }
  (* both branches of the definition round [a * 2^s / b] *)
  assert (Hm : (if 0 <=? e - 52
                then Binary64.round_half_even a (b * 2 ^ (e - 52))
                else Binary64.round_half_even (a * 2 ^ s) b)
               = Binary64.round_half_even (a * 2 ^ s) b).
  { destruct (0 <=? e - 52) eqn:E; [|reflexivity].
    apply Z.leb_le in E. assert (e = 52) by lia. subst s.
    replace (e - 52) with 0 by lia. replace (52 - e) with 0 by lia.
    now rewrite Z.pow_0_r, !Z.mul_1_r. }
  rewrite Hm. clear Hm.
  set (P := 2 ^ s) in *.
  assert (HK : b < 2 * P) by nia.
  pose proof (Z.div_mod a b ltac:(lia)) as Hab.
  pose proof (Z.mod_pos_bound a b b_pos) as Hr0.
  pose proof (Z.div_mod (a * P) b ltac:(lia)) as HX.
  pose proof (Z.mod_pos_bound (a * P) b b_pos) as Hr.
  set (k := a / b) in *. set (r0 := a mod b) in *.
  set (q := a * P / b) in *. set (r := (a * P) mod b) in *.
  assert (Hk : 0 <= k) by (subst k; apply Z.div_pos; lia).
  assert (Hka : k <= a) by nia.
  assert (Hq1 : k * P <= q) by nia.
  assert (Hq2 : q < (k + 1) * P) by nia.
  assert (Hbound : k * P <= Binary64.round_half_even (a * P) b < (k + 1) * P).
  { destruct (round_half_even_cases (a * P) b b_pos) as [-> | [-> Hup]];
      fold q; [lia|].
    fold r in Hup. split; [lia|].
    destruct (Z.eq_dec q ((k + 1) * P - 1)) as [Hq|]; [|lia].
    exfalso. nia. }
  split; [subst s; lia|]. split.
  - split; [nia|].
    apply Z.lt_le_trans with ((k + 1) * P); [lia|].
    replace 106 with (54 + 52) by lia. rewrite Z.pow_add_r by lia.
    assert (k + 1 <= 2 ^ 54) by (assert (2 ^ 53 <= 2 ^ 54) by
      (apply Z.pow_le_mono_r; lia); lia).
    nia.
  - symmetry. apply Z.div_unique with (Binary64.round_half_even (a * P) b - k * P);
      [left; lia | lia].
Qed.

(** [int(a / b)] in binary64 is the floor of the exact quotient. *)
Lemma int_truediv_exact : Binary64.int_truediv a b = Ok (a / b).
Proof.
  unfold Binary64.int_truediv, Binary64.truediv.
  destruct (b =? 0) eqn:Eb; [apply Z.eqb_eq in Eb; lia|].
  destruct (a =? 0) eqn:Ea; [apply Z.eqb_eq in Ea; lia|].
  rewrite (Z.abs_eq a), (Z.abs_eq b) by lia.
  pose proof divide_positive_floor as H. cbv zeta in H.
  destruct (Binary64.divide_positive a b) as [m u]. cbn [fst snd] in H.
  destruct H as [Hu [Hm Hdiv]].
  replace (Z.max u 0) with 0 by lia. rewrite Z.pow_0_r, Z.mul_1_r.
  assert (H1024 : 2 ^ 106 <= 2 ^ 1024) by (apply Z.pow_le_mono_r; lia).
  destruct (2 ^ 1024 <=? m) eqn:E; [apply Z.leb_le in E; lia|].
  cbn [bind]. f_equal. unfold Binary64.int.
  cbn [Binary64.negative Binary64.mantissa Binary64.exponent].
  replace (a <? 0) with false by (symmetry; apply Z.ltb_ge; lia).
  replace (b <? 0) with false by (symmetry; apply Z.ltb_ge; lia).
  cbn [Bool.eqb negb].
  destruct (0 <=? u) eqn:E0; [|exact Hdiv].
  apply Z.leb_le in E0. assert (u = 0) by lia. subst u.
  rewrite <- Hdiv. cbn [Z.opp]. now rewrite Z.pow_0_r, Z.mul_1_r, Z.div_1_r.
Qed.

End Binary64Facts.

Lemma comprehension_ext {A B : Type} (f g : A -> result B) (l : list A) :
  (forall x, In x l -> f x = g x) ->
  comprehension f l = comprehension g l.
Proof.
  induction l as [|x l IH]; intros H; [reflexivity|].
  cbn [comprehension]. rewrite (H x (or_introl eq_refl)).
  rewrite IH; [reflexivity|]. intros y Hy. apply H. now right.
Qed.

(** While the largest numerator [(N - 1) * T] stays below 2^53, the
    sampler computes the same indices in binary64 as over the exact
    quotient. *)
Lemma frame_indices_exact_below_2_53 (m : extraction_method) (N K T : Z) :
  (N - 1) * T < 2 ^ 53 ->
  Sampler.frame_indices m N K T = Sampler.frame_indices_exact m N K T.
Proof.
  intros Hsmall.
  unfold Sampler.frame_indices, Sampler.frame_indices_exact,
    Sampler.frame_indices_with.
  destruct m; [|reflexivity].
  destruct (T <=? N) eqn:E; [reflexivity|]. apply Z.leb_gt in E.
  apply comprehension_ext. intros x Hx.
  rewrite range_map in Hx. apply in_map_iff in Hx.
  destruct Hx as [j [<- Hj]]. apply in_seq in Hj.
  destruct (Z.eq_dec (Z.of_nat j) 0) as [-> | Hnz].
  - unfold Binary64.int_truediv, Binary64.truediv, Py.int_truediv.
    rewrite Z.mul_0_l. destruct (N =? 0); [reflexivity|].
    change (0 =? 0) with true. cbn [bind]. unfold Binary64.int.
    cbn [Binary64.negative Binary64.mantissa Binary64.exponent].
    replace (N <? 0) with false by (symmetry; apply Z.ltb_ge; lia).
    reflexivity.
  - rewrite int_truediv_exact by nia.
    unfold Py.int_truediv.
    destruct (N =? 0) eqn:E0; [apply Z.eqb_eq in E0; lia|].
    f_equal. symmetry. apply Z.quot_div_nonneg; nia.
Qed.

Example binary64_rounds_up_past_the_floor :
  Binary64.int_truediv (2 * (2 ^ 53 + 2)) 3 = Ok 6004799503160663 /\
  Py.int_truediv (2 * (2 ^ 53 + 2)) 3 = Ok 6004799503160662.
Proof. split; vm_compute; reflexivity. Qed.

(** ** The evenly spaced policy *)

Section EvenlySpaced.

Variables N T : Z.
Hypothesis N_pos : 0 < N.

(** One sample of the comprehension: the division is defined and, on
    the non-negative numerators the loop produces, truncation is the
    floor. *)
Lemma int_truediv_floor (i : Z) :
  0 <= i -> 0 <= T ->
  Py.int_truediv (i * T) N = Ok (i * T / N).
Proof.
  intros Hi HT. unfold Py.int_truediv.
  destruct (N =? 0) eqn:E; [apply Z.eqb_eq in E; lia|].
  f_equal. apply Z.quot_div_nonneg; nia.
Qed.

(** With more frames than samples, consecutive samples are at least
    one frame apart. *)
Lemma floor_step (i : Z) :
  N < T -> 0 <= i -> i * T / N + 1 <= (i + 1) * T / N.
Proof.
  intros HNT Hi.
  replace ((i + 1) * T) with (i * T + T) by ring.
  transitivity ((i * T + 1 * N) / N).
  - rewrite Z.div_add by lia. lia.
  - apply Z.div_le_mono; lia.
Qed.

Lemma floor_increasing (i j : Z) :
  N < T -> 0 <= i -> i < j -> i * T / N < j * T / N.
Proof.
  intros HNT Hi Hij.
  assert (H : forall d, 0 <= d -> i * T / N + (d + 1) <= (i + (d + 1)) * T / N).
  { intros d Hd. pattern d. apply natlike_ind; [| |exact Hd].
    - rewrite Z.add_0_l. now apply floor_step.
    - intros x Hx IH.
      replace (i + (Z.succ x + 1)) with ((i + (x + 1)) + 1) by lia.
      pose proof (floor_step (i + (x + 1)) HNT ltac:(lia)). lia. }
  specialize (H (j - i - 1) ltac:(lia)).
  replace (i + (j - i - 1 + 1)) with j in H by lia. lia.
Qed.

Lemma floor_below_total (i : Z) :
  0 < T -> 0 <= i < N -> 0 <= i * T / N < T.
Proof.
  intros HT Hi. split.
  - apply Z.div_pos; nia.
  - apply Z.div_lt_upper_bound; nia.
Qed.

End EvenlySpaced.

(** Over the exact quotient the branch returns, for every N > 0 and
    T >= 0, min(N, T) distinct, strictly increasing indices of [0, T):
    0, 1, ..., T-1 when N >= T, floor(i * T / N) otherwise. *)
Lemma exact_quotient_indices (N K T : Z) (HN : 0 < N) (HT : 0 <= T) :
  exists l,
    Sampler.frame_indices_exact evenly_spaced N K T = Ok l /\
    Z.of_nat (length l) = Z.min N T /\
    NoDup l /\
    StronglySorted Z.lt l /\
    Forall (fun x => 0 <= x < T) l /\
    (T <= N -> l = map Z.of_nat (seq 0 (Z.to_nat T))) /\
    (N < T -> l = map (fun i => Z.of_nat i * T / N) (seq 0 (Z.to_nat N))).
Proof.
  unfold Sampler.frame_indices_exact, Sampler.frame_indices_with.
  destruct (T <=? N) eqn:E.
  - apply Z.leb_le in E.
    exists (Py.range T). rewrite range_map.
    assert (Hs : StronglySorted Z.lt (map Z.of_nat (seq 0 (Z.to_nat T)))).
    { apply sorted_map_seq. intros; lia. }
    repeat split.
    + rewrite length_map, length_seq. lia.
    + now apply sorted_lt_NoDup.
    + exact Hs.
    + apply Forall_forall. intros x Hx.
      apply in_map_iff in Hx. destruct Hx as [j [<- Hj]].
      apply in_seq in Hj. lia.
    + lia.
  - apply Z.leb_gt in E.
    exists (map (fun i => Z.of_nat i * T / N) (seq 0 (Z.to_nat N))).
    assert (Hs : StronglySorted Z.lt
                   (map (fun i => Z.of_nat i * T / N) (seq 0 (Z.to_nat N)))).
    { apply sorted_map_seq. intros i j _ Hij _.
      apply floor_increasing; lia. }
    repeat split.
    + rewrite range_map.
      rewrite (comprehension_total _ (fun i => i * T / N)).
      * now rewrite map_map.
      * intros x Hx. apply in_map_iff in Hx. destruct Hx as [j [<- _]].
        apply int_truediv_floor; lia.
    + rewrite length_map, length_seq. lia.
    + now apply sorted_lt_NoDup.
    + exact Hs.
    + apply Forall_forall. intros x Hx.
      apply in_map_iff in Hx. destruct Hx as [j [<- Hj]].
      apply in_seq in Hj. apply floor_below_total; lia.
    + lia.
Qed.

(** C1, as the claim states it, fails on the sampler the pass runs: the
    division of line 438 is a binary64 division, and past 2^53 its
    rounding can step over the next integer. With 3 samples of
    2^53 + 2 frames the last index is 6004799503160663, one more than
    floor(2 * T / 3); with the 100 samples of the source's
    configuration and 142159079146801 frames the last index is one more
    than floor(99 * T / 100). *)
Lemma evenly_spaced_past_2_53 :
  Sampler.frame_indices evenly_spaced 3 FRAME_INTERVAL (2 ^ 53 + 2)
  = Ok [0; 3002399751580331; 6004799503160663] /\
  map (fun i => Z.of_nat i * (2 ^ 53 + 2) / 3) (seq 0 (Z.to_nat 3))
  = [0; 3002399751580331; 6004799503160662] /\
  Sampler.frame_indices evenly_spaced 3 FRAME_INTERVAL (2 ^ 53 + 2)
  <> Ok (map (fun i => Z.of_nat i * (2 ^ 53 + 2) / 3) (seq 0 (Z.to_nat 3))) /\
  (exists l,
     Sampler.frame_indices evenly_spaced NUM_IMAGES_TO_EXTRACT FRAME_INTERVAL
       142159079146801 = Ok l /\
     nth_error l 99 = Some 140737488355333 /\
     99 * 142159079146801 / NUM_IMAGES_TO_EXTRACT = 140737488355332).
Proof.
  split; [vm_compute; reflexivity|].
  split; [vm_compute; reflexivity|].
  split; [vm_compute; discriminate|].
  eexists. split; [vm_compute; reflexivity|].
  split; vm_compute; reflexivity.
Qed.

(** C1, amended. For a target count N > 0 and a total frame count
    T >= 0, with (N - 1) * T below 2^53 when N < T, the evenly spaced
    branch returns, without raising, exactly min(N, T) frame indices;
    they are pairwise distinct, strictly increasing and lie in [0, T).
    When N >= T the list is 0, 1, ..., T-1; otherwise it is
    floor(i * T / N) for i = 0, ..., N-1. *)
Theorem evenly_spaced_indices (N K T : Z) (HN : 0 < N) (HT : 0 <= T)
    (Hsmall : N < T -> (N - 1) * T < 2 ^ 53) :
  exists l,
    Sampler.frame_indices evenly_spaced N K T = Ok l /\
    Z.of_nat (length l) = Z.min N T /\
    NoDup l /\
    StronglySorted Z.lt l /\
    Forall (fun x => 0 <= x < T) l /\
    (T <= N -> l = map Z.of_nat (seq 0 (Z.to_nat T))) /\
    (N < T -> l = map (fun i => Z.of_nat i * T / N) (seq 0 (Z.to_nat N))).
Proof.
  destruct (exact_quotient_indices N K T HN HT) as [l [Hl Hrest]].
  exists l. split; [|exact Hrest].
  destruct (T <=? N) eqn:E.
  - unfold Sampler.frame_indices_exact, Sampler.frame_indices_with in Hl.
    unfold Sampler.frame_indices, Sampler.frame_indices_with.
    rewrite E in *. exact Hl.
  - apply Z.leb_gt in E.
    rewrite frame_indices_exact_below_2_53 by (apply Hsmall; exact E).
    exact Hl.
Qed.

Lemma evenly_spaced_indices_witness :
  exists l,
    Sampler.frame_indices evenly_spaced 3 FRAME_INTERVAL 10 = Ok l /\
    Z.of_nat (length l) = Z.min 3 10 /\
    NoDup l /\
    StronglySorted Z.lt l /\
    Forall (fun x => 0 <= x < 10) l /\
    (10 <= 3 -> l = map Z.of_nat (seq 0 (Z.to_nat 10))) /\
    (3 < 10 -> l = map (fun i => Z.of_nat i * 10 / 3) (seq 0 (Z.to_nat 3))).
Proof.
  apply (evenly_spaced_indices 3 FRAME_INTERVAL 10); lia.
Defined.

(** C8. The two worked examples: 100 frames and 10 samples give
    0, 10, ..., 90; 5 frames and 10 samples give 0, 1, 2, 3, 4; over the
    exact quotient and in binary64 alike. *)
Theorem evenly_spaced_examples :
  Sampler.frame_indices_exact evenly_spaced 10 FRAME_INTERVAL 100
    = Ok [0; 10; 20; 30; 40; 50; 60; 70; 80; 90] /\
  Sampler.frame_indices_exact evenly_spaced 10 FRAME_INTERVAL 5
    = Ok [0; 1; 2; 3; 4] /\
  Sampler.frame_indices evenly_spaced 10 FRAME_INTERVAL 100
    = Ok [0; 10; 20; 30; 40; 50; 60; 70; 80; 90] /\
  Sampler.frame_indices evenly_spaced 10 FRAME_INTERVAL 5
    = Ok [0; 1; 2; 3; 4].
Proof. repeat split; vm_compute; reflexivity. Qed.

(** ** The fixed stride policy *)

Section FixedStride.

Variables K T : Z.
Hypothesis K_pos : 0 < K.

(** [range(0, T, K)] has one element per multiple of [K] below [T]. *)
Lemma range_len_stride (j : Z) :
  0 <= j -> (j < Py.range_len 0 T K <-> j * K < T).
Proof.
  intros Hj. unfold Py.range_len.
  destruct (0 <? K) eqn:EK; [|apply Z.ltb_ge in EK; lia].
  destruct (0 <? T) eqn:ET.
  - apply Z.ltb_lt in ET. rewrite Z.sub_0_r. split; intros H.
    + assert (Hle : j <= (T - 1) / K) by lia.
      pose proof (Z.mul_div_le (T - 1) K K_pos). nia.
    + assert (Hle : j <= (T - 1) / K)
        by (apply Z.div_le_lower_bound; lia).
      lia.
  - apply Z.ltb_ge in ET. split; intros H; [lia | nia].
Qed.

Lemma range_len_nonneg : 0 <= Py.range_len 0 T K.
Proof.
  unfold Py.range_len.
  destruct (0 <? K) eqn:EK; [|apply Z.ltb_ge in EK; lia].
  destruct (0 <? T) eqn:ET; [|lia].
  apply Z.ltb_lt in ET. rewrite Z.sub_0_r.
  pose proof (Z.div_pos (T - 1) K). lia.
Qed.

End FixedStride.

(** C7. For a stride K > 0, a cap N >= 0 and any total frame count T the
    interval branch returns, without raising, the list 0, K, 2K, ... of
    the multiples j*K with j < N and j*K < T, in increasing order; it
    has at most N elements. (The branch divides nothing: it is the same
    over the exact quotient and in binary64.) *)
Theorem interval_indices (N K T : Z) (HK : 0 < K) (HN : 0 <= N) :
  exists l,
    Sampler.frame_indices_exact interval N K T = Ok l /\
    Sampler.frame_indices interval N K T = Ok l /\
    l = map (fun j => Z.of_nat j * K) (seq 0 (length l)) /\
    (forall x, In x l <-> exists j, 0 <= j < N /\ j * K < T /\ x = j * K) /\
    StronglySorted Z.lt l /\
    Z.of_nat (length l) <= N.
Proof.
  set (c := Nat.min (Z.to_nat N) (Z.to_nat (Py.range_len 0 T K))).
  exists (map (fun j => Z.of_nat j * K) (seq 0 c)).
  pose proof (range_len_nonneg K T HK) as Hlen.
  assert (Hc : forall j, 0 <= j -> (j < Z.of_nat c <-> j < N /\ j * K < T)).
  { intros j Hj. rewrite <- (range_len_stride K T HK j Hj). subst c. lia. }
  assert (Hrun : Sampler.frame_indices_exact interval N K T
                 = Ok (map (fun j => Z.of_nat j * K) (seq 0 c))).
  { unfold Sampler.frame_indices_exact, Sampler.frame_indices_with, Py.range3.
    destruct (K =? 0) eqn:E; [apply Z.eqb_eq in E; lia|].
    cbn [bind]. unfold Py.slice_to.
    destruct (0 <=? N) eqn:E'; [|apply Z.leb_gt in E'; lia].
    rewrite range_from_map, firstn_map, firstn_seq. reflexivity. }
  repeat split.
  - exact Hrun.
  - exact Hrun.
  - now rewrite length_map, length_seq.
  - intros Hx. apply in_map_iff in Hx. destruct Hx as [j [<- Hj]].
    apply in_seq in Hj. exists (Z.of_nat j).
    pose proof (proj1 (Hc (Z.of_nat j) ltac:(lia)) ltac:(lia)). lia.
  - intros [j [Hj [HjT ->]]]. apply in_map_iff.
    exists (Z.to_nat j). split; [lia|].
    apply in_seq. pose proof (proj2 (Hc j ltac:(lia)) ltac:(lia)). lia.
  - apply sorted_map_seq. intros i j _ Hij _. nia.
  - rewrite length_map, length_seq. subst c. lia.
Qed.

Lemma interval_indices_witness :
  exists l,
    Sampler.frame_indices_exact interval 3 30 100 = Ok l /\
    Sampler.frame_indices interval 3 30 100 = Ok l /\
    l = map (fun j => Z.of_nat j * 30) (seq 0 (length l)) /\
    (forall x, In x l <-> exists j, 0 <= j < 3 /\ j * 30 < 100 /\ x = j * 30) /\
    StronglySorted Z.lt l /\
    Z.of_nat (length l) <= 3.
Proof.
  apply (interval_indices 3 30 100); lia.
Defined.

Example interval_default_config :
  Sampler.frame_indices_exact interval NUM_IMAGES_TO_EXTRACT FRAME_INTERVAL 100
  = Ok [0; 30; 60; 90].
Proof. vm_compute. reflexivity. Qed.

Example interval_capped :
  Sampler.frame_indices_exact interval 2 FRAME_INTERVAL 100 = Ok [0; 30].
Proof. vm_compute. reflexivity. Qed.

(** ** The extraction pass *)



(** With no frame to sample nothing is divided: the list is empty
    whatever the division. *)
Lemma frame_indices_zero (int_truediv : Z -> Z -> result Z)
    (m : extraction_method) (N K : Z) :
  (m = interval -> K <> 0) ->
  Sampler.frame_indices_with int_truediv m N K 0 = Ok [].
Proof.
  intros HK. destruct m; unfold Sampler.frame_indices_with.
  - destruct (0 <=? N) eqn:E; [reflexivity|].
    apply Z.leb_gt in E. rewrite range_map.
    replace (Z.to_nat N) with O by lia. reflexivity.
  - unfold Py.range3. specialize (HK eq_refl).
    destruct (K =? 0) eqn:E0; [apply Z.eqb_eq in E0; lia|].
    cbn [bind]. f_equal. unfold Py.range_len.
    change (0 <? 0) with false.
    destruct (0 <? K); cbn [Z.to_nat Py.range_from]; unfold Py.slice_to;
      destruct (0 <=? N); apply firstn_nil.
Qed.

Section ExtractionFacts.

Variable frame : Type.
Variable cfg : config.
Variable folder : string.
Variable video : video_capture frame.

(** The loop never raises: it runs its body only when there is at
    least one index, so the progress ratio has a non-zero divisor. *)
Lemma extract_loop_spec (num_images idx : Z) (l : list Z)
    (st : loop_state frame) :
  num_images <> 0 \/ l = [] ->
  extract_loop cfg folder num_images video idx l st
  = Ok {| images_extracted :=
            images_extracted st
            + Z.of_nat (length (decoded_positions video idx l));
          trace := trace st ++ loop_trace cfg folder video num_images idx l |}.
Proof.
  revert idx st. induction l as [|n rest IH]; intros idx st Hnum.
  - cbn. rewrite Z.add_0_r, app_nil_r. now destruct st.
  - assert (Hnz : (num_images =? 0) = false).
    { apply Z.eqb_neq. destruct Hnum as [H|H]; [exact H | discriminate]. }
    cbn [extract_loop decoded_positions loop_trace]. unfold extract_one.
    destruct (read_at video n) as [f|].
    + rewrite Hnz. cbn [bind]. rewrite IH by (left; now apply Z.eqb_neq).
      cbn [images_extracted trace length]. f_equal. f_equal.
      * lia.
      * now rewrite <- app_assoc.
    + cbn [bind]. rewrite IH by (left; now apply Z.eqb_neq).
      cbn [images_extracted trace]. f_equal. f_equal.
      now rewrite <- app_assoc.
Qed.

Lemma seeks_app (t1 t2 : list (io_event frame)) :
  seeks (t1 ++ t2) = seeks t1 ++ seeks t2.
Proof.
  induction t1 as [|e t1 IH]; [reflexivity|].
  destruct e; cbn; rewrite IH; reflexivity.
Qed.

Lemma reads_app (t1 t2 : list (io_event frame)) :
  reads (t1 ++ t2) = reads t1 ++ reads t2.
Proof.
  induction t1 as [|e t1 IH]; [reflexivity|].
  destruct e; cbn; rewrite IH; reflexivity.
Qed.

Lemma written_files_app (t1 t2 : list (io_event frame)) :
  written_files (t1 ++ t2) = written_files t1 ++ written_files t2.
Proof.
  induction t1 as [|e t1 IH]; [reflexivity|].
  destruct e; cbn; rewrite IH; reflexivity.
Qed.

(** Every index is asked for once, in order, whatever the reads give. *)
Lemma loop_trace_seeks (num_images idx : Z) (l : list Z) :
  seeks (loop_trace cfg folder video num_images idx l) = l.
Proof.
  revert idx. induction l as [|n rest IH]; intros idx; [reflexivity|].
  cbn [loop_trace]. rewrite seeks_app, IH.
  destruct (read_at video n); reflexivity.
Qed.

Lemma loop_trace_reads (num_images idx : Z) (l : list Z) :
  reads (loop_trace cfg folder video num_images idx l) = map (decodes video) l.
Proof.
  revert idx. induction l as [|n rest IH]; intros idx; [reflexivity|].
  cbn [loop_trace map]. rewrite reads_app, IH. unfold decodes.
  destruct (read_at video n); reflexivity.
Qed.

Lemma loop_trace_written (num_images idx : Z) (l : list Z) :
  written_files (loop_trace cfg folder video num_images idx l)
  = map (fun i => Fmt.path_join folder (image_filename i))
        (decoded_positions video idx l).
Proof.
  revert idx. induction l as [|n rest IH]; intros idx; [reflexivity|].
  cbn [loop_trace decoded_positions]. rewrite written_files_app, IH.
  destruct (read_at video n); reflexivity.
Qed.

Lemma decoded_positions_count (idx : Z) (l : list Z) :
  length (decoded_positions video idx l)
  = length (filter (fun b : bool => b) (map (decodes video) l)).
Proof.
  revert idx. induction l as [|n rest IH]; intros idx; [reflexivity|].
  cbn [decoded_positions map]. unfold decodes at 1.
  destruct (read_at video n); cbn [filter length]; now rewrite IH.
Qed.

Lemma decoded_positions_bounds (idx : Z) (l : list Z) :
  Forall (fun i => idx <= i < idx + Z.of_nat (length l))
         (decoded_positions video idx l).
Proof.
  revert idx. induction l as [|n rest IH]; intros idx; [constructor|].
  cbn [decoded_positions length].
  assert (H : Forall (fun i => idx <= i < idx + Z.of_nat (S (length rest)))
                     (decoded_positions video (idx + 1) rest)).
  { eapply Forall_impl; [|apply IH]. cbn beta. intros i Hi. lia. }
  destruct (read_at video n); [constructor; [lia | exact H] | exact H].
Qed.

Lemma decoded_positions_sorted (idx : Z) (l : list Z) :
  StronglySorted Z.lt (decoded_positions video idx l).
Proof.
  revert idx. induction l as [|n rest IH]; intros idx; [constructor|].
  cbn [decoded_positions].
  destruct (read_at video n); [|apply IH].
  constructor; [apply IH|].
  eapply Forall_impl; [|apply decoded_positions_bounds].
  cbn beta. intros i Hi. lia.
Qed.

Lemma decoded_positions_all (idx : Z) (l : list Z) :
  forallb (decodes video) l = true ->
  decoded_positions video idx l
  = map (fun j => idx + Z.of_nat j) (seq 0 (length l)).
Proof.
  revert idx. induction l as [|n rest IH]; intros idx H; [reflexivity|].
  cbn [forallb] in H. apply andb_true_iff in H. destruct H as [Hn Hrest].
  cbn [decoded_positions length seq map]. unfold decodes in Hn.
  destruct (read_at video n); [|discriminate].
  f_equal; [lia|].
  rewrite IH by exact Hrest. rewrite <- seq_shift, map_map.
  apply map_ext. intros j. lia.
Qed.

End ExtractionFacts.

(** A pass over a file that opens, once the sampler has returned its
    list, ends complete; its calls are the folder creation, the loop and
    the release of the decoder. *)
Lemma extract_opened (frame : Type) (VideoCapture : string -> video_capture frame)
    (cfg : config) (video_path timestamp : string) (l : list Z) :
  isOpened (VideoCapture video_path) = true ->
  Sampler.frame_indices (method cfg) (num_images_to_extract cfg)
    (frame_interval cfg) (frame_count (VideoCapture video_path)) = Ok l ->
  extract_images_from_video VideoCapture cfg video_path timestamp
  = (ExtractionComplete
       (Z.of_nat (length (decoded_positions (VideoCapture video_path) 0 l)))
       (Z.of_nat (length l)),
     MakeDirs (images_output_folder timestamp)
     :: loop_trace cfg (images_output_folder timestamp)
          (VideoCapture video_path) (Z.of_nat (length l)) 0 l
     ++ [ReleaseCapture]).
Proof.
  intros Hopen Hl.
  unfold extract_images_from_video, extract_body.
  rewrite Hopen, Hl. cbn [negb bind].
  rewrite extract_loop_spec by (destruct l; [now right | left; cbn; lia]).
  cbn [bind images_extracted trace]. rewrite <- app_assoc. reflexivity.
Qed.

(** C5. When the file opens and the sampler has returned its list of
    indices, the pass asks the decoder for every sampled index once, in
    order, whatever the earlier reads gave; it ends in the state
    "complete", reporting the number of successful reads against the
    number of sampled indices. *)
Theorem decode_failure_is_skipped (frame : Type)
    (VideoCapture : string -> video_capture frame) (cfg : config)
    (video_path timestamp : string) (l : list Z)
    (Hopen : isOpened (VideoCapture video_path) = true)
    (Hsampled :
       Sampler.frame_indices (method cfg) (num_images_to_extract cfg)
         (frame_interval cfg) (frame_count (VideoCapture video_path)) = Ok l) :
  exists t,
    extract_images_from_video VideoCapture cfg video_path timestamp
    = (ExtractionComplete
         (Z.of_nat (length (filter (fun ret : bool => ret) (reads t))))
         (Z.of_nat (length l)), t) /\
    seeks t = l /\
    reads t = map (decodes (VideoCapture video_path)) l /\
    length (reads t) = length l.
Proof.
  pose proof (extract_opened frame VideoCapture cfg video_path timestamp l
                Hopen Hsampled) as Hrun.
  eexists.
  assert (Hreads :
    reads (MakeDirs (images_output_folder timestamp)
           :: loop_trace cfg (images_output_folder timestamp)
                (VideoCapture video_path) (Z.of_nat (length l)) 0 l
           ++ [ReleaseCapture])
    = map (decodes (VideoCapture video_path)) l).
  { cbn [reads]. rewrite reads_app, loop_trace_reads. cbn. apply app_nil_r. }
  split; [|split; [|split]].
  - rewrite Hrun, Hreads,
      <- (decoded_positions_count frame (VideoCapture video_path) 0).
    reflexivity.
  - cbn [seeks]. rewrite seeks_app, loop_trace_seeks. cbn. apply app_nil_r.
  - exact Hreads.
  - rewrite Hreads. apply length_map.
Qed.

Lemma decode_failure_is_skipped_witness :
  exists t,
    extract_images_from_video gap_video source_config
      "Recordings/video_20240101_120000.avi" "20240101_120000"
    = (ExtractionComplete
         (Z.of_nat (length (filter (fun ret : bool => ret) (reads t))))
         (Z.of_nat (length [0; 1; 2])), t) /\
    seeks t = [0; 1; 2] /\
    reads t
    = map (decodes (gap_video "Recordings/video_20240101_120000.avi")) [0; 1; 2] /\
    length (reads t) = length [0; 1; 2].
Proof.
  apply (decode_failure_is_skipped nat gap_video source_config
           "Recordings/video_20240101_120000.avi" "20240101_120000" [0; 1; 2]).
  - reflexivity.
  - vm_compute. reflexivity.
Defined.

Example gap_video_report :
  fst (extract_images_from_video gap_video source_config
         "Recordings/video_20240101_120000.avi" "20240101_120000")
  = ExtractionComplete 2 3 /\
  seeks (snd (extract_images_from_video gap_video source_config
                "Recordings/video_20240101_120000.avi" "20240101_120000"))
  = [0; 1; 2].
Proof. split; vm_compute; reflexivity. Qed.

(** ** Names of the extracted images *)

Example image_filename_examples :
  map image_filename [0; 1; 9; 99; 999]
  = ["image_001.jpg"; "image_002.jpg"; "image_010.jpg"; "image_100.jpg";
     "image_1000.jpg"]%string.
Proof. vm_compute. reflexivity. Qed.

Lemma images_output_folder_eq (timestamp : string) :
  images_output_folder timestamp = ("Images/video_" ++ timestamp)%string.
Proof. reflexivity. Qed.

Module FmtFacts.

Local Open Scope string_scope.

Lemma parse_zeros (k : nat) (s : string) :
  Fmt.parse_decimal (Fmt.zeros k ++ s) = Fmt.parse_decimal s.
Proof.
  induction k as [|k IH]; [reflexivity|].
  rewrite <- IH. unfold Fmt.parse_decimal.
  cbn [Fmt.zeros append NilEmpty.uint_of_string].
  destruct (NilEmpty.uint_of_string (Fmt.zeros k ++ s)); reflexivity.
Qed.

(** Printing and reading back a number gives the number. *)
Lemma parse_decimal_decimal (n : Z) :
  Fmt.parse_decimal (Fmt.decimal n) = Some (Z.to_N n).
Proof.
  unfold Fmt.parse_decimal, Fmt.decimal.
  assert (Hnil : N.to_uint (Z.to_N n) <> Nil).
  { destruct (Z.to_N n) as [|p]; [discriminate|].
    apply DecimalPos.Unsigned.to_uint_nonnil. }
  unfold NilZero.string_of_uint.
  destruct (N.to_uint (Z.to_N n)) eqn:E; try congruence;
    rewrite <- E, NilEmpty.usu; cbn [option_map];
    now rewrite DecimalN.Unsigned.of_to.
Qed.

Lemma parse_format_03d (n : Z) :
  (0 <= n)%Z -> Fmt.parse_decimal (Fmt.format_03d n) = Some (Z.to_N n).
Proof.
  intros Hn. unfold Fmt.format_03d.
  destruct (n <? 0)%Z eqn:E; [apply Z.ltb_lt in E; lia|].
  unfold Fmt.zfill. rewrite parse_zeros. apply parse_decimal_decimal.
Qed.

Lemma append_cancel_l (s a b : string) : s ++ a = s ++ b -> a = b.
Proof.
  induction s as [|c s IH]; cbn [append]; intros H; [exact H|].
  injection H as H. now apply IH.
Qed.

Lemma length_append (a b : string) :
  String.length (a ++ b) = (String.length a + String.length b)%nat.
Proof. induction a as [|c a IH]; cbn; congruence. Qed.

Lemma append_cancel_r (a b t : string) : a ++ t = b ++ t -> a = b.
Proof.
  revert b. induction a as [|c a IH]; intros [|d b] H; cbn [append] in H.
  - reflexivity.
  - apply (f_equal String.length) in H. cbn [String.length] in H.
    rewrite length_append in H. lia.
  - apply (f_equal String.length) in H. cbn [String.length] in H.
    rewrite length_append in H. lia.
  - injection H as -> H. f_equal. now apply IH.
Qed.

(** Distinct positions give distinct file names. *)
Lemma image_filename_inj (i j : Z) :
  (0 <= i)%Z -> (0 <= j)%Z -> image_filename i = image_filename j -> i = j.
Proof.
  intros Hi Hj H. unfold image_filename in H.
  apply append_cancel_l, append_cancel_r in H.
  apply (f_equal Fmt.parse_decimal) in H.
  rewrite !parse_format_03d in H by lia.
  injection H as H. lia.
Qed.

Lemma image_path_inj (folder : string) (i j : Z) :
  (0 <= i)%Z -> (0 <= j)%Z ->
  Fmt.path_join folder (image_filename i) = Fmt.path_join folder (image_filename j) ->
  i = j.
Proof.
  intros Hi Hj H. apply image_filename_inj; try assumption.
  unfold Fmt.path_join in H.
  change (Fmt.starts_with_slash (image_filename i)) with false in H.
  change (Fmt.starts_with_slash (image_filename j)) with false in H.
  cbv iota in H.
  destruct (String.eqb folder "" || Fmt.ends_with_slash folder)%bool.
  - now apply append_cancel_l in H.
  - now apply append_cancel_l, append_cancel_l in H.
Qed.

Lemma NoDup_map_on {A B : Type} (f : A -> B) (P : A -> Prop) (l : list A) :
  (forall x y, P x -> P y -> f x = f y -> x = y) ->
  Forall P l -> NoDup l -> NoDup (map f l).
Proof.
  intros Hinj HP Hnd. induction Hnd as [|x l Hx Hnd IH]; [constructor|].
  inversion HP as [|? ? Px Pl]; subst. cbn [map]. constructor; [|now apply IH].
  intros Hin. apply in_map_iff in Hin. destruct Hin as [y [Hy Hyl]].
  rewrite Forall_forall in Pl.
  assert (y = x) by (apply Hinj; auto). now subst y.
Qed.

End FmtFacts.

(** C4. The docstring of [extract_images_from_video] and the comment
    at the naming line promise sequential numbering, image_001.jpg,
    image_002.jpg, ...; the name is built from the position in the list
    of sampled indices ([idx+1]), not from the count of images written
    ([images_extracted]). Of three sampled frames whose middle one does
    not decode, the pass writes image_001.jpg and image_003.jpg and
    reports 2 of 3: the numbering of the files written has a gap. *)
Lemma numbering_gap_after_decode_failure :
  fst (extract_images_from_video gap_video source_config
         "Recordings/video_20240101_120000.avi" "20240101_120000")
  = ExtractionComplete 2 3 /\
  written_files
    (snd (extract_images_from_video gap_video source_config
            "Recordings/video_20240101_120000.avi" "20240101_120000"))
  = ["Images/video_20240101_120000/image_001.jpg";
     "Images/video_20240101_120000/image_003.jpg"]%string /\
  ~ sequential_names "20240101_120000"
      (written_files
         (snd (extract_images_from_video gap_video source_config
                 "Recordings/video_20240101_120000.avi" "20240101_120000"))).
Proof.
  split; [vm_compute; reflexivity|]. split.
  - vm_compute. reflexivity.
  - unfold sequential_names. vm_compute. discriminate.
Qed.

(** How the pass names its files. The images are written into the
    folder Images/video_<timestamp>, each as image_<k>.jpg where k,
    padded with zeros to three digits, is the 1-based position of its
    frame in the list of sampled indices. The numbers of the files
    written increase strictly, so that no two images of a pass share a
    file; they are 001, 002, ... without gaps when every sampled frame
    decodes. *)
Theorem images_named_by_sample_position (frame : Type)
    (VideoCapture : string -> video_capture frame) (cfg : config)
    (video_path timestamp : string) (l : list Z)
    (Hopen : isOpened (VideoCapture video_path) = true)
    (Hsampled :
       Sampler.frame_indices (method cfg) (num_images_to_extract cfg)
         (frame_interval cfg) (frame_count (VideoCapture video_path)) = Ok l) :
  let t := snd (extract_images_from_video VideoCapture cfg video_path timestamp) in
  let positions := decoded_positions (VideoCapture video_path) 0 l in
  images_output_folder timestamp = ("Images/video_" ++ timestamp)%string /\
  written_files t
  = map (fun idx =>
           Fmt.path_join (images_output_folder timestamp)
             ("image_" ++ Fmt.format_03d (idx + 1) ++ ".jpg")%string)
        positions /\
  StronglySorted Z.lt positions /\
  Forall (fun idx => 0 <= idx < Z.of_nat (length l)) positions /\
  NoDup (written_files t) /\
  (forallb (decodes (VideoCapture video_path)) l = true ->
   sequential_names timestamp (written_files t)).
Proof.
  cbv zeta.
  pose proof (extract_opened frame VideoCapture cfg video_path timestamp l
                Hopen Hsampled) as Hrun.
  assert (Hw :
    written_files
      (snd (extract_images_from_video VideoCapture cfg video_path timestamp))
    = map (fun idx =>
             Fmt.path_join (images_output_folder timestamp) (image_filename idx))
          (decoded_positions (VideoCapture video_path) 0 l)).
  { rewrite Hrun. cbn [snd written_files].
    rewrite written_files_app, loop_trace_written. cbn. apply app_nil_r. }
  split; [reflexivity|]. split; [exact Hw|].
  split; [apply decoded_positions_sorted|].
  split; [apply (decoded_positions_bounds frame (VideoCapture video_path) 0 l)|].
  split.
  { rewrite Hw.
    apply (FmtFacts.NoDup_map_on _ (fun idx => 0 <= idx)).
    - intros i j Hi Hj. now apply FmtFacts.image_path_inj.
    - eapply Forall_impl;
        [|apply (decoded_positions_bounds frame (VideoCapture video_path) 0 l)].
      cbn beta. intros idx Hidx. lia.
    - apply sorted_lt_NoDup, decoded_positions_sorted. }
  intros Hall. unfold sequential_names. rewrite Hw.
  rewrite (decoded_positions_all frame (VideoCapture video_path) 0 l Hall).
  rewrite !map_map, !length_map, length_seq. reflexivity.
Qed.

Lemma images_named_by_sample_position_witness :
  let t := snd (extract_images_from_video gap_video source_config
                  "Recordings/video_20240101_120000.avi" "20240101_120000") in
  let positions :=
    decoded_positions (gap_video "Recordings/video_20240101_120000.avi") 0
      [0; 1; 2] in
  images_output_folder "20240101_120000"
  = ("Images/video_" ++ "20240101_120000")%string /\
  written_files t
  = map (fun idx =>
           Fmt.path_join (images_output_folder "20240101_120000")
             ("image_" ++ Fmt.format_03d (idx + 1) ++ ".jpg")%string)
        positions /\
  StronglySorted Z.lt positions /\
  Forall (fun idx => 0 <= idx < Z.of_nat (length [0; 1; 2])) positions /\
  NoDup (written_files t) /\
  (forallb (decodes (gap_video "Recordings/video_20240101_120000.avi"))
     [0; 1; 2] = true ->
   sequential_names "20240101_120000" (written_files t)).
Proof.
  apply (images_named_by_sample_position nat gap_video source_config
           "Recordings/video_20240101_120000.avi" "20240101_120000" [0; 1; 2]).
  - reflexivity.
  - vm_compute. reflexivity.
Defined.

(** ** The frame queue *)

Section FrameQueueFacts.

Variable frame : Type.

Lemma full_iff (q : list frame) :
  FrameQueue.full q = true <-> BUFFER_SIZE <= FrameQueue.qsize q.
Proof.
  unfold FrameQueue.full, FrameQueue.maxsize.
  change (0 <? BUFFER_SIZE) with true. cbn [andb]. apply Z.leb_le.
Qed.

Lemma not_full_iff (q : list frame) :
  FrameQueue.full q = false <-> FrameQueue.qsize q < BUFFER_SIZE.
Proof.
  unfold FrameQueue.full, FrameQueue.maxsize.
  change (0 <? BUFFER_SIZE) with true. cbn [andb]. apply Z.leb_gt.
Qed.

(** A non-blocking put stores the item or raises: it never waits. *)
Lemma put_nowait_cases (q : list frame) (item : frame) :
  FrameQueue.put_nowait q item
  = if FrameQueue.full q then FrameQueue.RaisesFull
    else FrameQueue.Stored (q ++ [item]).
Proof. reflexivity. Qed.

(** Every step of either thread completes and keeps the queue within
    its capacity. *)
Lemma step_within_capacity (e : FrameQueue.sched frame)
    (s : FrameQueue.state frame) :
  FrameQueue.within_capacity s ->
  exists s', FrameQueue.step e s = Some s' /\ FrameQueue.within_capacity s'.
Proof.
  unfold FrameQueue.within_capacity, FrameQueue.maxsize. intros Hs.
  destruct e as [f|]; cbn [FrameQueue.step].
  - destruct (FrameQueue.producer s) as [|item].
    + destruct (negb (FrameQueue.full (FrameQueue.queue s))); eauto.
    + rewrite put_nowait_cases.
      destruct (FrameQueue.full (FrameQueue.queue s)) eqn:E;
        eexists; (split; [reflexivity|]); cbn [FrameQueue.queue]; [exact Hs|].
      apply not_full_iff in E. unfold FrameQueue.qsize in *.
      rewrite length_app. cbn [length]. lia.
  - destruct (FrameQueue.consumer s).
    + destruct (negb (FrameQueue.empty (FrameQueue.queue s))); eauto.
    + unfold FrameQueue.get_nowait, FrameQueue.get.
      destruct (FrameQueue.queue s) as [|item q'] eqn:E;
        eexists; (split; [reflexivity|]); cbn [FrameQueue.queue].
      * exact Hs.
      * unfold FrameQueue.qsize in *. cbn [length] in Hs. lia.
Qed.

Lemma run_within_capacity (es : list (FrameQueue.sched frame))
    (s : FrameQueue.state frame) :
  FrameQueue.within_capacity s ->
  exists s', FrameQueue.run es s = Some s' /\ FrameQueue.within_capacity s'.
Proof.
  revert s. induction es as [|e es IH]; intros s Hs; cbn [FrameQueue.run].
  - eauto.
  - destruct (step_within_capacity e s Hs) as [s1 [-> Hs1]].
    apply IH, Hs1.
Qed.

Lemma initial_within_capacity :
  @FrameQueue.within_capacity frame FrameQueue.initial.
Proof.
  unfold FrameQueue.within_capacity, FrameQueue.maxsize, BUFFER_SIZE.
  cbn. lia.
Qed.

(** The publish block of one iteration, run without interruption:
    the frame is appended unless the queue is full, in which case the
    queue is left as it is. *)
Lemma publish_drop_on_full (f : frame) (s : FrameQueue.state frame) :
  FrameQueue.producer s = FrameQueue.P_idle ->
  exists s',
    FrameQueue.publish f s = Some s' /\
    FrameQueue.producer s' = FrameQueue.P_idle /\
    FrameQueue.queue s'
    = if FrameQueue.full (FrameQueue.queue s) then FrameQueue.queue s
      else FrameQueue.queue s ++ [f].
Proof.
  intros Hidle. unfold FrameQueue.publish. cbn [FrameQueue.step].
  rewrite Hidle.
  destruct (FrameQueue.full (FrameQueue.queue s)) eqn:E; cbn [negb].
  - rewrite Hidle. eauto.
  - cbn [FrameQueue.producer FrameQueue.step FrameQueue.queue].
    rewrite put_nowait_cases, E. eexists. repeat split.
Qed.

End FrameQueueFacts.

(** C3. Whatever the interleaving of producer and consumer steps, every
    step completes (no thread ever waits on the queue) and the queue
    holds at most BUFFER_SIZE = 3 frames. In the state reached, the
    producer's next step completes too: at the test, a full queue sends
    it back to the top of its loop with the state unchanged (the frame is
    dropped), otherwise it goes on to the put; at the put, the frame is
    appended, or dropped should the queue be full. *)
Theorem frame_queue_bounded_and_nonblocking (frame : Type)
    (es : list (FrameQueue.sched frame)) (f : frame) :
  exists s,
    FrameQueue.run es FrameQueue.initial = Some s /\
    FrameQueue.qsize (FrameQueue.queue s) <= 3 /\
    exists s',
      FrameQueue.step (FrameQueue.ProducerStep f) s = Some s' /\
      match FrameQueue.producer s with
      | FrameQueue.P_idle =>
          if FrameQueue.full (FrameQueue.queue s) then s' = s
          else FrameQueue.producer s' = FrameQueue.P_put f /\
               FrameQueue.queue s' = FrameQueue.queue s
      | FrameQueue.P_put item =>
          FrameQueue.producer s' = FrameQueue.P_idle /\
          FrameQueue.queue s'
          = if FrameQueue.full (FrameQueue.queue s) then FrameQueue.queue s
            else FrameQueue.queue s ++ [item]
      end.
Proof.
  destruct (run_within_capacity frame es FrameQueue.initial
              (initial_within_capacity frame)) as [s [Hrun Hs]].
  exists s. split; [exact Hrun|]. split; [exact Hs|].
  cbn [FrameQueue.step].
  destruct (FrameQueue.producer s) as [|item].
  - destruct (FrameQueue.full (FrameQueue.queue s)); cbn [negb];
      eexists; split; try reflexivity. split; reflexivity.
  - rewrite put_nowait_cases.
    destruct (FrameQueue.full (FrameQueue.queue s));
      eexists; split; try reflexivity; split; reflexivity.
Qed.

Example queue_drops_fourth_frame :
  option_map (@FrameQueue.queue nat)
    (FrameQueue.run
       (map FrameQueue.ProducerStep [1; 1; 2; 2; 3; 3; 4; 4; 5]%nat)
       FrameQueue.initial)
  = Some [1; 2; 3]%nat.
Proof. vm_compute. reflexivity. Qed.

Example queue_preview_takes_oldest :
  option_map (fun s => (@FrameQueue.queue nat s, FrameQueue.previewed s))
    (FrameQueue.run
       (map FrameQueue.ProducerStep [1; 1; 2; 2]%nat
        ++ [FrameQueue.ConsumerStep; FrameQueue.ConsumerStep])
       FrameQueue.initial)
  = Some ([2], [1])%nat.
Proof. vm_compute. reflexivity. Qed.

(** ** The recorder *)

Section RecorderFacts.

Variable frame : Type.

Lemma update_nth_length {A : Type} (i : nat) (g : A -> A) (l : list A) :
  length (update_nth i g l) = length l.
Proof.
  revert i. induction l as [|x l IH]; intros [|i]; cbn; auto.
Qed.

Lemma update_nth_lookup {A : Type} (i : nat) (g : A -> A) (l : list A) :
  nth_error (update_nth i g l) i = option_map g (nth_error l i).
Proof.
  revert i. induction l as [|x l IH]; intros [|i]; cbn; auto.
Qed.

(** Writing a frame opens or closes nothing. *)
Lemma open_after_write (i : nat) (f : frame) (l : list (writer frame)) :
  length (filter w_isOpened (update_nth i (write f) l))
  = length (filter w_isOpened l).
Proof.
  revert i. induction l as [|w l IH]; intros [|i]; cbn [update_nth filter];
    try reflexivity.
  - unfold write. destruct (w_isOpened w) eqn:E; cbn [w_isOpened]; now rewrite ?E.
  - destruct (w_isOpened w); cbn [length]; now rewrite IH.
Qed.

(** Releasing an open writer leaves one open writer fewer. *)
Lemma open_after_release (i : nat) (w : writer frame) (l : list (writer frame)) :
  nth_error l i = Some w -> w_isOpened w = true ->
  length (filter w_isOpened (update_nth i (@release frame) l))
  = pred (length (filter w_isOpened l)).
Proof.
  revert i. induction l as [|x l IH]; intros [|i] Hi Hw; cbn in Hi;
    try discriminate.
  - injection Hi as ->. cbn [update_nth filter release w_isOpened].
    now rewrite Hw.
  - cbn [update_nth filter]. specialize (IH i Hi Hw).
    destruct (w_isOpened x); cbn [length]; [|exact IH].
    rewrite IH.
    assert (0 < length (filter w_isOpened l))%nat; [|lia].
    clear IH. revert i Hi. induction l as [|y l IHl]; intros [|i] Hi;
      cbn in Hi; try discriminate.
    + injection Hi as ->. cbn [filter]. rewrite Hw. cbn. lia.
    + cbn [filter]. specialize (IHl i Hi).
      destruct (w_isOpened y); cbn [length]; lia.
Qed.

Lemma open_after_new (w : writer frame) (l : list (writer frame)) :
  length (filter w_isOpened (l ++ [w]))
  = (length (filter w_isOpened l) + if w_isOpened w then 1 else 0)%nat.
Proof.
  rewrite filter_app, length_app. cbn [filter].
  destruct (w_isOpened w); reflexivity.
Qed.

Lemma nth_error_new {A : Type} (x : A) (l : list A) :
  nth_error (l ++ [x]) (length l) = Some x.
Proof.
  rewrite nth_error_app2 by lia. now rewrite Nat.sub_diag.
Qed.

Lemma release_closed (w : writer frame) :
  w_isOpened w = false -> release w = w.
Proof. destruct w as [p o fs]. cbn. now intros ->. Qed.

Lemma update_nth_fixed {A : Type} (i : nat) (g : A -> A) (l : list A) :
  (forall x, nth_error l i = Some x -> g x = x) -> update_nth i g l = l.
Proof.
  revert i. induction l as [|x l IH]; intros [|i] H; cbn [update_nth];
    try reflexivity.
  - now rewrite (H x eq_refl).
  - f_equal. apply IH. intros y Hy. now apply H.
Qed.

Lemma all_closed (l : list (writer frame)) (i : nat) (w : writer frame) :
  length (filter w_isOpened l) = 0%nat -> nth_error l i = Some w ->
  w_isOpened w = false.
Proof.
  intros Hnone Hi. apply nth_error_In in Hi.
  destruct (w_isOpened w) eqn:E; [|reflexivity].
  assert (Hin : In w (filter w_isOpened l)) by (apply filter_In; now split).
  destruct (filter w_isOpened l); [destruct Hin | discriminate].
Qed.

(** With no writer open, binding [video_writer] anew releases nothing:
    the writer it held, if any, never opened. *)
Lemma dropped_idle (held : option nat) (l : list (writer frame)) :
  length (filter w_isOpened l) = 0%nat -> dropped held l = l.
Proof.
  intros Hnone. destruct held as [i|]; [|reflexivity]. cbn [dropped].
  apply update_nth_fixed. intros w Hw. apply release_closed.
  now apply (all_closed l i).
Qed.

Lemma init_inv (camera_ok : bool) : recorder_inv (@init frame camera_ok).
Proof.
  unfold recorder_inv, open_writers. cbn.
  repeat split; [discriminate | constructor].
Qed.

(** Started from a state with no active session, [start_recording]
    ends with one open writer if the session starts and none if it
    does not. *)
Lemma start_recording_inv (timestamp : string) (writer_opens : bool)
    (now : Z) (r : recorder frame) :
  recorder_inv r -> is_recording r = false ->
  recorder_inv (start_recording timestamp writer_opens now r).
Proof.
  intros [Hopen [_ Hjobs]] Hrec. rewrite Hrec in Hopen.
  unfold start_recording. rewrite (dropped_idle _ _ Hopen).
  destruct (camera_opened r); cbn [negb].
  - destruct writer_opens; cbn [negb]; unfold recorder_inv, open_writers in *;
      cbn [is_recording writers extraction_threads video_writer
           recording_start_time current_video_timestamp current_video_path];
      rewrite open_after_new, Hopen; cbn [w_isOpened].
    + repeat split; [|exact Hjobs].
      intros _. eexists _, _, now, timestamp.
      split; [reflexivity|]. split; [apply nth_error_new|]. repeat split.
    + rewrite Hrec. repeat split; [discriminate | exact Hjobs].
  - unfold recorder_inv, open_writers in *.
    cbn [is_recording writers extraction_threads]. rewrite Hrec, Hopen.
    repeat split; [discriminate | exact Hjobs].
Qed.

(** [stop_recording] never raises on a state that satisfies the
    invariant. On an active session it releases the writer, constructs
    none, and starts one extraction thread on the session's file and
    timestamp. *)
Lemma stop_recording_ok (now : Z) (r : recorder frame) :
  recorder_inv r -> is_recording r = true ->
  exists r' timestamp fps,
    stop_recording now r = Ok r' /\
    recorder_inv r' /\
    is_recording r' = false /\
    length (writers r') = length (writers r) /\
    stats r' = Some (frames_recorded r, fps) /\
    extraction_threads r'
    = extraction_threads r ++ [(Some (session_path timestamp), Some timestamp)].
Proof.
  intros [Hopen [Hact Hjobs]] Hrec.
  destruct (Hact Hrec) as [i [w [t0 [ts [Hvw [Hi [Hw [Ht0 [Hts Hpath]]]]]]]]].
  rewrite Hrec in Hopen.
  assert (Hfps : exists fps,
    (if 0 <? now - t0 then truediv (frames_recorded r) (now - t0)
     else Ok {| numerator := 0; denominator := 1 |}) = Ok fps).
  { destruct (0 <? now - t0) eqn:E; [|eauto].
    apply Z.ltb_lt in E. unfold truediv.
    destruct (now - t0 =? 0) eqn:E0; [apply Z.eqb_eq in E0; lia | eauto]. }
  destruct Hfps as [fps Hfps].
  unfold stop_recording. rewrite Hrec, Ht0. cbn [negb]. rewrite Hfps.
  cbn [bind]. eexists _, ts, fps. split; [reflexivity|].
  rewrite Hvw, Hts, Hpath.
  split; [|repeat split].
  - unfold recorder_inv, open_writers in *.
    cbn [is_recording writers extraction_threads].
    rewrite (open_after_release i w _ Hi Hw), Hopen.
    repeat split; [discriminate|].
    apply Forall_app. split; [exact Hjobs|].
    constructor; [|constructor]. now exists ts.
  - cbn [writers]. apply update_nth_length.
Qed.

Lemma stop_recording_idle (now : Z) (r : recorder frame) :
  is_recording r = false -> stop_recording now r = Ok r.
Proof. intros H. unfold stop_recording. now rewrite H. Qed.

Lemma record_frame_inv (f : frame) (now : Z) (r : recorder frame) :
  recorder_inv r -> recorder_inv (record_frame f now r).
Proof.
  intros Hinv. unfold record_frame.
  destruct (is_recording r) eqn:Hrec; [|exact Hinv].
  destruct (video_writer r) as [i|] eqn:Hvw; [|exact Hinv].
  destruct Hinv as [Hopen [Hact Hjobs]].
  destruct (Hact Hrec) as [i' [w [t0 [ts [Hvw' [Hi [Hw [Ht0 [Hts Hpath]]]]]]]]].
  rewrite Hvw in Hvw'. injection Hvw' as <-.
  unfold recorder_inv, open_writers in *.
  cbn [is_recording writers extraction_threads video_writer
       recording_start_time current_video_timestamp current_video_path].
  rewrite open_after_write. rewrite Hrec in Hopen.
  split; [exact Hopen | split; [|exact Hjobs]].
  intros _. exists i, (write f w), t0, ts.
  split; [reflexivity|].
  split; [rewrite update_nth_lookup, Hi; reflexivity|].
  split; [unfold write; rewrite Hw; reflexivity|].
  repeat split; assumption.
Qed.

Lemma handle_inv (e : event frame) (r : recorder frame) :
  recorder_inv r -> recorder_inv (handle e r).
Proof.
  intros Hinv. destruct e as [ts ok now | f now | now]; cbn [handle].
  - unfold toggle_recording. destruct (is_recording r) eqn:Hrec.
    + destruct (stop_recording_ok now r Hinv Hrec) as [r' [? [? [-> [H _]]]]].
      exact H.
    + now apply start_recording_inv.
  - destruct (capture_thread_error r); [exact Hinv|].
    destruct (running r && camera_opened r)%bool; [|exact Hinv].
    now apply record_frame_inv.
  - unfold on_closing. destruct (is_recording r) eqn:Hrec.
    + destruct (stop_recording_ok now r Hinv Hrec)
        as [r' [? [? [-> [H _]]]]].
      cbn [bind]. exact H.
    + cbn [bind]. exact Hinv.
Qed.

Lemma reachable_inv (r : recorder frame) : reachable r -> recorder_inv r.
Proof.
  induction 1 as [camera_ok | e r _ IH]; [apply init_inv | now apply handle_inv].
Qed.

End RecorderFacts.

Lemma active_recorder_reachable : reachable active_recorder.
Proof. apply reachable_step, reachable_init. Qed.

Lemma no_open_writer (frame : Type) (r : recorder frame) :
  length (open_writers r) = 0%nat -> open_writers r = [].
Proof. destruct (open_writers r); [reflexivity | discriminate]. Qed.

(** C2. In every reachable state at most one video writer is open:
    exactly one while a session is active, none otherwise. A session
    can only be started with the record button, and [toggle_recording]
    runs [start_recording] only when no session is active: pressed while
    a session is active the button stops that session, constructing no
    writer and leaving none open. While a session is active no event at
    all constructs a writer, and after any event at most one is open. *)
Theorem one_writer_at_a_time (frame : Type) (r : recorder frame)
    (Hr : reachable r) :
  (length (open_writers r) <= 1)%nat /\
  length (open_writers r) = (if is_recording r then 1 else 0)%nat /\
  (forall timestamp writer_opens now,
   exists r',
     toggle_recording timestamp writer_opens now r = Ok r' /\
     (length (open_writers r') <= 1)%nat /\
     if is_recording r then
       is_recording r' = false /\
       length (writers r') = length (writers r) /\
       open_writers r' = []
     else r' = start_recording timestamp writer_opens now r) /\
  (forall e : event frame,
     (length (open_writers (handle e r)) <= 1)%nat /\
     (is_recording r = true ->
      length (writers (handle e r)) = length (writers r))).
Proof.
  pose proof (reachable_inv frame r Hr) as Hinv.
  assert (Hone : forall r0 : recorder frame,
            recorder_inv r0 -> (length (open_writers r0) <= 1)%nat).
  { intros r0 [H _]. rewrite H. destruct (is_recording r0); lia. }
  split; [now apply Hone|]. split; [apply Hinv|]. split.
  - intros ts ok now. unfold toggle_recording.
    destruct (is_recording r) eqn:Hrec.
    + destruct (stop_recording_ok frame now r Hinv Hrec)
        as [r' [ts' [fps [Hstop [Hinv' [Hrec' [Hlen _]]]]]]].
      exists r'. split; [exact Hstop|]. split; [now apply Hone|].
      repeat split; try assumption.
      apply no_open_writer. destruct Hinv' as [H _]. now rewrite H, Hrec'.
    + eexists. split; [reflexivity|]. split; [|reflexivity].
      apply Hone. now apply start_recording_inv.
  - intros e. split; [apply Hone; now apply handle_inv|].
    intros Hrec. destruct e as [ts ok now | f now | now]; cbn [handle].
    + unfold toggle_recording. rewrite Hrec.
      destruct (stop_recording_ok frame now r Hinv Hrec)
        as [r' [ts' [fps [-> [_ [_ [Hlen _]]]]]]].
      exact Hlen.
    + destruct (capture_thread_error r); [reflexivity|].
      destruct (running r && camera_opened r)%bool; [|reflexivity].
      unfold record_frame. rewrite Hrec.
      destruct (video_writer r); [|reflexivity].
      cbn [writers]. apply update_nth_length.
    + unfold on_closing. rewrite Hrec.
      destruct (stop_recording_ok frame now r Hinv Hrec)
        as [r' [ts' [fps [-> [_ [_ [Hlen _]]]]]]].
      cbn [bind writers]. exact Hlen.
Qed.

Lemma one_writer_at_a_time_witness :
  (length (open_writers active_recorder) <= 1)%nat /\
  length (open_writers active_recorder)
  = (if is_recording active_recorder then 1 else 0)%nat /\
  (forall timestamp writer_opens now,
   exists r',
     toggle_recording timestamp writer_opens now active_recorder = Ok r' /\
     (length (open_writers r') <= 1)%nat /\
     if is_recording active_recorder then
       is_recording r' = false /\
       length (writers r') = length (writers active_recorder) /\
       open_writers r' = []
     else r' = start_recording timestamp writer_opens now active_recorder) /\
  (forall e : event nat,
     (length (open_writers (handle e active_recorder)) <= 1)%nat /\
     (is_recording active_recorder = true ->
      length (writers (handle e active_recorder))
      = length (writers active_recorder))).
Proof.
  apply (one_writer_at_a_time nat active_recorder).
  apply reachable_step, reachable_init.
Defined.

(** C6. Stopping a session to which no frame was written does not raise
    (the frame rate is only divided by a positive elapsed time); it
    closes the writer and starts one extraction thread on the session's
    file and timestamp. If that file reports a frame count of 0, the
    list of sampled indices is empty and the pass makes no seek, read or
    write: it ends "complete" with 0 of 0 images if the file opens, and
    with "error opening video" if it does not; nothing is raised. *)
Theorem stop_with_zero_frames (frame : Type) (r : recorder frame)
    (VideoCapture : string -> video_capture frame) (cfg : config) (now : Z)
    (Hr : reachable r)
    (Hrec : is_recording r = true)
    (Hzero : frames_recorded r = 0)
    (Hcfg : method cfg = interval -> frame_interval cfg <> 0) :
  exists r' timestamp fps,
    stop_recording now r = Ok r' /\
    is_recording r' = false /\
    open_writers r' = [] /\
    stats r' = Some (0, fps) /\
    denominator fps <> 0 /\
    extraction_threads r'
    = extraction_threads r ++ [(Some (session_path timestamp), Some timestamp)] /\
    (frame_count (VideoCapture (session_path timestamp)) = 0 ->
     Sampler.frame_indices (method cfg) (num_images_to_extract cfg)
       (frame_interval cfg) 0 = Ok [] /\
     extract_images_from_video VideoCapture cfg (session_path timestamp) timestamp
     = if isOpened (VideoCapture (session_path timestamp)) then
         (ExtractionComplete 0 0,
          [MakeDirs (images_output_folder timestamp); ReleaseCapture])
       else (ErrorOpeningVideo, [MakeDirs (images_output_folder timestamp)])).
Proof.
  pose proof (reachable_inv frame r Hr) as Hinv.
  destruct (stop_recording_ok frame now r Hinv Hrec)
    as [r' [ts [fps [Hstop [Hinv' [Hrec' [_ [Hstats Hjobs]]]]]]]].
  exists r', ts, fps. split; [exact Hstop|]. split; [exact Hrec'|].
  split; [apply no_open_writer; destruct Hinv' as [H _]; now rewrite H, Hrec'|].
  split; [now rewrite Hstats, Hzero|].
  split.
  { (* the ratio shown was computed with a non-zero divisor *)
    destruct Hinv as [_ [Hact _]].
    destruct (Hact Hrec) as [i [w [t0 [ts0 [_ [_ [_ [Ht0 _]]]]]]]].
    unfold stop_recording in Hstop. rewrite Hrec, Ht0 in Hstop.
    cbn [negb] in Hstop. unfold truediv in Hstop.
    destruct (0 <? now - t0) eqn:E.
    - destruct (now - t0 =? 0) eqn:E0; cbn [bind] in Hstop; [discriminate|].
      injection Hstop as <-. cbn [stats] in Hstats.
      injection Hstats as <-. cbn. now apply Z.eqb_neq.
    - cbn [bind] in Hstop. injection Hstop as <-. cbn [stats] in Hstats.
      injection Hstats as <-. cbn. discriminate. }
  split; [exact Hjobs|].
  intros Hcount.
  pose proof (frame_indices_zero Binary64.int_truediv (method cfg)
                (num_images_to_extract cfg) (frame_interval cfg) Hcfg) as Hl.
  fold Sampler.frame_indices in Hl.
  split; [exact Hl|].
  unfold extract_images_from_video, extract_body.
  destruct (isOpened (VideoCapture (session_path ts))); cbn [negb]; [|reflexivity].
  rewrite Hcount, Hl. reflexivity.
Qed.

Lemma stop_with_zero_frames_witness :
  exists r' timestamp fps,
    stop_recording 7 active_recorder = Ok r' /\
    is_recording r' = false /\
    open_writers r' = [] /\
    stats r' = Some (0, fps) /\
    denominator fps <> 0 /\
    extraction_threads r'
    = extraction_threads active_recorder
      ++ [(Some (session_path timestamp), Some timestamp)] /\
    (frame_count (empty_video (session_path timestamp)) = 0 ->
     Sampler.frame_indices (method source_config)
       (num_images_to_extract source_config)
       (frame_interval source_config) 0 = Ok [] /\
     extract_images_from_video empty_video source_config
       (session_path timestamp) timestamp
     = if isOpened (empty_video (session_path timestamp)) then
         (ExtractionComplete 0 0,
          [MakeDirs (images_output_folder timestamp); ReleaseCapture])
       else (ErrorOpeningVideo, [MakeDirs (images_output_folder timestamp)])).
Proof.
  apply (stop_with_zero_frames nat active_recorder empty_video source_config 7).
  - apply reachable_step, reachable_init.
  - reflexivity.
  - reflexivity.
  - discriminate.
Defined.

Example stop_at_start_tick :
  option_map (fun r => (is_recording r, stats r, extraction_threads r))
    (match stop_recording 0 active_recorder with
     | Ok r' => Some r'
     | Raise _ => None
     end)
  = Some (false,
          Some (0, {| numerator := 0; denominator := 1 |}),
          [(Some "Recordings/video_20240101_120000.avi"%string,
            Some "20240101_120000"%string)]).
Proof. vm_compute. reflexivity. Qed.

(** ** Upload validation *)

Module UploadFacts.
Import Upload.

Lemma validate_all_spec (files : list uploaded_file) :
  validate_all files
  = (filter is_valid files,
     map (fun f => Warning (name f) (rejection f))
         (filter (fun f => negb (is_valid f)) files)).
Proof.
  induction files as [|f files IH]; [reflexivity|].
  cbn [validate_all filter]. rewrite IH. unfold is_valid, rejection.
  destruct (validate_file_security f) as [[|] msg] eqn:E;
    cbn [fst negb map]; rewrite ?E; reflexivity.
Qed.

(** A file that is not valid comes with a reason, never with the
    message of a valid file. *)
Lemma rejection_reason (f : uploaded_file) :
  is_valid f = false ->
  rejection f = FileTypeNotAllowed (lower (suffix (name f))) /\
  allowed (lower (suffix (name f))) = false
  \/
  rejection f = FileTooLarge (size f) /\ MAX_FILE_SIZE < size f.
Proof.
  unfold is_valid, rejection, validate_file_security.
  destruct (allowed (lower (suffix (name f)))); cbn [negb fst snd].
  - destruct (MAX_FILE_SIZE <? size f) eqn:E; cbn [fst snd]; [|discriminate].
    intros _. right. split; [reflexivity | now apply Z.ltb_lt].
  - intros _. left. split; reflexivity.
Qed.

Lemma is_valid_iff (f : uploaded_file) :
  is_valid f = true <->
  allowed (lower (suffix (name f))) = true /\ size f <= MAX_FILE_SIZE.
Proof.
  unfold is_valid, validate_file_security.
  destruct (allowed (lower (suffix (name f)))); cbn [negb fst].
  - destruct (MAX_FILE_SIZE <? size f) eqn:E; cbn [fst].
    + apply Z.ltb_lt in E. split; [discriminate | lia].
    + apply Z.ltb_ge in E. split; auto.
  - split; [discriminate | intros [H _]; discriminate].
Qed.

Lemma filter_warnings_app (ws : list notice) (n : Z) :
  Forall (fun w => is_warning w = true) ws ->
  filter is_warning (ws ++ [Success n]) = ws.
Proof.
  induction 1 as [|w ws Hw _ IH]; [reflexivity|].
  cbn [app filter]. now rewrite Hw, IH.
Qed.

Lemma filter_warnings_id (ws : list notice) :
  Forall (fun w => is_warning w = true) ws -> filter is_warning ws = ws.
Proof.
  induction 1 as [|w ws Hw _ IH]; [reflexivity|].
  cbn [filter]. now rewrite Hw, IH.
Qed.

End UploadFacts.

(** C9. For every batch of uploaded files: a file is valid exactly when
    its extension (the suffix of its name, lower-cased) is one of .png,
    .jpg, .jpeg, .gif, .bmp and its size is at most 50 * 1024 * 1024
    bytes. A file of the batch whose extension is not in the list is
    rejected as "type not allowed", one whose extension is in the list
    and whose size is over the limit as "too large": it gets a warning
    of its own, carrying its name and that reason, and it is not among
    the images loaded. The warnings come one per rejected file, in
    upload order. The valid files of the batch, all of them and in
    upload order, become the image list of the session (which is left as
    it was when the batch has no valid file): every valid file of the
    batch is in the image list afterwards, whatever else the batch
    holds, and a list of valid images stays one. *)
Theorem upload_rejects_individually (files : list Upload.uploaded_file)
    (st : Upload.session_state) :
  let file_ext := fun f => Upload.lower (Upload.suffix (Upload.name f)) in
  let allowed := fun f =>
    In (file_ext f) [".png"; ".jpg"; ".jpeg"; ".gif"; ".bmp"]%string in
  let small := fun f => Upload.size f <= 50 * 1024 * 1024 in
  let valid := filter Upload.is_valid files in
  let invalid := filter (fun f => negb (Upload.is_valid f)) files in
  let st' := fst (Upload.upload files st) in
  let notices := snd (Upload.upload files st) in
  (forall f, Upload.is_valid f = true <-> allowed f /\ small f) /\
  (forall f, In f files -> ~ allowed f ->
     exists ext,
       Upload.validate_file_security f = (false, Upload.FileTypeNotAllowed ext) /\
       In (Upload.Warning (Upload.name f) (Upload.FileTypeNotAllowed ext)) notices /\
       ~ In f valid) /\
  (forall f, In f files -> allowed f -> ~ small f ->
     Upload.validate_file_security f
     = (false, Upload.FileTooLarge (Upload.size f)) /\
     In (Upload.Warning (Upload.name f) (Upload.FileTooLarge (Upload.size f)))
        notices /\
     ~ In f valid) /\
  (forall f, In f files -> allowed f -> small f -> In f (Upload.images st')) /\
  filter Upload.is_warning notices
  = map (fun f => Upload.Warning (Upload.name f) (Upload.rejection f)) invalid /\
  Forall (fun f => Upload.rejection f <> Upload.FileIsSecure) invalid /\
  Upload.images st' = (match valid with [] => Upload.images st | _ :: _ => valid end) /\
  (forall f, In f files -> Upload.is_valid f = true -> In f (Upload.images st')) /\
  (forall f, In f files -> Upload.is_valid f = false ->
     In (Upload.Warning (Upload.name f) (Upload.rejection f)) notices) /\
  (Forall (fun f => Upload.is_valid f = true) (Upload.images st) ->
   Forall (fun f => Upload.is_valid f = true) (Upload.images st')).
Proof.
  cbv zeta.
  set (valid := filter Upload.is_valid files).
  set (invalid := filter (fun f => negb (Upload.is_valid f)) files).
  set (ws := map (fun f => Upload.Warning (Upload.name f) (Upload.rejection f))
                 invalid).
  assert (Hws : Forall (fun w => Upload.is_warning w = true) ws).
  { apply Forall_forall. intros w Hw. apply in_map_iff in Hw.
    destruct Hw as [f [<- _]]. reflexivity. }
  assert (Hup : Upload.upload files st
                = match valid with
                  | [] => (st, ws)
                  | _ :: _ =>
                      ({| Upload.images := valid; Upload.current_index := 0 |},
                       ws ++ [Upload.Success (Z.of_nat (length valid))])
                  end).
  { unfold Upload.upload. destruct files as [|f files']; [reflexivity|].
    rewrite UploadFacts.validate_all_spec. reflexivity. }
  assert (Hnotices : forall w, In w ws -> In w (snd (Upload.upload files st))).
  { intros w Hw. rewrite Hup. destruct valid; cbn [snd]; [exact Hw|].
    apply in_or_app. now left. }
  assert (Hallowed : forall f,
            Upload.allowed (Upload.lower (Upload.suffix (Upload.name f))) = true
            <-> In (Upload.lower (Upload.suffix (Upload.name f)))
                   [".png"; ".jpg"; ".jpeg"; ".gif"; ".bmp"]%string).
  { intros f. unfold Upload.allowed. rewrite existsb_exists. split.
    - intros [x [Hx Heq]]. apply String.eqb_eq in Heq. now subst x.
    - intros H. eexists. split; [exact H | apply String.eqb_refl]. }
  assert (Hvalid : forall f,
            Upload.is_valid f = true <->
            In (Upload.lower (Upload.suffix (Upload.name f)))
               [".png"; ".jpg"; ".jpeg"; ".gif"; ".bmp"]%string /\
            Upload.size f <= 50 * 1024 * 1024).
  { intros f. rewrite UploadFacts.is_valid_iff, Hallowed. reflexivity. }
  assert (Hwarned : forall f, In f files -> Upload.is_valid f = false ->
            In (Upload.Warning (Upload.name f) (Upload.rejection f))
               (snd (Upload.upload files st))).
  { intros f Hin Hv. apply Hnotices. apply in_map_iff. exists f.
    split; [reflexivity|]. apply filter_In. split; [exact Hin|].
    now apply negb_true_iff. }
  assert (Hloaded : forall f, In f files -> Upload.is_valid f = true ->
            In f (Upload.images (fst (Upload.upload files st)))).
  { intros f Hin Hv.
    assert (Hfv : In f valid) by (apply filter_In; split; assumption).
    rewrite Hup. destruct valid; [destruct Hfv | exact Hfv]. }
  split; [exact Hvalid|].
  split; [|split; [|split; [|split; [|split; [|split; [|split; [|split]]]]]]].
  - intros f Hin Hno.
    assert (Hv : Upload.is_valid f = false).
    { destruct (Upload.is_valid f) eqn:E; [|reflexivity].
      apply Hvalid in E. now destruct Hno. }
    pose proof (Hwarned f Hin Hv) as Hw.
    assert (Hext : Upload.allowed (Upload.lower (Upload.suffix (Upload.name f)))
                   = false).
    { destruct (Upload.allowed _) eqn:E; [|reflexivity].
      apply Hallowed in E. now destruct Hno. }
    exists (Upload.lower (Upload.suffix (Upload.name f))).
    unfold Upload.rejection in Hw. unfold Upload.validate_file_security in *.
    rewrite Hext in *. cbn [negb snd] in *.
    split; [reflexivity|]. split; [exact Hw|].
    intros Hin'. apply filter_In in Hin'. destruct Hin' as [_ Hin'].
    congruence.
  - intros f Hin Hyes Hbig.
    assert (Hv : Upload.is_valid f = false).
    { destruct (Upload.is_valid f) eqn:E; [|reflexivity].
      apply Hvalid in E. now destruct Hbig. }
    pose proof (Hwarned f Hin Hv) as Hw.
    apply Hallowed in Hyes.
    assert (Hsz : (Upload.MAX_FILE_SIZE <? Upload.size f) = true).
    { apply Z.ltb_lt. unfold Upload.MAX_FILE_SIZE. lia. }
    unfold Upload.rejection in Hw. unfold Upload.validate_file_security in *.
    rewrite Hyes, Hsz in *. cbn [negb snd] in *.
    split; [reflexivity|]. split; [exact Hw|].
    intros Hin'. apply filter_In in Hin'. destruct Hin' as [_ Hin'].
    congruence.
  - intros f Hin Hyes Hsmall. apply Hloaded; [exact Hin|].
    apply Hvalid. now split.
  - rewrite Hup. destruct valid; cbn [snd].
    + now apply UploadFacts.filter_warnings_id.
    + now apply UploadFacts.filter_warnings_app.
  - apply Forall_forall. intros f Hf. apply filter_In in Hf.
    destruct Hf as [_ Hf]. apply negb_true_iff in Hf.
    destruct (UploadFacts.rejection_reason f Hf) as [[-> _] | [-> _]];
      discriminate.
  - rewrite Hup. destruct valid; reflexivity.
  - exact Hloaded.
  - exact Hwarned.
  - intros Hold. rewrite Hup.
    assert (Hv : Forall (fun f => Upload.is_valid f = true) valid).
    { apply Forall_forall. intros f Hf. now apply filter_In in Hf. }
    destruct valid; [exact Hold | exact Hv].
Qed.

Example upload_mixed_batch :
  Upload.upload
    [ {| Upload.name := "a.PNG"; Upload.size := 10 |};
      {| Upload.name := "b.exe"; Upload.size := 10 |};
      {| Upload.name := "c.jpg"; Upload.size := 100000000 |};
      {| Upload.name := "d.jpeg"; Upload.size := 52428800 |} ]
    {| Upload.images := []; Upload.current_index := 4 |}
  = ({| Upload.images :=
          [ {| Upload.name := "a.PNG"; Upload.size := 10 |};
            {| Upload.name := "d.jpeg"; Upload.size := 52428800 |} ];
        Upload.current_index := 0 |},
     [ Upload.Warning "b.exe" (Upload.FileTypeNotAllowed ".exe");
       Upload.Warning "c.jpg" (Upload.FileTooLarge 100000000);
       Upload.Success 2 ]).
Proof. vm_compute. reflexivity. Qed.

(** ** Lower-casing commutes with taking the suffix *)

Module LowerFacts.
Import Upload.

Local Open Scope string_scope.

Ltac for_all_chars c :=
  destruct c as [[] [] [] [] [] [] [] []]; reflexivity.

Lemma lower_char_slash (c : ascii) :
  Ascii.eqb (lower_char c) "/" = Ascii.eqb c "/".
Proof. for_all_chars c. Qed.

Lemma lower_char_dot (c : ascii) :
  Ascii.eqb (lower_char c) "." = Ascii.eqb c ".".
Proof. for_all_chars c. Qed.

Lemma lower_char_idem (c : ascii) : lower_char (lower_char c) = lower_char c.
Proof. for_all_chars c. Qed.

Lemma lower_idem (s : string) : lower (lower s) = lower s.
Proof.
  induction s as [|c s IH]; [reflexivity|].
  cbn [lower]. now rewrite lower_char_idem, IH.
Qed.

Lemma lower_length (s : string) : String.length (lower s) = String.length s.
Proof. induction s as [|c s IH]; cbn; congruence. Qed.

Lemma lower_split_slash (s : string) :
  split_slash (lower s) = map lower (split_slash s).
Proof.
  induction s as [|c s IH]; [reflexivity|].
  cbn [lower split_slash]. rewrite lower_char_slash, IH.
  destruct (Ascii.eqb c "/"); [reflexivity|].
  destruct (split_slash s); reflexivity.
Qed.

Lemma lower_is_component (p : string) :
  negb (String.eqb (lower p) "" || String.eqb (lower p) ".")
  = negb (String.eqb p "" || String.eqb p ".").
Proof.
  destruct p as [|c [|c' p]]; cbn [lower]; try reflexivity.
  - change (String.eqb (String (lower_char c) "") ".")
      with (Ascii.eqb (lower_char c) "." && true)%bool.
    change (String.eqb (String c "") ".") with (Ascii.eqb c "." && true)%bool.
    now rewrite lower_char_dot.
  - cbn. rewrite lower_char_dot. destruct (Ascii.eqb c "."); reflexivity.
Qed.

Lemma filter_map_lower (P : string -> bool) (l : list string) :
  (forall p, P (lower p) = P p) ->
  filter P (map lower l) = map lower (filter P l).
Proof.
  intros HP. induction l as [|p l IH]; [reflexivity|].
  cbn [map filter]. rewrite HP, IH. destruct (P p); reflexivity.
Qed.

Lemma last_map_lower (l : list string) :
  last (map lower l) "" = lower (last l "").
Proof.
  induction l as [|p l IH]; [reflexivity|].
  destruct l as [|q l]; [reflexivity|].
  change (last (map lower (p :: q :: l)) "") with (last (map lower (q :: l)) "").
  now rewrite IH.
Qed.

Lemma lower_path_name (s : string) : path_name (lower s) = lower (path_name s).
Proof.
  unfold path_name. rewrite lower_split_slash.
  rewrite filter_map_lower by apply lower_is_component.
  apply last_map_lower.
Qed.

Lemma lower_rfind_dot (s : string) : rfind_dot (lower s) = rfind_dot s.
Proof.
  induction s as [|c s IH]; [reflexivity|].
  cbn [lower rfind_dot]. now rewrite IH, lower_char_dot.
Qed.

Lemma lower_drop (i : nat) (s : string) : drop i (lower s) = lower (drop i s).
Proof.
  revert s. induction i as [|i IH]; intros s; [reflexivity|].
  destruct s as [|c s]; [reflexivity|]. cbn [lower drop]. apply IH.
Qed.

(** [Path(name.lower()).suffix == Path(name).suffix.lower()]. *)
Lemma lower_suffix (s : string) : suffix (lower s) = lower (suffix s).
Proof.
  unfold suffix. rewrite lower_path_name, lower_rfind_dot, lower_length.
  destruct (rfind_dot (path_name s)) as [i|]; [|reflexivity].
  destruct ((0 <? i)%nat && (S i <? String.length (path_name s))%nat)%bool;
    [apply lower_drop | reflexivity].
Qed.

(** Names that differ in case only have the same lowered suffix. *)
Lemma lowered_suffix_by_case (n1 n2 : string) :
  lower n1 = lower n2 ->
  lower (suffix n1) = lower (suffix n2).
Proof.
  intros H. now rewrite <- !lower_suffix, H.
Qed.

End LowerFacts.

(** C10. The extension check does not depend on case: two names that are
    equal once lower-cased get the same verdict (and the same message)
    at the same size, so PHOTO.JPG is accepted exactly when photo.jpg
    is; in particular a name gets the verdict of its lower-cased form. *)
Theorem validation_ignores_case (n1 n2 : string) (sz : Z)
    (Hcase : Upload.lower n1 = Upload.lower n2) :
  Upload.validate_file_security {| Upload.name := n1; Upload.size := sz |}
  = Upload.validate_file_security {| Upload.name := n2; Upload.size := sz |} /\
  Upload.validate_file_security {| Upload.name := n1; Upload.size := sz |}
  = Upload.validate_file_security
      {| Upload.name := Upload.lower n1; Upload.size := sz |}.
Proof.
  split; unfold Upload.validate_file_security; cbn [Upload.name Upload.size].
  - now rewrite (LowerFacts.lowered_suffix_by_case n1 n2 Hcase).
  - rewrite (LowerFacts.lowered_suffix_by_case n1 (Upload.lower n1));
      [reflexivity | now rewrite LowerFacts.lower_idem].
Qed.

Lemma validation_ignores_case_witness :
  Upload.validate_file_security {| Upload.name := "PHOTO.JPG"; Upload.size := 1024 |}
  = Upload.validate_file_security {| Upload.name := "photo.jpg"; Upload.size := 1024 |} /\
  Upload.validate_file_security {| Upload.name := "PHOTO.JPG"; Upload.size := 1024 |}
  = Upload.validate_file_security
      {| Upload.name := Upload.lower "PHOTO.JPG"; Upload.size := 1024 |}.
Proof.
  apply (validation_ignores_case "PHOTO.JPG" "photo.jpg" 1024).
  reflexivity.
Defined.

Example photo_jpg_upper_case_accepted :
  Upload.validate_file_security {| Upload.name := "PHOTO.JPG"; Upload.size := 1024 |}
  = (true, Upload.FileIsSecure) /\
  Upload.validate_file_security {| Upload.name := "notes.TXT"; Upload.size := 1024 |}
  = (false, Upload.FileTypeNotAllowed ".txt").
Proof. split; vm_compute; reflexivity. Qed.

(** * Further properties of the code *)

(** ** The sampler *)

Lemma nth_error_map_seq {B : Type} (g : nat -> B) (n i : nat) :
  nth_error (map g (seq 0 n)) i = if (i <? n)%nat then Some (g i) else None.
Proof.
  rewrite nth_error_map.
  destruct (i <? n)%nat eqn:E.
  - apply Nat.ltb_lt in E. rewrite nth_error_nth' with (d := O)
      by (rewrite length_seq; exact E).
    rewrite seq_nth by exact E. reflexivity.
  - apply Nat.ltb_ge in E.
    replace (nth_error (seq 0 n) i) with (@None nat); [reflexivity|].
    symmetry. apply nth_error_None. now rewrite length_seq.
Qed.

(** The floor of a sum is the sum of the floors, or one more. *)
Lemma div_add_bounds (a b N : Z) :
  0 < N -> a / N + b / N <= (a + b) / N <= a / N + b / N + 1.
Proof.
  intros HN.
  pose proof (Z.div_mod a N ltac:(lia)) as Ha.
  pose proof (Z.div_mod b N ltac:(lia)) as Hb.
  pose proof (Z.mod_pos_bound a N HN) as Hra.
  pose proof (Z.mod_pos_bound b N HN) as Hrb.
  split.
  - apply Z.div_le_lower_bound; [exact HN | nia].
  - assert ((a + b) / N < a / N + b / N + 2); [|lia].
    apply Z.div_lt_upper_bound; [exact HN | nia].
Qed.

(** With more frames than samples the evenly spaced branch is the list
    of the floors. *)
Lemma evenly_spaced_list (N K T : Z) :
  0 < N -> N < T ->
  Sampler.frame_indices_exact evenly_spaced N K T
  = Ok (map (fun i => Z.of_nat i * T / N) (seq 0 (Z.to_nat N))).
Proof.
  intros HN HNT. unfold Sampler.frame_indices_exact, Sampler.frame_indices_with.
  destruct (T <=? N) eqn:E; [apply Z.leb_le in E; lia|].
  rewrite range_map.
  rewrite (comprehension_total _ (fun i => i * T / N)).
  - now rewrite map_map.
  - intros x Hx. apply in_map_iff in Hx. destruct Hx as [j [<- _]].
    apply int_truediv_floor; lia.
Qed.

(** X1. The evenly spaced samples are evenly spaced: with more frames
    than samples (and numerators below 2^53) the first sample is frame
    0, two consecutive samples are floor(T/N) or floor(T/N) + 1 frames
    apart, and so is the last sample from the end of the video. *)
Theorem evenly_spaced_gaps (N K T : Z) (l : list Z)
    (HN : 0 < N) (HNT : N < T) (Hsmall : (N - 1) * T < 2 ^ 53)
    (Hl : Sampler.frame_indices evenly_spaced N K T = Ok l) :
  nth_error l 0 = Some 0 /\
  (forall i x y,
     nth_error l i = Some x -> nth_error l (S i) = Some y ->
     T / N <= y - x <= T / N + 1) /\
  (forall x,
     nth_error l (length l - 1) = Some x ->
     T / N <= T - x <= T / N + 1).
Proof.
  rewrite frame_indices_exact_below_2_53 in Hl by exact Hsmall.
  rewrite evenly_spaced_list in Hl by assumption.
  injection Hl as <-.
  set (g := fun i : nat => Z.of_nat i * T / N).
  assert (Hg : forall i : nat,
            T / N <= (Z.of_nat i * T + T) / N - g i <= T / N + 1).
  { intros i. unfold g.
    pose proof (div_add_bounds (Z.of_nat i * T) T N HN). lia. }
  assert (Hsucc : forall i : nat, g (S i) = (Z.of_nat i * T + T) / N).
  { intros i. unfold g. f_equal. lia. }
  split; [|split].
  - rewrite nth_error_map_seq.
    destruct (0 <? Z.to_nat N)%nat eqn:E; [reflexivity|].
    apply Nat.ltb_ge in E. lia.
  - intros i x y Hx Hy. rewrite nth_error_map_seq in Hx, Hy.
    destruct (i <? Z.to_nat N)%nat; [|discriminate].
    destruct (S i <? Z.to_nat N)%nat; [|discriminate].
    assert (Hx' : x = g i) by congruence.
    assert (Hy' : y = g (S i)) by congruence.
    rewrite Hx', Hy', Hsucc. apply Hg.
  - intros x Hx. rewrite length_map, length_seq, nth_error_map_seq in Hx.
    destruct (Z.to_nat N - 1 <? Z.to_nat N)%nat; [|discriminate].
    assert (Hx' : x = g (Z.to_nat N - 1)%nat) by congruence.
    pose proof (Hg (Z.to_nat N - 1)%nat) as H.
    replace (Z.of_nat (Z.to_nat N - 1) * T + T) with (T * N) in H by nia.
    rewrite Z.div_mul in H by lia. rewrite Hx'. exact H.
Qed.

Lemma evenly_spaced_gaps_witness :
  nth_error [0; 3; 6] 0 = Some 0 /\
  (forall i x y,
     nth_error [0; 3; 6] i = Some x -> nth_error [0; 3; 6] (S i) = Some y ->
     10 / 3 <= y - x <= 10 / 3 + 1) /\
  (forall x,
     nth_error [0; 3; 6] (length [0; 3; 6] - 1) = Some x ->
     10 / 3 <= 10 - x <= 10 / 3 + 1).
Proof.
  apply (evenly_spaced_gaps 3 FRAME_INTERVAL 10 [0; 3; 6]).
  - lia.
  - lia.
  - vm_compute. reflexivity.
  - vm_compute. reflexivity.
Defined.

Lemma comprehension_length {A B : Type} (f : A -> result B) (l : list A)
    (l' : list B) :
  comprehension f l = Ok l' -> length l' = length l.
Proof.
  revert l'. induction l as [|x l IH]; intros l' H; cbn [comprehension] in H.
  - injection H as <-. reflexivity.
  - destruct (f x) as [y|]; cbn [bind] in H; [|discriminate].
    destruct (comprehension f l) as [ys|]; cbn [bind] in H; [|discriminate].
    injection H as <-. cbn [length]. f_equal. now apply IH.
Qed.

(** Whatever the division, the sampler returns no more indices than
    asked for and no more than the video has frames. *)
Lemma sampler_length_bounds (int_truediv : Z -> Z -> result Z)
    (m : extraction_method) (N K T : Z) (l : list Z) :
  0 <= N -> 0 <= T ->
  Sampler.frame_indices_with int_truediv m N K T = Ok l ->
  Z.of_nat (length l) <= Z.min N T.
Proof.
  intros HN HT H. unfold Sampler.frame_indices_with in H. destruct m.
  - destruct (T <=? N) eqn:E.
    + apply Z.leb_le in E. injection H as <-.
      rewrite range_map, length_map, length_seq. lia.
    + apply Z.leb_gt in E. apply comprehension_length in H.
      rewrite H, range_map, length_map, length_seq. lia.
  - unfold Py.range3 in H. destruct (K =? 0); [discriminate|].
    cbn [bind] in H. injection H as <-. unfold Py.slice_to.
    destruct (0 <=? N) eqn:EN; [|apply Z.leb_gt in EN; lia].
    rewrite length_firstn, range_from_length.
    assert (Hlen : Py.range_len 0 T K <= T).
    { unfold Py.range_len. destruct (0 <? K) eqn:EK.
      - apply Z.ltb_lt in EK. destruct (0 <? T) eqn:ET; [|lia].
        apply Z.ltb_lt in ET. rewrite Z.sub_0_r.
        assert ((T - 1) / K <= T - 1); [|lia].
        apply Z.div_le_upper_bound; nia.
      - destruct (T <? 0) eqn:ET; [apply Z.ltb_lt in ET; lia | lia]. }
    lia.
Qed.

Lemma decoded_positions_length_le (frame : Type) (video : video_capture frame)
    (idx : Z) (l : list Z) :
  (length (decoded_positions video idx l) <= length l)%nat.
Proof.
  revert idx. induction l as [|n rest IH]; intros idx; cbn [decoded_positions length].
  - lia.
  - specialize (IH (idx + 1)).
    destruct (read_at video n); cbn [length]; lia.
Qed.

(** X2. A pass that ends complete has written as many images as it
    reports, which is at most the number of sampled indices, which in
    turn is at most the number of images asked for and at most the frame
    count of the video. *)
Theorem pass_writes_at_most (frame : Type)
    (VideoCapture : string -> video_capture frame) (cfg : config)
    (video_path timestamp : string) (extracted num_images : Z)
    (t : list (io_event frame))
    (HN : 0 <= num_images_to_extract cfg)
    (HT : 0 <= frame_count (VideoCapture video_path))
    (Hrun : extract_images_from_video VideoCapture cfg video_path timestamp
            = (ExtractionComplete extracted num_images, t)) :
  Z.of_nat (length (written_files t)) = extracted /\
  0 <= extracted <= num_images /\
  num_images <= Z.min (num_images_to_extract cfg)
                      (frame_count (VideoCapture video_path)).
Proof.
  unfold extract_images_from_video, extract_body in Hrun.
  destruct (isOpened (VideoCapture video_path)); cbn [negb] in Hrun;
    [|discriminate].
  destruct (Sampler.frame_indices (method cfg)
              (num_images_to_extract cfg) (frame_interval cfg)
              (frame_count (VideoCapture video_path))) as [l|] eqn:Hl;
    cbn [bind] in Hrun; [|discriminate].
  rewrite extract_loop_spec in Hrun
    by (destruct l; [now right | left; cbn; lia]).
  cbn [bind images_extracted trace] in Hrun.
  injection Hrun as <- <- <-.
  pose proof (decoded_positions_length_le frame (VideoCapture video_path) 0 l).
  split; [|split].
  - cbn [written_files].
    rewrite written_files_app, loop_trace_written. cbn [written_files].
    rewrite app_nil_r, length_map. reflexivity.
  - lia.
  - now apply (sampler_length_bounds Binary64.int_truediv (method cfg)
                 _ (frame_interval cfg)).
Qed.

Lemma pass_writes_at_most_witness :
  Z.of_nat
    (length
       (written_files
          (snd (extract_images_from_video gap_video source_config
                  "Recordings/video_20240101_120000.avi" "20240101_120000"))))
  = 2 /\
  0 <= 2 <= 3 /\
  3 <= Z.min (num_images_to_extract source_config)
             (frame_count (gap_video "Recordings/video_20240101_120000.avi")).
Proof.
  apply (pass_writes_at_most nat gap_video source_config
           "Recordings/video_20240101_120000.avi" "20240101_120000" 2 3).
  - vm_compute. discriminate.
  - vm_compute. discriminate.
  - vm_compute. reflexivity.
Defined.

(** ** What a pass writes and reports *)

Section PassContents.

Variable frame : Type.
Variable cfg : config.
Variable folder : string.
Variable video : video_capture frame.

Lemma image_writes_app (t1 t2 : list (io_event frame)) :
  image_writes (t1 ++ t2) = image_writes t1 ++ image_writes t2.
Proof.
  induction t1 as [|e t1 IH]; [reflexivity|].
  destruct e; cbn; rewrite IH; reflexivity.
Qed.

Lemma progress_reports_app (t1 t2 : list (io_event frame)) :
  progress_reports (t1 ++ t2) = progress_reports t1 ++ progress_reports t2.
Proof.
  induction t1 as [|e t1 IH]; [reflexivity|].
  destruct e; cbn; rewrite IH; reflexivity.
Qed.

(** The loop writes one image per sampled frame that decodes: the frame
    read at that index, under the name of its position. *)
Lemma loop_trace_image_writes (num_images idx : Z) (l : list Z)
    (path : string) (f : frame) (quality : Z) :
  In (path, f, quality)
     (image_writes (loop_trace cfg folder video num_images idx l))
  <->
  exists (k : nat) (n : Z),
    nth_error l k = Some n /\
    read_at video n = Some f /\
    path = Fmt.path_join folder (image_filename (idx + Z.of_nat k)) /\
    quality = image_quality cfg.
Proof.
  revert idx. induction l as [|n rest IH]; intros idx.
  - cbn. split; [intros [] | intros [[|k] [n [H _]]]; discriminate].
  - cbn [loop_trace]. rewrite image_writes_app, in_app_iff, IH. split.
    + intros [H | [k [n' [Hk [Hr [Hp Hq]]]]]].
      * destruct (read_at video n) as [f'|] eqn:E; cbn in H; [|destruct H].
        destruct H as [H | []]. injection H as <- <- <-.
        exists O, n. rewrite Z.add_0_r. repeat split; assumption.
      * exists (S k), n'. repeat split; try assumption.
        rewrite Hp. do 2 f_equal. lia.
    + intros [[|k] [n' [Hk [Hr [Hp Hq]]]]]; cbn [nth_error] in Hk.
      * injection Hk as <-. left. rewrite Hr. cbn.
        left. rewrite Hp, Hq, Z.add_0_r. reflexivity.
      * right. exists k, n'. repeat split; try assumption.
        rewrite Hp. do 2 f_equal. lia.
Qed.

Lemma loop_trace_progress (num_images idx : Z) (l : list Z) :
  progress_reports (loop_trace cfg folder video num_images idx l)
  = map (fun i => (i + 1, num_images)) (decoded_positions video idx l).
Proof.
  revert idx. induction l as [|n rest IH]; intros idx; [reflexivity|].
  cbn [loop_trace decoded_positions]. rewrite progress_reports_app, IH.
  destruct (read_at video n); reflexivity.
Qed.

End PassContents.

(** X3. Every image a pass writes holds a frame of the video: the file
    named after position k of the sampled list holds the frame decoded
    at the k-th sampled index, written at the configured JPEG quality;
    and every sampled index that decodes has its file. *)
Theorem image_holds_sampled_frame (frame : Type)
    (VideoCapture : string -> video_capture frame) (cfg : config)
    (video_path timestamp : string) (l : list Z)
    (Hopen : isOpened (VideoCapture video_path) = true)
    (Hsampled :
       Sampler.frame_indices (method cfg) (num_images_to_extract cfg)
         (frame_interval cfg) (frame_count (VideoCapture video_path)) = Ok l) :
  forall (path : string) (f : frame) (quality : Z),
    In (path, f, quality)
       (image_writes
          (snd (extract_images_from_video VideoCapture cfg video_path timestamp)))
    <->
    exists (k : nat) (n : Z),
      nth_error l k = Some n /\
      read_at (VideoCapture video_path) n = Some f /\
      path = Fmt.path_join (images_output_folder timestamp)
               (image_filename (Z.of_nat k)) /\
      quality = image_quality cfg.
Proof.
  intros path f quality.
  rewrite (extract_opened frame VideoCapture cfg video_path timestamp l
             Hopen Hsampled).
  cbn [snd image_writes]. rewrite image_writes_app. cbn [image_writes].
  rewrite app_nil_r, loop_trace_image_writes. reflexivity.
Qed.

Lemma image_holds_sampled_frame_witness :
  In (Fmt.path_join (images_output_folder "20240101_120000")
        (image_filename 2), 2%nat, 95)
     (image_writes
        (snd (extract_images_from_video gap_video source_config
                "Recordings/video_20240101_120000.avi" "20240101_120000")))
  <->
  exists (k : nat) (n : Z),
    nth_error [0; 1; 2] k = Some n /\
    read_at (gap_video "Recordings/video_20240101_120000.avi") n = Some 2%nat /\
    Fmt.path_join (images_output_folder "20240101_120000") (image_filename 2)
    = Fmt.path_join (images_output_folder "20240101_120000")
        (image_filename (Z.of_nat k)) /\
    95 = image_quality source_config.
Proof.
  apply (image_holds_sampled_frame nat gap_video source_config
           "Recordings/video_20240101_120000.avi" "20240101_120000" [0; 1; 2]).
  - reflexivity.
  - vm_compute. reflexivity.
Defined.

(** X4. The progress shown during a pass never passes 100%: each report
    "n of num_images" has 1 <= n <= num_images, with num_images the
    number of sampled indices; the reports come in strictly increasing
    order of n, one per image written. *)
Theorem progress_within_bounds (frame : Type)
    (VideoCapture : string -> video_capture frame) (cfg : config)
    (video_path timestamp : string) (l : list Z)
    (Hopen : isOpened (VideoCapture video_path) = true)
    (Hsampled :
       Sampler.frame_indices (method cfg) (num_images_to_extract cfg)
         (frame_interval cfg) (frame_count (VideoCapture video_path)) = Ok l) :
  let t := snd (extract_images_from_video VideoCapture cfg video_path timestamp) in
  Forall (fun r => 1 <= fst r <= snd r /\ snd r = Z.of_nat (length l))
         (progress_reports t) /\
  StronglySorted Z.lt (map fst (progress_reports t)) /\
  length (progress_reports t) = length (written_files t).
Proof.
  cbv zeta.
  rewrite (extract_opened frame VideoCapture cfg video_path timestamp l
             Hopen Hsampled).
  cbn [snd progress_reports written_files].
  rewrite progress_reports_app, written_files_app, loop_trace_progress,
    loop_trace_written.
  cbn [progress_reports written_files]. rewrite !app_nil_r.
  pose proof (decoded_positions_bounds frame (VideoCapture video_path) 0 l) as Hb.
  pose proof (decoded_positions_sorted frame (VideoCapture video_path) 0 l) as Hs.
  split; [|split].
  - apply Forall_forall. intros r Hr. apply in_map_iff in Hr.
    destruct Hr as [i [<- Hi]]. rewrite Forall_forall in Hb.
    specialize (Hb i Hi). cbn [fst snd]. lia.
  - rewrite map_map. cbn [fst].
    induction Hs as [|i ps Hps IH Hall]; cbn [map]; constructor.
    + apply IH. now inversion Hb.
    + apply Forall_forall. intros y Hy. apply in_map_iff in Hy.
      destruct Hy as [j [<- Hj]]. rewrite Forall_forall in Hall.
      specialize (Hall j Hj). lia.
  - now rewrite !length_map.
Qed.

Lemma progress_within_bounds_witness :
  let t := snd (extract_images_from_video gap_video source_config
                  "Recordings/video_20240101_120000.avi" "20240101_120000") in
  Forall (fun r => 1 <= fst r <= snd r /\ snd r = Z.of_nat (length [0; 1; 2]))
         (progress_reports t) /\
  StronglySorted Z.lt (map fst (progress_reports t)) /\
  length (progress_reports t) = length (written_files t).
Proof.
  apply (progress_within_bounds nat gap_video source_config
           "Recordings/video_20240101_120000.avi" "20240101_120000" [0; 1; 2]).
  - reflexivity.
  - vm_compute. reflexivity.
Defined.



(** ** The frame queue: order and loss *)

Section FrameQueueOrder.

Variable frame : Type.

Lemma empty_app (q : list frame) (x : frame) :
  FrameQueue.empty (q ++ [x]) = false.
Proof.
  unfold FrameQueue.empty, FrameQueue.qsize. rewrite length_app. cbn [length].
  apply Z.eqb_neq. lia.
Qed.

Lemma full_tail (x : frame) (q : list frame) :
  FrameQueue.full (x :: q) = false -> FrameQueue.full q = false.
Proof.
  rewrite !not_full_iff. unfold FrameQueue.qsize. cbn [length]. lia.
Qed.

(** One step from a state where the tests still hold: the step
    completes, the tests still hold after it, the frames seen and
    waiting grow by what the step stored, and what was admitted is
    stored or still in the producer's hands. *)
Lemma step_order (e : FrameQueue.sched frame) (s : FrameQueue.state frame) :
  tests_still_hold s ->
  exists s',
    FrameQueue.step e s = Some s' /\
    tests_still_hold s' /\
    FrameQueue.previewed s' ++ FrameQueue.queue s'
    = FrameQueue.previewed s ++ FrameQueue.queue s ++ stored_by e s /\
    pending s ++ admitted_by e s = stored_by e s ++ pending s'.
Proof.
  unfold tests_still_hold, pending, stored_by, admitted_by.
  intros [Hp Hc]. destruct e as [f|]; cbn [FrameQueue.step].
  - destruct (FrameQueue.producer s) as [|item] eqn:Eprod.
    + destruct (FrameQueue.full (FrameQueue.queue s)) eqn:Efull; cbn [negb];
        eexists; (split; [reflexivity|]);
        cbn [FrameQueue.producer FrameQueue.consumer FrameQueue.queue
             FrameQueue.previewed]; rewrite ?Eprod, ?app_nil_r;
        repeat split; assumption.
    + rewrite put_nowait_cases, Hp.
      eexists. split; [reflexivity|].
      cbn [FrameQueue.producer FrameQueue.consumer FrameQueue.queue
           FrameQueue.previewed].
      repeat split.
      destruct (FrameQueue.consumer s); [exact I | apply empty_app].
  - destruct (FrameQueue.consumer s) eqn:Econs.
    + destruct (FrameQueue.empty (FrameQueue.queue s)) eqn:Eempty; cbn [negb];
        eexists; (split; [reflexivity|]);
        cbn [FrameQueue.producer FrameQueue.consumer FrameQueue.queue
             FrameQueue.previewed]; rewrite ?Econs, ?app_nil_r.
      * destruct (FrameQueue.producer s); repeat split; assumption.
      * destruct (FrameQueue.producer s); repeat split; assumption.
    + unfold FrameQueue.get_nowait, FrameQueue.get.
      destruct (FrameQueue.queue s) as [|x q'] eqn:Eq; [discriminate Hc|].
      eexists. split; [reflexivity|].
      cbn [FrameQueue.producer FrameQueue.consumer FrameQueue.queue
           FrameQueue.previewed].
      rewrite app_nil_r, <- app_assoc.
      destruct (FrameQueue.producer s); repeat split; try exact I.
      now apply full_tail with x.
Qed.

Lemma run_order (es : list (FrameQueue.sched frame))
    (s : FrameQueue.state frame) :
  tests_still_hold s ->
  exists s',
    FrameQueue.run es s = Some s' /\
    tests_still_hold s' /\
    FrameQueue.previewed s' ++ FrameQueue.queue s'
    = FrameQueue.previewed s ++ FrameQueue.queue s ++ stored_frames es s /\
    pending s ++ admitted_frames es s = stored_frames es s ++ pending s'.
Proof.
  revert s. induction es as [|e es IH]; intros s Hs;
    cbn [FrameQueue.run stored_frames admitted_frames].
  - exists s. rewrite !app_nil_r.
    split; [reflexivity|]. split; [exact Hs|]. split; reflexivity.
  - destruct (step_order e s Hs) as [s1 [Hstep [Hs1 [Hq1 Hp1]]]].
    rewrite Hstep.
    destruct (IH s1 Hs1) as [s' [Hrun [Hs' [Hq Hp]]]].
    exists s'. split; [exact Hrun|]. split; [exact Hs'|]. split.
    + rewrite Hq, app_assoc, Hq1, <- !app_assoc. reflexivity.
    + rewrite app_assoc, Hp1, <- app_assoc, Hp, app_assoc. reflexivity.
Qed.

Lemma initial_tests_hold : @tests_still_hold frame FrameQueue.initial.
Proof. split; exact I. Qed.

End FrameQueueOrder.

(** X6. In every interleaving of the capture loop and the preview, a
    [put_nowait] that follows a passed [full()] test stores its frame
    and a [get_nowait] that follows a passed [empty()] test gets one:
    with one producer and one consumer the [except queue.Full] and
    [except queue.Empty] branches are never taken. *)
Theorem queue_calls_never_raise (frame : Type)
    (es : list (FrameQueue.sched frame)) :
  exists s,
    FrameQueue.run es FrameQueue.initial = Some s /\
    match FrameQueue.producer s with
    | FrameQueue.P_put item =>
        FrameQueue.put_nowait (FrameQueue.queue s) item
        = FrameQueue.Stored (FrameQueue.queue s ++ [item])
    | FrameQueue.P_idle => True
    end /\
    match FrameQueue.consumer s with
    | FrameQueue.C_get =>
        exists item q',
          FrameQueue.queue s = item :: q' /\
          FrameQueue.get_nowait (FrameQueue.queue s) = FrameQueue.Got frame item q'
    | FrameQueue.C_idle => True
    end.
Proof.
  destruct (run_order frame es FrameQueue.initial (initial_tests_hold frame))
    as [s [Hrun [[Hp Hc] _]]].
  exists s. split; [exact Hrun|]. split.
  - destruct (FrameQueue.producer s) as [|item]; [exact I|].
    now rewrite put_nowait_cases, Hp.
  - destruct (FrameQueue.consumer s); [exact I|].
    destruct (FrameQueue.queue s) as [|item q']; [discriminate Hc|].
    exists item, q'. split; reflexivity.
Qed.

(** X7. The queue hands frames over in order and loses none it has
    admitted: in every interleaving, the frames previewed so far
    followed by the frames waiting in the queue are exactly the frames
    stored, in the order they were stored; and the frames that passed
    the [full()] test are exactly those stored plus the one the producer
    may still hold. Frames are lost at the test only. *)
Theorem queue_is_fifo (frame : Type) (es : list (FrameQueue.sched frame)) :
  exists s,
    FrameQueue.run es FrameQueue.initial = Some s /\
    FrameQueue.previewed s ++ FrameQueue.queue s
    = stored_frames es FrameQueue.initial /\
    admitted_frames es FrameQueue.initial
    = stored_frames es FrameQueue.initial ++ pending s.
Proof.
  destruct (run_order frame es FrameQueue.initial (initial_tests_hold frame))
    as [s [Hrun [_ [Hq Hp]]]].
  exists s. split; [exact Hrun|]. split; assumption.
Qed.

Example queue_fifo_run :
  let es := map FrameQueue.ProducerStep [1; 1; 2; 2]%nat
            ++ [FrameQueue.ConsumerStep; FrameQueue.ConsumerStep]
            ++ map FrameQueue.ProducerStep [3; 3; 4; 4; 5; 6]%nat in
  option_map (fun s => (@FrameQueue.previewed nat s, FrameQueue.queue s))
    (FrameQueue.run es FrameQueue.initial)
  = Some ([1], [2; 3; 4])%nat /\
  stored_frames es FrameQueue.initial = [1; 2; 3; 4]%nat /\
  admitted_frames es FrameQueue.initial = [1; 2; 3; 4]%nat.
Proof. vm_compute. repeat split. Qed.

(** ** The recorder: files, sessions and shutdown *)

Section RecorderSessions.

Variable frame : Type.

Lemma update_nth_other {A : Type} (i j : nat) (g : A -> A) (l : list A) :
  i <> j -> nth_error (update_nth j g l) i = nth_error l i.
Proof.
  revert i j. induction l as [|x l IH]; intros [|i] [|j] H; cbn; auto;
    contradiction.
Qed.

(** What [stop_recording] does when it returns on an active session. *)
Lemma stop_recording_effect (now : Z) (r r' : recorder frame) :
  is_recording r = true ->
  stop_recording now r = Ok r' ->
  is_recording r' = false /\
  writers r' = match video_writer r with
               | Some i => update_nth i release (writers r)
               | None => writers r
               end /\
  current_video_path r' = current_video_path r /\
  camera_opened r' = camera_opened r /\
  running r' = running r /\
  capture_thread_error r' = capture_thread_error r /\
  (exists fps, stats r' = Some (frames_recorded r, fps)) /\
  extraction_threads r'
  = extraction_threads r ++ [(current_video_path r, current_video_timestamp r)].
Proof.
  intros Hrec H. unfold stop_recording in H. rewrite Hrec in H. cbn [negb] in H.
  destruct (recording_start_time r) as [t0|]; [|discriminate].
  destruct (if 0 <? now - t0 then truediv (frames_recorded r) (now - t0)
            else Ok {| numerator := 0; denominator := 1 |}) as [fps|];
    cbn [bind] in H; [|discriminate].
  injection H as <-. cbn. repeat split. now exists fps.
Qed.

Lemma session_file_counted_init (camera_ok : bool) :
  session_file_counted (@init frame camera_ok).
Proof. intros H. discriminate H. Qed.

Lemma session_file_counted_step (e : event frame) (r : recorder frame) :
  recorder_inv r -> session_file_counted r ->
  session_file_counted (handle e r).
Proof.
  intros Hinv Hcnt. destruct e as [ts ok now | f now | now]; cbn [handle].
  - unfold toggle_recording. destruct (is_recording r) eqn:Hrec.
    + destruct (stop_recording_ok frame now r Hinv Hrec)
        as [r' [? [? [-> [_ [Hrec' _]]]]]].
      intros H. congruence.
    + unfold start_recording. rewrite dropped_idle
        by (destruct Hinv as [Hopen _]; now rewrite Hrec in Hopen).
      destruct (camera_opened r); cbn [negb];
        [|intros H; cbn [is_recording] in H; congruence].
      destruct ok; cbn [negb];
        [|intros H; cbn [is_recording] in H; congruence].
      intros _. eexists _, _.
      cbn [video_writer writers current_video_path frames_recorded].
      split; [reflexivity|]. split; [apply nth_error_new|].
      repeat split.
  - destruct (capture_thread_error r); [exact Hcnt|].
    destruct (running r && camera_opened r)%bool; [|exact Hcnt].
    unfold record_frame.
    destruct (is_recording r) eqn:Hrec; [|exact Hcnt].
    destruct (video_writer r) as [i|] eqn:Hvw; [|exact Hcnt].
    destruct (Hcnt Hrec) as [i' [w [Hvw' [Hi [Hw [Hpath Hlen]]]]]].
    rewrite Hvw in Hvw'. injection Hvw' as <-.
    intros _. exists i, (write f w).
    cbn [video_writer writers current_video_path frames_recorded].
    split; [reflexivity|].
    split; [rewrite update_nth_lookup, Hi; reflexivity|].
    unfold write. rewrite Hw. cbn [w_isOpened w_path w_frames].
    split; [reflexivity|]. split; [exact Hpath|].
    rewrite length_app. cbn [length]. lia.
  - unfold on_closing. destruct (is_recording r) eqn:Hrec.
    + destruct (stop_recording_ok frame now r Hinv Hrec)
        as [r' [? [? [-> [_ [Hrec' _]]]]]].
      cbn [bind]. intros H. cbn [is_recording] in H. congruence.
    + cbn [bind]. intros H. cbn [is_recording] in H. congruence.
Qed.

Lemma reachable_session_file_counted (r : recorder frame) :
  reachable r -> session_file_counted r.
Proof.
  induction 1 as [camera_ok | e r Hr IH].
  - apply session_file_counted_init.
  - apply session_file_counted_step; [now apply reachable_inv | exact IH].
Qed.

End RecorderSessions.

(** X8. The frame counter of a session counts the frames in its file:
    stopping a session in a reachable state closes the writer of the
    session's file, and the frame count shown in the statistics is the
    number of frames that were written to that file. *)
Theorem frames_recorded_counts_file (frame : Type) (r : recorder frame)
    (now : Z) (Hr : reachable r) (Hrec : is_recording r = true) :
  exists r' w fps,
    stop_recording now r = Ok r' /\
    In w (writers r') /\
    w_isOpened w = false /\
    current_video_path r' = Some (w_path w) /\
    frames_recorded r = Z.of_nat (length (w_frames w)) /\
    stats r' = Some (Z.of_nat (length (w_frames w)), fps).
Proof.
  pose proof (reachable_inv frame r Hr) as Hinv.
  destruct (reachable_session_file_counted frame r Hr Hrec)
    as [i [w [Hvw [Hi [Hw [Hpath Hlen]]]]]].
  destruct (stop_recording_ok frame now r Hinv Hrec)
    as [r' [ts [fps0 [Hstop _]]]].
  destruct (stop_recording_effect frame now r r' Hrec Hstop)
    as [_ [Hws [Hp [_ [_ [_ [[fps Hstats] _]]]]]]].
  exists r', (release w), fps. split; [exact Hstop|].
  rewrite Hvw in Hws. split.
  - apply nth_error_In with i. rewrite Hws, update_nth_lookup, Hi. reflexivity.
  - cbn [release w_isOpened w_path w_frames].
    rewrite Hp, Hpath, Hstats, Hlen. repeat split.
Qed.

Lemma frames_recorded_counts_file_witness :
  exists r' w fps,
    stop_recording 9 (handle (Frame 42%nat 1) active_recorder) = Ok r' /\
    In w (writers r') /\
    w_isOpened w = false /\
    current_video_path r' = Some (w_path w) /\
    frames_recorded (handle (Frame 42%nat 1) active_recorder)
    = Z.of_nat (length (w_frames w)) /\
    stats r' = Some (Z.of_nat (length (w_frames w)), fps).
Proof.
  apply (frames_recorded_counts_file nat
           (handle (Frame 42%nat 1) active_recorder) 9).
  - apply reachable_step, reachable_step, reachable_init.
  - reflexivity.
Defined.

(** What an event does to the store of writers. *)
Lemma handle_writers (frame : Type) (e : event frame) (r : recorder frame) :
  exists (j : option nat) (g : writer frame -> writer frame)
         (new : list (writer frame)),
    writers (handle e r)
    = match j with
      | Some i => update_nth i g (writers r)
      | None => writers r
      end ++ new /\
    new = match e with
          | Toggle timestamp writer_opens _ =>
              if (negb (is_recording r) && camera_opened r)%bool then
                [ {| w_path := session_path timestamp;
                     w_isOpened := writer_opens;
                     w_frames := [] |} ]
              else []
          | _ => []
          end /\
    (g = release \/
     exists f now, g = write f /\ e = Frame f now /\ is_recording r = true /\
                   j = video_writer r).
Proof.
  assert (Hsame : forall new, new = [] ->
            exists (j : option nat) (g : writer frame -> writer frame),
              writers r
              = match j with
                | Some i => update_nth i g (writers r)
                | None => writers r
                end ++ new /\
              (g = release \/
               exists f now, g = write f /\ e = Frame f now /\
                             is_recording r = true /\ j = video_writer r)).
  { intros new ->. exists None, release. rewrite app_nil_r. auto. }
  assert (Hstop : forall now r', is_recording r = true ->
            stop_recording now r = Ok r' ->
            exists (j : option nat) (g : writer frame -> writer frame),
              writers r'
              = match j with
                | Some i => update_nth i g (writers r)
                | None => writers r
                end ++ [] /\
              (g = release \/
               exists f now, g = write f /\ e = Frame f now /\
                             is_recording r = true /\ j = video_writer r)).
  { intros now r' Hrec H.
    destruct (stop_recording_effect frame now r r' Hrec H) as [_ [-> _]].
    exists (video_writer r), release. rewrite app_nil_r. auto. }
  destruct e as [ts ok now | f now | now]; cbn [handle].
  - unfold toggle_recording. destruct (is_recording r) eqn:Hrec; cbn [negb andb].
    + destruct (stop_recording now r) as [r'|] eqn:E.
      * destruct (Hstop now r' eq_refl E) as [j [g [H1 H2]]].
        now exists j, g, [].
      * destruct (Hsame [] eq_refl) as [j [g [H1 H2]]]. now exists j, g, [].
    + unfold start_recording. destruct (camera_opened r); cbn [negb].
      * exists (video_writer r), release. eexists. split; [|split; [reflexivity|auto]].
        destruct ok; reflexivity.
      * destruct (Hsame [] eq_refl) as [j [g [H1 H2]]]. now exists j, g, [].
  - assert (Hidle : exists (j : option nat) (g : writer frame -> writer frame)
                           (new : list (writer frame)),
              writers r
              = match j with
                | Some i => update_nth i g (writers r)
                | None => writers r
                end ++ new /\ new = [] /\
              (g = release \/
               exists f0 now0, g = write f0 /\ Frame f now = Frame f0 now0 /\
                               is_recording r = true /\ j = video_writer r)).
    { destruct (Hsame [] eq_refl) as [j [g [H1 [H2 | H2]]]].
      - exists j, g, []. auto.
      - exists j, g, []. auto. }
    destruct (capture_thread_error r); [exact Hidle|].
    destruct (running r && camera_opened r)%bool; [|exact Hidle].
    unfold record_frame.
    destruct (is_recording r) eqn:Hrec; [|exact Hidle].
    destruct (video_writer r) as [i|] eqn:Hvw; [|exact Hidle].
    exists (Some i), (write f), []. cbn [writers]. rewrite app_nil_r.
    split; [reflexivity|]. split; [reflexivity|]. right. now exists f, now.
  - unfold on_closing. destruct (is_recording r) eqn:Hrec.
    + destruct (stop_recording now r) as [r'|] eqn:E; cbn [bind].
      * destruct (Hstop now r' eq_refl E) as [j [g [H1 H2]]].
        now exists j, g, [].
      * destruct (Hsame [] eq_refl) as [j [g [H1 H2]]]. now exists j, g, [].
    + cbn [bind writers].
      destruct (Hsame [] eq_refl) as [j [g [H1 H2]]]. now exists j, g, [].
Qed.

Lemma session_path_inj (ts1 ts2 : string) :
  session_path ts1 = session_path ts2 -> ts1 = ts2.
Proof.
  intros H.
  change (session_path ts1)
    with ("Recordings/video_" ++ (ts1 ++ ".avi"))%string in H.
  change (session_path ts2)
    with ("Recordings/video_" ++ (ts2 ++ ".avi"))%string in H.
  now apply FmtFacts.append_cancel_l, FmtFacts.append_cancel_r in H.
Qed.

(** X9. A recording is opened for writing by the press of the button
    that starts a session, and by nothing else: the writers an event
    constructs are none, or the one writer of a start, on the file named
    by the timestamp of the press. So a writer is constructed on the
    file of a finished session exactly by a later start that carries the
    same timestamp (timestamps resolve to the second), and such a start
    does construct one. Apart from that every writer keeps its place and
    its path, a writer that is closed is left exactly as it is, and
    frames are added to the writer of the active session only, by the
    capture loop, one at a time. *)
Theorem recording_reopened_only_by_same_timestamp (frame : Type)
    (e : event frame) (r : recorder frame) :
  constructed e r
  = match e with
    | Toggle timestamp writer_opens _ =>
        if (negb (is_recording r) && camera_opened r)%bool then
          [ {| w_path := session_path timestamp;
               w_isOpened := writer_opens;
               w_frames := [] |} ]
        else []
    | _ => []
    end /\
  (forall w timestamp,
     In w (constructed e r) -> w_path w = session_path timestamp ->
     is_recording r = false /\
     exists writer_opens now, e = Toggle timestamp writer_opens now) /\
  (forall i w,
     nth_error (writers r) i = Some w ->
     exists w',
       nth_error (writers (handle e r)) i = Some w' /\
       w_path w' = w_path w /\
       (w_isOpened w' = true -> w_isOpened w = true) /\
       (w_isOpened w = false -> w' = w) /\
       (w_frames w' = w_frames w \/
        exists f now,
          e = Frame f now /\ is_recording r = true /\
          video_writer r = Some i /\ w_frames w' = w_frames w ++ [f])).
Proof.
  destruct (handle_writers frame e r) as [j [g [new [Hw [Hnew Hg]]]]].
  assert (Hlen : length (match j with
                         | Some i => update_nth i g (writers r)
                         | None => writers r
                         end) = length (writers r)).
  { destruct j; [apply update_nth_length | reflexivity]. }
  assert (Hc : constructed e r = new).
  { unfold constructed. rewrite Hw, <- Hlen, skipn_app, skipn_all, Nat.sub_diag.
    reflexivity. }
  split; [now rewrite Hc, Hnew|]. split.
  - intros w ts Hin Hpath. rewrite Hc, Hnew in Hin.
    destruct e as [ts' ok now | |]; try destruct Hin.
    destruct (is_recording r); cbn [negb andb] in Hin; [destruct Hin|].
    destruct (camera_opened r); [|destruct Hin].
    destruct Hin as [<- | []]. cbn [w_path] in Hpath.
    apply session_path_inj in Hpath. subst ts'.
    split; [reflexivity|]. now exists ok, now.
  - intros i w Hi. rewrite Hw.
    rewrite nth_error_app1 by (rewrite Hlen; apply nth_error_Some; congruence).
    destruct j as [k|].
    + destruct (Nat.eq_dec i k) as [<- | Hne].
      * rewrite update_nth_lookup, Hi. cbn [option_map].
        exists (g w). split; [reflexivity|].
        destruct Hg as [-> | [f [now [-> [-> [Hrec Hvw]]]]]].
        -- cbn [release w_path w_isOpened w_frames].
           split; [reflexivity|]. split; [discriminate|].
           split; [apply release_closed | now left].
        -- unfold write. destruct (w_isOpened w) eqn:Ew.
           ++ cbn [w_path w_isOpened w_frames].
              split; [reflexivity|]. split; [reflexivity|].
              split; [discriminate|]. right. now exists f, now.
           ++ split; [reflexivity|]. split; [congruence|].
              split; [reflexivity | now left].
      * rewrite update_nth_other by exact Hne. exists w.
        repeat split; auto.
    + exists w. repeat split; auto.
Qed.

(** A second session started within the second of the first: the store
    then holds two writers on one file, the finished one with its frame
    and the new one, open and empty. *)
Example same_second_restart :
  let finished := handle (Toggle "20240101_120000" true 1)
                    (handle (Frame 42%nat 0) active_recorder) in
  constructed (Toggle "20240101_120000" true 1) finished
  = [ {| w_path := "Recordings/video_20240101_120000.avi";
         w_isOpened := true; w_frames := [] |} ] /\
  writers finished
  = [ {| w_path := "Recordings/video_20240101_120000.avi";
         w_isOpened := false; w_frames := [42%nat] |} ].
Proof. vm_compute. split; reflexivity. Qed.

(** X10. One extraction thread per finished session: in a reachable
    state an event starts an extraction thread exactly when it ends the
    active session, and then on that session's file and timestamp;
    only the button and the closing of the window end a session, a
    frame never does. *)
Theorem extraction_starts_when_session_ends (frame : Type) (e : event frame)
    (r : recorder frame) (Hr : reachable r) :
  extraction_threads (handle e r)
  = extraction_threads r
    ++ (if session_ends e r
        then [(current_video_path r, current_video_timestamp r)]
        else []) /\
  (if session_ends e r then
     (exists timestamp,
        current_video_path r = Some (session_path timestamp) /\
        current_video_timestamp r = Some timestamp) /\
     match e with
     | Frame _ _ => False
     | _ => True
     end
   else True).
Proof.
  pose proof (reachable_inv frame r Hr) as Hinv.
  unfold session_ends.
  assert (Hsession : is_recording r = true ->
            exists timestamp,
              current_video_path r = Some (session_path timestamp) /\
              current_video_timestamp r = Some timestamp).
  { intros Hrec. destruct Hinv as [_ [Hact _]].
    destruct (Hact Hrec) as [i [w [t0 [ts [_ [_ [_ [_ [Hts Hpath]]]]]]]]].
    now exists ts. }
  assert (Hstop : forall now,
            is_recording r = true ->
            exists r', stop_recording now r = Ok r' /\
                       is_recording r' = false /\
                       extraction_threads r'
                       = extraction_threads r
                         ++ [(current_video_path r, current_video_timestamp r)]).
  { intros now Hrec.
    destruct (stop_recording_ok frame now r Hinv Hrec) as [r' [? [? [H _]]]].
    exists r'. split; [exact H|].
    destruct (stop_recording_effect frame now r r' Hrec H)
      as [H1 [_ [_ [_ [_ [_ [_ H2]]]]]]].
    now split. }
  destruct e as [ts ok now | f now | now]; cbn [handle].
  - unfold toggle_recording. destruct (is_recording r) eqn:Hrec.
    + destruct (Hstop now eq_refl) as [r' [-> [Hrec' Hjobs]]].
      rewrite Hrec'. cbn [andb negb]. split; [exact Hjobs|].
      split; [now apply Hsession | exact I].
    + cbn [andb]. split; [|exact I]. rewrite app_nil_r.
      unfold start_recording.
      destruct (camera_opened r); cbn [negb]; [|reflexivity].
      destruct ok; reflexivity.
  - assert (Hsame : is_recording (match capture_thread_error r with
                                   | Some _ => r
                                   | None =>
                                       if (running r && camera_opened r)%bool
                                       then record_frame f now r else r
                                   end) = is_recording r /\
                    extraction_threads (match capture_thread_error r with
                                        | Some _ => r
                                        | None =>
                                            if (running r && camera_opened r)%bool
                                            then record_frame f now r else r
                                        end) = extraction_threads r).
    { destruct (capture_thread_error r); [now split|].
      destruct (running r && camera_opened r)%bool; [|now split].
      unfold record_frame. destruct (is_recording r) eqn:Hrec; [|now split].
      destruct (video_writer r); now split. }
    destruct Hsame as [-> ->].
    destruct (is_recording r); cbn [andb negb]; rewrite app_nil_r; now split.
  - unfold on_closing. destruct (is_recording r) eqn:Hrec.
    + destruct (Hstop now eq_refl) as [r' [-> [Hrec' Hjobs]]].
      cbn [bind is_recording extraction_threads]. rewrite Hrec'.
      cbn [andb negb]. split; [exact Hjobs|].
      split; [now apply Hsession | exact I].
    + cbn [bind is_recording extraction_threads andb].
      rewrite app_nil_r. now split.
Qed.

Lemma extraction_starts_when_session_ends_witness :
  extraction_threads (handle (Toggle "20240101_120009" true 9) active_recorder)
  = extraction_threads active_recorder
    ++ (if session_ends (Toggle "20240101_120009" true 9) active_recorder
        then [(current_video_path active_recorder,
               current_video_timestamp active_recorder)]
        else []) /\
  (if session_ends (Toggle "20240101_120009" true 9) active_recorder then
     (exists timestamp,
        current_video_path active_recorder = Some (session_path timestamp) /\
        current_video_timestamp active_recorder = Some timestamp) /\
     match @Toggle nat "20240101_120009" true 9 with
     | Frame _ _ => False
     | _ => True
     end
   else True).
Proof.
  apply (extraction_starts_when_session_ends nat
           (Toggle "20240101_120009" true 9) active_recorder).
  apply reachable_step, reachable_init.
Defined.

(** X11. Closing the window shuts the recorder down for good: from
    any reachable state it leaves no session active and no writer open
    (an active session is stopped and its file closed first), stops the
    capture loop and releases the camera; after that a frame changes
    nothing, closing again changes nothing, and the button is refused
    with "camera not available" without constructing a writer. *)
Theorem closing_shuts_down (frame : Type) (r : recorder frame) (now : Z)
    (Hr : reachable r) :
  let r' := handle (Closing now) r in
  is_recording r' = false /\
  open_writers r' = [] /\
  running r' = false /\
  camera_opened r' = false /\
  (forall f n, handle (Frame f n) r' = r') /\
  (forall n, handle (Closing n) r' = r') /\
  (forall timestamp writer_opens n,
     is_recording (handle (Toggle timestamp writer_opens n) r') = false /\
     writers (handle (Toggle timestamp writer_opens n) r') = writers r' /\
     extraction_threads (handle (Toggle timestamp writer_opens n) r')
     = extraction_threads r' /\
     status (handle (Toggle timestamp writer_opens n) r')
     = StatusCameraNotAvailable).
Proof.
  cbv zeta.
  pose proof (reachable_inv frame (handle (Closing now) r)
                (reachable_step frame (Closing now) r Hr)) as Hinv'.
  assert (Hshape : exists r1,
            handle (Closing now) r
            = {| camera_opened := false;
                 is_recording := false;
                 video_writer := video_writer r1;
                 current_video_path := current_video_path r1;
                 current_video_timestamp := current_video_timestamp r1;
                 recording_start_time := recording_start_time r1;
                 frames_recorded := frames_recorded r1;
                 running := false;
                 capture_thread_error := capture_thread_error r1;
                 status := status r1;
                 stats := stats r1;
                 writers := writers r1;
                 extraction_threads := extraction_threads r1 |}).
  { cbn [handle]. unfold on_closing. destruct (is_recording r) eqn:Hrec.
    - destruct (stop_recording_ok frame now r (reachable_inv frame r Hr) Hrec)
        as [r1 [? [? [-> [_ [Hrec1 _]]]]]].
      cbn [bind]. exists r1. now rewrite Hrec1.
    - cbn [bind]. exists r. now rewrite Hrec. }
  destruct Hshape as [r1 Hshape]. rewrite Hshape in *.
  split; [reflexivity|].
  split; [apply no_open_writer; destruct Hinv' as [H _]; exact H|].
  split; [reflexivity|]. split; [reflexivity|].
  split; [|split].
  - intros f n. cbn [handle capture_thread_error running camera_opened andb].
    destruct (capture_thread_error r1); reflexivity.
  - intros n. reflexivity.
  - intros ts ok n. cbn. repeat split.
Qed.

Lemma closing_shuts_down_witness :
  let r' := handle (Closing 9) active_recorder in
  is_recording r' = false /\
  open_writers r' = [] /\
  running r' = false /\
  camera_opened r' = false /\
  (forall f n, handle (Frame f n) r' = r') /\
  (forall n, handle (Closing n) r' = r') /\
  (forall timestamp writer_opens n,
     is_recording (handle (Toggle timestamp writer_opens n) r') = false /\
     writers (handle (Toggle timestamp writer_opens n) r') = writers r' /\
     extraction_threads (handle (Toggle timestamp writer_opens n) r')
     = extraction_threads r' /\
     status (handle (Toggle timestamp writer_opens n) r')
     = StatusCameraNotAvailable).
Proof.
  apply (closing_shuts_down nat active_recorder 9).
  apply reachable_step, reachable_init.
Defined.

(** ** The capture loop against the main thread *)

Section CaptureRace.

Variable frame : Type.

(** A callback does not touch the state of the capture thread; run on
    an active session with its start time set, it stops the session:
    [video_writer] is [None] afterwards, the counter and the start time
    are as they were. *)
Lemma callback_keeps_thread (c : callback) (r : recorder frame) :
  capture_thread_error (handle (event_of c) r) = capture_thread_error r.
Proof.
  destruct c as [ts ok now | now]; cbn [event_of handle].
  - unfold toggle_recording. destruct (is_recording r) eqn:Hrec.
    + destruct (stop_recording now r) as [r'|] eqn:E; [|reflexivity].
      now destruct (stop_recording_effect frame now r r' Hrec E)
        as [_ [_ [_ [_ [_ [H _]]]]]].
    + unfold start_recording. destruct (camera_opened r); [|reflexivity].
      destruct ok; reflexivity.
  - unfold on_closing. destruct (is_recording r) eqn:Hrec.
    + destruct (stop_recording now r) as [r'|] eqn:E; [|reflexivity].
      cbn [bind capture_thread_error].
      now destruct (stop_recording_effect frame now r r' Hrec E)
        as [_ [_ [_ [_ [_ [H _]]]]]].
    + reflexivity.
Qed.

Lemma stop_recording_fields (now t0 : Z) (r : recorder frame) :
  is_recording r = true -> recording_start_time r = Some t0 ->
  exists r',
    stop_recording now r = Ok r' /\
    video_writer r' = None /\
    frames_recorded r' = frames_recorded r /\
    recording_start_time r' = Some t0 /\
    writers r' = dropped (video_writer r) (writers r).
Proof.
  intros Hrec Ht0. unfold stop_recording. rewrite Hrec, Ht0. cbn [negb].
  assert (Hfps : exists fps,
    (if 0 <? now - t0 then truediv (frames_recorded r) (now - t0)
     else Ok {| numerator := 0; denominator := 1 |}) = Ok fps).
  { destruct (0 <? now - t0) eqn:E; [|eauto].
    apply Z.ltb_lt in E. unfold truediv.
    destruct (now - t0 =? 0) eqn:E0; [apply Z.eqb_eq in E0; lia | eauto]. }
  destruct Hfps as [fps ->]. cbn [bind]. eexists. split; [reflexivity|].
  cbn. repeat split; assumption.
Qed.

Lemma callback_stops (c : callback) (t0 : Z) (r : recorder frame) :
  is_recording r = true -> recording_start_time r = Some t0 ->
  video_writer (handle (event_of c) r) = None /\
  frames_recorded (handle (event_of c) r) = frames_recorded r /\
  recording_start_time (handle (event_of c) r) = Some t0.
Proof.
  intros Hrec Ht0.
  destruct c as [ts ok now | now]; cbn [event_of handle];
    destruct (stop_recording_fields now t0 r Hrec Ht0)
      as [r' [Hstop [Hvw [Hn [Hs _]]]]].
  - unfold toggle_recording. rewrite Hrec, Hstop. auto.
  - unfold on_closing. rewrite Hrec, Hstop. cbn. auto.
Qed.

(** Without a callback the iteration is the step of [handle]. *)
Lemma capture_iteration_alone (f : frame) (now : Z) (r : recorder frame) :
  capture_iteration f now None r = handle (Frame f now) r.
Proof.
  unfold capture_iteration, lands. cbn [handle].
  destruct (capture_thread_error r) eqn:Herr; [reflexivity|].
  destruct (running r && camera_opened r)%bool; [|reflexivity].
  unfold frame_test, record_frame, frame_write.
  destruct (is_recording r) eqn:Hrec; cbn [andb]; [|reflexivity].
  destruct (video_writer r) as [i|] eqn:Hvw; [|reflexivity].
  unfold frame_stats. cbn [frames_recorded recording_start_time].
  destruct ((frames_recorded r + 1) mod 31 =? 0); [|reflexivity].
  destruct (recording_start_time r) as [t0|]; [|reflexivity].
  unfold truediv. destruct (now - t0 =? 0); reflexivity.
Qed.

(** A frame that is not recorded, whatever the callback. *)
Lemma capture_iteration_idle (f : frame) (now : Z)
    (cb : option (landing * callback)) (r : recorder frame) :
  capture_thread_error r = None ->
  (running r && camera_opened r && frame_test r)%bool = false ->
  capture_thread_error (capture_iteration f now cb r) = None.
Proof.
  intros Halive Hidle.
  assert (H : capture_thread_error (lands AfterWrite cb (lands BeforeWrite cb r))
              = None).
  { unfold lands. destruct cb as [[[|] c]|]; rewrite ?callback_keeps_thread;
      exact Halive. }
  unfold capture_iteration. rewrite Halive.
  destruct (running r && camera_opened r)%bool; [|exact H].
  cbn [andb] in Hidle. rewrite Hidle. exact H.
Qed.

(** A callback between the test and the write: the write finds [None]. *)
Lemma capture_iteration_before (f : frame) (now t0 : Z) (c : callback)
    (r : recorder frame) :
  capture_thread_error r = None ->
  (running r && camera_opened r && frame_test r)%bool = true ->
  recording_start_time r = Some t0 ->
  capture_iteration f now (Some (BeforeWrite, c)) r
  = died AttributeError (handle (event_of c) r).
Proof.
  intros Halive Hgo Ht0.
  apply andb_prop in Hgo. destruct Hgo as [Hgo Htest].
  unfold capture_iteration. rewrite Halive, Hgo, Htest.
  cbn [lands]. unfold frame_test in Htest. apply andb_prop in Htest.
  destruct Htest as [Hrec _].
  destruct (callback_stops c t0 r Hrec Ht0) as [Hvw _].
  unfold frame_write. now rewrite Hvw.
Qed.

(** No callback before the write: the frame is written and counted, and
    the statistics divide by the time elapsed since the start. *)
Lemma capture_iteration_written (f : frame) (now t0 : Z)
    (cb : option (landing * callback)) (r : recorder frame) :
  capture_thread_error r = None ->
  (running r && camera_opened r && frame_test r)%bool = true ->
  recording_start_time r = Some t0 ->
  (forall c, cb <> Some (BeforeWrite, c)) ->
  frames_recorded (capture_iteration f now cb r) = frames_recorded r + 1 /\
  capture_thread_error (capture_iteration f now cb r)
  = if (((frames_recorded r + 1) mod 31 =? 0) && (now - t0 =? 0))%bool
    then Some ZeroDivisionError else None.
Proof.
  intros Halive Hgo Ht0 Hcb.
  apply andb_prop in Hgo. destruct Hgo as [Hgo Htest].
  unfold capture_iteration. rewrite Halive, Hgo, Htest.
  assert (Hb : lands BeforeWrite cb r = r).
  { destruct cb as [[[|] c]|]; try reflexivity. now destruct (Hcb c). }
  rewrite Hb. unfold frame_test in Htest. apply andb_prop in Htest.
  destruct Htest as [Hrec Hvw].
  destruct (video_writer r) as [i|] eqn:Ei; [|discriminate].
  unfold frame_write. rewrite Ei.
  set (r2 := {| camera_opened := camera_opened r;
                is_recording := is_recording r;
                video_writer := Some i;
                current_video_path := current_video_path r;
                current_video_timestamp := current_video_timestamp r;
                recording_start_time := recording_start_time r;
                frames_recorded := frames_recorded r + 1;
                running := running r;
                capture_thread_error := capture_thread_error r;
                status := status r;
                stats := stats r;
                writers := update_nth i (write f) (writers r);
                extraction_threads := extraction_threads r |}).
  cbv zeta.
  assert (H3 : frames_recorded (lands AfterWrite cb r2) = frames_recorded r + 1 /\
               recording_start_time (lands AfterWrite cb r2) = Some t0 /\
               capture_thread_error (lands AfterWrite cb r2) = None).
  { destruct cb as [[[|] c]|]; cbn [lands];
      try (subst r2; cbn; repeat split; assumption).
    destruct (callback_stops c t0 r2 Hrec Ht0) as [_ [Hn Hs]].
    rewrite callback_keeps_thread. repeat split; assumption. }
  destruct H3 as [Hn [Hs Herr]].
  set (r3 := lands AfterWrite cb r2) in *.
  unfold frame_stats. rewrite Hn, Hs. unfold truediv.
  destruct ((frames_recorded r + 1) mod 31 =? 0); cbn [andb];
    [|now split].
  destruct (now - t0 =? 0); cbn [bind]; [now split|].
  cbn. now split.
Qed.

End CaptureRace.

(** X12. The recording block of the capture loop (lines 248-256) ends
    the capture thread in two ways, and in no other. Take an iteration
    that starts in a reachable state with the thread alive, and during
    which at most one callback of the main thread runs. The thread dies
    of AttributeError exactly when a session is active at the test and
    the callback (which then stops the session) lands between the test
    and the write: [video_writer] is [None] by then, and the frame is
    neither written nor counted. It dies of ZeroDivisionError exactly
    when no callback lands there, the frame is the 31st, 62nd, ... of
    the session and the clock reads the very start time of the session:
    the frame has been written and counted. Without a callback the
    iteration is the step of [handle]. *)
Theorem capture_thread_dies_in_two_ways (frame : Type) (r : recorder frame)
    (f : frame) (now : Z) (cb : option (landing * callback)) (e : exn)
    (Hr : reachable r) (Halive : capture_thread_error r = None) :
  (capture_thread_error (capture_iteration f now cb r) = Some e <->
   running r = true /\
   camera_opened r = true /\
   is_recording r = true /\
   (e = AttributeError /\ (exists c, cb = Some (BeforeWrite, c)) \/
    e = ZeroDivisionError /\
    (forall c, cb <> Some (BeforeWrite, c)) /\
    (frames_recorded r + 1) mod 31 = 0 /\
    recording_start_time r = Some now)) /\
  (capture_thread_error (capture_iteration f now cb r) = Some AttributeError ->
   exists c,
     cb = Some (BeforeWrite, c) /\
     frames_recorded (capture_iteration f now cb r) = frames_recorded r /\
     writers (capture_iteration f now cb r) = writers (handle (event_of c) r)) /\
  (capture_thread_error (capture_iteration f now cb r) = Some ZeroDivisionError ->
   frames_recorded (capture_iteration f now cb r) = frames_recorded r + 1) /\
  capture_iteration f now None r = handle (Frame f now) r.
Proof.
  pose proof (reachable_inv frame r Hr) as [_ [Hact _]].
  assert (Hbefore : (exists c, cb = Some (BeforeWrite, c)) \/
                    (forall c, cb <> Some (BeforeWrite, c))).
  { destruct cb as [[[|] c]|]; [left; now exists c | right | right];
      intros c'; discriminate. }
  destruct ((running r && camera_opened r && frame_test r)%bool) eqn:Hgo.
  - (* the frame passes the test *)
    pose proof Hgo as Hgo'.
    apply andb_prop in Hgo'. destruct Hgo' as [Hrc Htest].
    apply andb_prop in Hrc. destruct Hrc as [Hrun Hcam].
    unfold frame_test in Htest. apply andb_prop in Htest.
    destruct Htest as [Hrec _].
    destruct (Hact Hrec) as [i [w [t0 [ts [Hvw [_ [_ [Ht0 _]]]]]]]].
    destruct Hbefore as [[c ->] | Hnone].
    + rewrite (capture_iteration_before frame f now t0 c r Halive Hgo Ht0).
      destruct (callback_stops frame c t0 r Hrec Ht0) as [_ [Hn _]].
      cbn [died capture_thread_error frames_recorded writers].
      split; [|split; [|split]].
      * split.
        -- intros H. injection H as <-. repeat split; try assumption.
           left. split; [reflexivity | now exists c].
        -- intros [_ [_ [_ [[-> _] | [_ [H _]]]]]]; [reflexivity|].
           now destruct (H c).
      * intros _. exists c. repeat split. exact Hn.
      * discriminate.
      * apply capture_iteration_alone.
    + destruct (capture_iteration_written frame f now t0 cb r Halive Hgo Ht0 Hnone)
        as [Hn Herr].
      rewrite Herr, Hn.
      split; [|split; [|split]].
      * destruct ((frames_recorded r + 1) mod 31 =? 0) eqn:Emod; cbn [andb].
        -- apply Z.eqb_eq in Emod.
           destruct (now - t0 =? 0) eqn:Ez.
           ++ apply Z.eqb_eq in Ez. assert (t0 = now) by lia. subst t0. split.
              ** intros H. injection H as <-. repeat split; try assumption.
                 right. repeat split; assumption.
              ** intros [_ [_ [_ [[_ [c Hc]] | [-> _]]]]]; [|reflexivity].
                 now destruct (Hnone c).
           ++ apply Z.eqb_neq in Ez. split; [discriminate|].
              intros [_ [_ [_ [[_ [c Hc]] | [_ [_ [_ H]]]]]]].
              ** now destruct (Hnone c).
              ** rewrite Ht0 in H. injection H as H. lia.
        -- apply Z.eqb_neq in Emod. split; [discriminate|].
           intros [_ [_ [_ [[_ [c Hc]] | [_ [_ [H _]]]]]]].
           ++ now destruct (Hnone c).
           ++ contradiction.
      * destruct (((frames_recorded r + 1) mod 31 =? 0) && (now - t0 =? 0))%bool;
          discriminate.
      * reflexivity.
      * apply capture_iteration_alone.
  - (* the frame is not recorded *)
    rewrite (capture_iteration_idle frame f now cb r Halive Hgo).
    split; [|split; [|split]]; try discriminate;
      [|apply capture_iteration_alone].
    split; [discriminate|].
    intros [Hrun [Hcam [Hrec _]]].
    destruct (Hact Hrec) as [i [w [t0 [ts [Hvw _]]]]].
    unfold frame_test in Hgo. rewrite Hrun, Hcam, Hrec, Hvw in Hgo.
    discriminate.
Qed.

Lemma capture_thread_dies_in_two_ways_witness :
  (capture_thread_error
     (capture_iteration 7%nat 5
        (Some (BeforeWrite, Button "20240101_120003" true 3)) active_recorder)
   = Some AttributeError <->
   running active_recorder = true /\
   camera_opened active_recorder = true /\
   is_recording active_recorder = true /\
   (AttributeError = AttributeError /\
    (exists c, Some (BeforeWrite, Button "20240101_120003" true 3)
               = Some (BeforeWrite, c)) \/
    AttributeError = ZeroDivisionError /\
    (forall c, Some (BeforeWrite, Button "20240101_120003" true 3)
               <> Some (BeforeWrite, c)) /\
    (frames_recorded active_recorder + 1) mod 31 = 0 /\
    recording_start_time active_recorder = Some 5)) /\
  (capture_thread_error
     (capture_iteration 7%nat 5
        (Some (BeforeWrite, Button "20240101_120003" true 3)) active_recorder)
   = Some AttributeError ->
   exists c,
     Some (BeforeWrite, Button "20240101_120003" true 3)
     = Some (BeforeWrite, c) /\
     frames_recorded
       (capture_iteration 7%nat 5
          (Some (BeforeWrite, Button "20240101_120003" true 3)) active_recorder)
     = frames_recorded active_recorder /\
     writers
       (capture_iteration 7%nat 5
          (Some (BeforeWrite, Button "20240101_120003" true 3)) active_recorder)
     = writers (handle (event_of c) active_recorder)) /\
  (capture_thread_error
     (capture_iteration 7%nat 5
        (Some (BeforeWrite, Button "20240101_120003" true 3)) active_recorder)
   = Some ZeroDivisionError ->
   frames_recorded
     (capture_iteration 7%nat 5
        (Some (BeforeWrite, Button "20240101_120003" true 3)) active_recorder)
   = frames_recorded active_recorder + 1) /\
  capture_iteration 7%nat 5 None active_recorder
  = handle (Frame 7%nat 5) active_recorder.
Proof.
  apply (capture_thread_dies_in_two_ways nat active_recorder 7%nat 5
           (Some (BeforeWrite, Button "20240101_120003" true 3))
           AttributeError).
  - apply reachable_step, reachable_init.
  - reflexivity.
Defined.

(** A press of the button between the test and the write, on a session
    that has one frame: the thread dies of AttributeError, the session is
    stopped with its one frame, and the frame at hand is lost. *)
Example capture_thread_race :
  let r1 := handle (Frame 1%nat 1) active_recorder in
  let r' := capture_iteration 2%nat 2
              (Some (BeforeWrite, Button "20240101_120002" true 2)) r1 in
  capture_thread_error r' = Some AttributeError /\
  is_recording r' = false /\
  writers r'
  = [ {| w_path := "Recordings/video_20240101_120000.avi";
         w_isOpened := false; w_frames := [1%nat] |} ] /\
  frames_recorded r' = 1.
Proof. vm_compute. repeat split. Qed.

(** The 31st frame of a session, handled at the clock reading of the
    session's start: the thread dies, the session stays active. *)
Example capture_thread_death :
  let r30 := fold_left (fun r (n : nat) => handle (Frame n 1) r) (seq 1 30)
               active_recorder in
  capture_thread_error r30 = None /\
  frames_recorded r30 = 30 /\
  capture_thread_error (handle (Frame 31%nat 0) r30) = Some ZeroDivisionError /\
  is_recording (handle (Frame 31%nat 0) r30) = true /\
  frames_recorded (handle (Frame 32%nat 2) (handle (Frame 31%nat 0) r30)) = 31.
Proof. vm_compute. repeat split. Qed.

(** X13. A start that fails is refused in the open and can be tried
    again: in a reachable state with no active session, pressing the
    button when the camera is not available or the video file cannot be
    created leaves no session active and no writer open, starts no
    extraction, shows the matching error, and leaves the frame counter
    alone; a later press that finds the camera open and can create its
    file starts a session. *)
Theorem failed_start_is_refused (frame : Type) (r : recorder frame)
    (timestamp : string) (writer_opens : bool) (now : Z)
    (Hr : reachable r) (Hidle : is_recording r = false)
    (Hfail : camera_opened r = false \/ writer_opens = false) :
  let r' := handle (Toggle timestamp writer_opens now) r in
  is_recording r' = false /\
  open_writers r' = [] /\
  extraction_threads r' = extraction_threads r /\
  frames_recorded r' = frames_recorded r /\
  status r' = (if camera_opened r then StatusCouldNotCreateVideoFile
               else StatusCameraNotAvailable) /\
  (camera_opened r = false -> writers r' = writers r) /\
  (forall timestamp' now',
     is_recording (handle (Toggle timestamp' true now') r') = camera_opened r /\
     (length (open_writers (handle (Toggle timestamp' true now') r'))
      = if camera_opened r then 1 else 0)%nat).
Proof.
  cbv zeta.
  pose proof (reachable_step frame (Toggle timestamp writer_opens now) r Hr)
    as Hr'.
  pose proof (reachable_inv frame _ Hr') as Hinv'.
  assert (Hshape :
    handle (Toggle timestamp writer_opens now) r
    = start_recording timestamp writer_opens now r).
  { cbn [handle]. unfold toggle_recording. now rewrite Hidle. }
  assert (Hrec' : is_recording (handle (Toggle timestamp writer_opens now) r)
                  = false).
  { rewrite Hshape. unfold start_recording.
    destruct (camera_opened r); cbn [negb].
    - destruct Hfail as [H | ->]; [discriminate|]. exact Hidle.
    - exact Hidle. }
  split; [exact Hrec'|].
  split.
  { apply no_open_writer. destruct Hinv' as [H _]. now rewrite H, Hrec'. }
  assert (Hcam : camera_opened (handle (Toggle timestamp writer_opens now) r)
                 = camera_opened r).
  { rewrite Hshape. unfold start_recording.
    destruct (camera_opened r) eqn:E; cbn [negb]; [|reflexivity].
    destruct writer_opens; reflexivity. }
  rewrite Hshape in *. 
  split; [|split; [|split; [|split]]].
  - unfold start_recording. destruct (camera_opened r); cbn [negb]; [|reflexivity].
    destruct writer_opens; reflexivity.
  - unfold start_recording. destruct (camera_opened r); cbn [negb]; [|reflexivity].
    destruct Hfail as [H | ->]; [discriminate | reflexivity].
  - unfold start_recording. destruct (camera_opened r); cbn [negb]; [|reflexivity].
    destruct Hfail as [H | ->]; [discriminate | reflexivity].
  - intros Hc. unfold start_recording. now rewrite Hc.
  - intros ts' now'.
    pose proof (reachable_inv frame _
                  (reachable_step frame (Toggle ts' true now') _ Hr'))
      as [Hopen _].
    assert (Hnext : is_recording
                      (handle (Toggle ts' true now')
                         (start_recording timestamp writer_opens now r))
                    = camera_opened r).
    { cbn [handle]. unfold toggle_recording. rewrite Hrec'.
      unfold start_recording at 1. rewrite Hcam.
      destruct (camera_opened r); cbn [negb is_recording];
        [reflexivity | exact Hrec']. }
    split; [exact Hnext|].
    rewrite Hopen, Hnext. reflexivity.
Qed.

Lemma failed_start_is_refused_witness :
  let r' := handle (Toggle "20240101_120000" false 0) (@init nat true) in
  is_recording r' = false /\
  open_writers r' = [] /\
  extraction_threads r' = extraction_threads (@init nat true) /\
  frames_recorded r' = frames_recorded (@init nat true) /\
  status r' = (if camera_opened (@init nat true)
               then StatusCouldNotCreateVideoFile
               else StatusCameraNotAvailable) /\
  (camera_opened (@init nat true) = false -> writers r' = writers (@init nat true)) /\
  (forall timestamp' now',
     is_recording (handle (Toggle timestamp' true now') r')
     = camera_opened (@init nat true) /\
     (length (open_writers (handle (Toggle timestamp' true now') r'))
      = if camera_opened (@init nat true) then 1 else 0)%nat).
Proof.
  apply (failed_start_is_refused nat (init true) "20240101_120000" false 0).
  - apply reachable_init.
  - reflexivity.
  - right. reflexivity.
Defined.

(** X14. Two sessions record to the same video file, and extract into
    the same image folder, exactly when they carry the same timestamp:
    distinct timestamps never collide, and a session restarted within
    the second of its timestamp reuses both names. *)
Theorem session_names_follow_timestamp (ts1 ts2 : string) :
  (session_path ts1 = session_path ts2 <-> ts1 = ts2) /\
  (images_output_folder ts1 = images_output_folder ts2 <-> ts1 = ts2).
Proof.
  split; (split; [|now intros ->]); intros H.
  - change (session_path ts1)
      with ("Recordings/video_" ++ (ts1 ++ ".avi"))%string in H.
    change (session_path ts2)
      with ("Recordings/video_" ++ (ts2 ++ ".avi"))%string in H.
    now apply FmtFacts.append_cancel_l, FmtFacts.append_cancel_r in H.
  - change (images_output_folder ts1)
      with ("Images/video_" ++ ts1)%string in H.
    change (images_output_folder ts2)
      with ("Images/video_" ++ ts2)%string in H.
    now apply FmtFacts.append_cancel_l in H.
Qed.

(** ** The image viewer *)

Module ViewerFacts.
Import Upload Viewer.

Lemma upload_keeps_bounds (files : list uploaded_file) (st : session_state) :
  index_in_bounds st -> index_in_bounds (fst (upload files st)).
Proof.
  intros [Hidx Hval]. unfold upload.
  destruct files as [|f files]; [now split|].
  rewrite UploadFacts.validate_all_spec.
  destruct (filter is_valid (f :: files)) as [|v vs] eqn:E; [now split|].
  cbn [fst]. split.
  - right. cbn [images current_index length]. lia.
  - cbn [images]. rewrite <- E. apply Forall_forall.
    intros x Hx. now apply filter_In in Hx.
Qed.

Lemma navigate_keeps_bounds (w : widgets) (st : session_state) :
  Forall (fun file => is_valid file = true) (images st) ->
  match images st with
  | [] => current_index st = 0
  | (_ :: _) as l => 0 <= slider_value w <= Z.of_nat (length l) - 1
  end ->
  index_in_bounds (fst (navigate w st)).
Proof.
  intros Hval Hs. unfold navigate, index_in_bounds.
  destruct (images st) as [|x l] eqn:E.
  - cbn [fst]. rewrite E. split; [now left | constructor].
  - set (len := Z.of_nat (length (x :: l))) in *.
    destruct (clicked w) as [[| | | |]|].
    + destruct (0 <? slider_value w) eqn:C; cbn [fst images current_index];
        [apply Z.ltb_lt in C|]; (split; [right; fold len; lia | exact Hval]).
    + destruct (slider_value w <? len - 1) eqn:C; cbn [fst images current_index];
        [apply Z.ltb_lt in C|]; (split; [right; fold len; lia | exact Hval]).
    + cbn [fst images current_index]. split; [right; fold len; lia | exact Hval].
    + cbn [fst images current_index]. split; [right; fold len; lia | exact Hval].
    + cbn [fst images current_index]. split; [now left | constructor].
    + cbn [fst images current_index]. split; [right; fold len; lia | exact Hval].
Qed.

Lemma run_keeps_bounds (w : widgets) (st : session_state) :
  index_in_bounds st -> slider_in_range w st ->
  index_in_bounds (fst (run_script w st)).
Proof.
  intros Hb Hs. unfold run_script.
  pose proof (upload_keeps_bounds (uploaded_files w) st Hb) as [Hidx Hval].
  pose proof (navigate_keeps_bounds w (fst (upload (uploaded_files w) st)) Hval)
    as Hnav.
  unfold slider_in_range in Hs.
  destruct (navigate w (fst (upload (uploaded_files w) st))) as [st2 rerun].
  cbn [fst] in *. apply Hnav.
  destruct (images (fst (upload (uploaded_files w) st))) eqn:E; [|exact Hs].
  destruct Hidx as [[_ H] | H]; [exact H | cbn [length] in H; lia].
Qed.

Lemma reachable_in_bounds (st : session_state) :
  reachable st -> index_in_bounds st.
Proof.
  induction 1 as [|w st _ IH Hs].
  - split; [now left | constructor].
  - now apply run_keeps_bounds.
Qed.

Lemma display_in_bounds (st : session_state) :
  index_in_bounds st ->
  display st = Welcome /\ images st = [] \/
  exists file,
    display st = Shows file /\
    nth_error (images st) (Z.to_nat (current_index st)) = Some file /\
    is_valid file = true.
Proof.
  intros [Hidx Hval]. unfold display, list_index.
  destruct (images st) as [|x l] eqn:E; [now left|]. right.
  destruct Hidx as [[H _] | H]; [discriminate|].
  replace (0 <=? current_index st) with true by (symmetry; apply Z.leb_le; lia).
  replace (current_index st <? Z.of_nat (length (x :: l))) with true
    by (symmetry; apply Z.ltb_lt; lia).
  cbn [andb].
  destruct (nth_error (x :: l) (Z.to_nat (current_index st))) as [file|] eqn:En.
  - exists file. repeat split. rewrite Forall_forall in Hval.
    apply Hval. now apply nth_error_In in En.
  - apply nth_error_None in En. lia.
Qed.

End ViewerFacts.

(** X15. The viewer never indexes outside its list: in every state
    reachable through runs of the script (the slider handing over a
    value within its bounds), the current index points into the image
    list, or the list is empty and the index is 0; a run then ends with
    a rerun, with the welcome screen when there is no image, or by
    showing the image at the current index, which passed validation.
    [images[current_index]] never raises IndexError. *)
Theorem viewer_index_stays_in_bounds (w : Viewer.widgets)
    (st : Upload.session_state)
    (Hst : Viewer.reachable st) (Hslider : Viewer.slider_in_range w st) :
  let st' := fst (Viewer.run_script w st) in
  Viewer.index_in_bounds st' /\
  (snd (Viewer.run_script w st) = Viewer.Rerun \/
   snd (Viewer.run_script w st) = Viewer.Welcome /\ Upload.images st' = [] \/
   exists file,
     snd (Viewer.run_script w st) = Viewer.Shows file /\
     nth_error (Upload.images st') (Z.to_nat (Upload.current_index st'))
     = Some file /\
     Upload.is_valid file = true).
Proof.
  cbv zeta.
  pose proof (ViewerFacts.run_keeps_bounds w st
                (ViewerFacts.reachable_in_bounds st Hst) Hslider) as Hb.
  split; [exact Hb|].
  unfold Viewer.run_script in *.
  destruct (Viewer.navigate w (fst (Upload.upload (Viewer.uploaded_files w) st)))
    as [st2 rerun].
  cbn [fst snd] in *. destruct rerun; [now left|]. right.
  exact (ViewerFacts.display_in_bounds st2 Hb).
Qed.

Lemma viewer_index_stays_in_bounds_witness :
  let w := {| Viewer.uploaded_files :=
                [ {| Upload.name := "a.PNG"; Upload.size := 10 |};
                  {| Upload.name := "b.exe"; Upload.size := 10 |};
                  {| Upload.name := "c.jpg"; Upload.size := 20 |} ];
              Viewer.slider_value := 1;
              Viewer.clicked := Some Viewer.Previous |} in
  let st' := fst (Viewer.run_script w Viewer.fresh) in
  Viewer.index_in_bounds st' /\
  (snd (Viewer.run_script w Viewer.fresh) = Viewer.Rerun \/
   snd (Viewer.run_script w Viewer.fresh) = Viewer.Welcome /\
   Upload.images st' = [] \/
   exists file,
     snd (Viewer.run_script w Viewer.fresh) = Viewer.Shows file /\
     nth_error (Upload.images st') (Z.to_nat (Upload.current_index st'))
     = Some file /\
     Upload.is_valid file = true).
Proof.
  apply (viewer_index_stays_in_bounds
           {| Viewer.uploaded_files :=
                [ {| Upload.name := "a.PNG"; Upload.size := 10 |};
                  {| Upload.name := "b.exe"; Upload.size := 10 |};
                  {| Upload.name := "c.jpg"; Upload.size := 20 |} ];
              Viewer.slider_value := 1;
              Viewer.clicked := Some Viewer.Previous |}
           Viewer.fresh).
  - apply Viewer.reachable_fresh.
  - vm_compute. split; discriminate.
Defined.

(** X16. A run that no click caused settles: running the script again
    on the same widgets leaves the session as the first run left it. *)
Theorem rerun_is_stable (w : Viewer.widgets) (st : Upload.session_state)
    (Hclick : Viewer.clicked w = None) :
  fst (Viewer.run_script w (fst (Viewer.run_script w st)))
  = fst (Viewer.run_script w st).
Proof.
  assert (Hrun : forall s,
            fst (Viewer.run_script w s)
            = match Upload.images
                      (fst (Upload.upload (Viewer.uploaded_files w) s)) with
              | [] => fst (Upload.upload (Viewer.uploaded_files w) s)
              | _ :: _ =>
                  {| Upload.images :=
                       Upload.images
                         (fst (Upload.upload (Viewer.uploaded_files w) s));
                     Upload.current_index := Viewer.slider_value w |}
              end).
  { intros s. unfold Viewer.run_script, Viewer.navigate. rewrite Hclick.
    destruct (Upload.images (fst (Upload.upload (Viewer.uploaded_files w) s)));
      reflexivity. }
  assert (Hup : forall s,
            fst (Upload.upload (Viewer.uploaded_files w) s)
            = match filter Upload.is_valid (Viewer.uploaded_files w) with
              | [] => s
              | (_ :: _) as valid =>
                  {| Upload.images := valid; Upload.current_index := 0 |}
              end).
  { intros s. unfold Upload.upload.
    destruct (Viewer.uploaded_files w) as [|f files]; [reflexivity|].
    rewrite UploadFacts.validate_all_spec.
    destruct (filter Upload.is_valid (f :: files)); reflexivity. }
  rewrite !Hrun, !Hup.
  destruct (filter Upload.is_valid (Viewer.uploaded_files w)) as [|v vs];
    [|reflexivity].
  destruct (Upload.images st) as [|x l] eqn:E.
  - now rewrite E.
  - reflexivity.
Qed.

Lemma rerun_is_stable_witness :
  let w := {| Viewer.uploaded_files :=
                [ {| Upload.name := "a.PNG"; Upload.size := 10 |};
                  {| Upload.name := "c.jpg"; Upload.size := 20 |} ];
              Viewer.slider_value := 1;
              Viewer.clicked := None |} in
  fst (Viewer.run_script w (fst (Viewer.run_script w Viewer.fresh)))
  = fst (Viewer.run_script w Viewer.fresh).
Proof.
  apply (rerun_is_stable
           {| Viewer.uploaded_files :=
                [ {| Upload.name := "a.PNG"; Upload.size := 10 |};
                  {| Upload.name := "c.jpg"; Upload.size := 20 |} ];
              Viewer.slider_value := 1;
              Viewer.clicked := None |}
           Viewer.fresh).
  reflexivity.
Defined.

(** ** What the validation accepts *)

Module AcceptFacts.
Import Upload.

Local Open Scope string_scope.

Lemma append_nil_r (s : string) : s ++ "" = s.
Proof. induction s as [|c s IH]; cbn; congruence. Qed.

(** A string is its first [i] characters followed by the rest. *)
Lemma take_drop (i : nat) (s : string) : substring 0 i s ++ drop i s = s.
Proof.
  revert s. induction i as [|i IH]; intros s.
  - destruct s; reflexivity.
  - destruct s as [|c s]; [reflexivity|]. cbn. now rewrite IH.
Qed.

Lemma take_nonempty (i : nat) (s : string) :
  (0 < i)%nat -> (i < String.length s)%nat -> substring 0 i s <> "".
Proof.
  intros Hi Hlen. destruct i as [|i]; [lia|].
  destruct s as [|c s]; [cbn in Hlen; lia|]. discriminate.
Qed.

Lemma allowed_In (e : string) :
  allowed e = true <-> In e ALLOWED_EXTENSIONS.
Proof.
  unfold allowed. rewrite existsb_exists. split.
  - intros [x [Hx He]]. apply String.eqb_eq in He. now subst.
  - intros H. exists e. split; [exact H | apply String.eqb_refl].
Qed.

Lemma lower_app (a b : string) : lower (a ++ b) = lower a ++ lower b.
Proof. induction a as [|c a IH]; cbn; congruence. Qed.

Lemma has_slash_lower (s : string) : has_slash (lower s) = has_slash s.
Proof.
  induction s as [|c s IH]; [reflexivity|].
  cbn [lower has_slash]. now rewrite LowerFacts.lower_char_slash, IH.
Qed.

Lemma has_slash_app (a b : string) :
  has_slash (a ++ b) = (has_slash a || has_slash b)%bool.
Proof.
  induction a as [|c a IH]; [reflexivity|].
  cbn [append has_slash]. rewrite IH. apply orb_assoc.
Qed.

Lemma split_no_slash (s : string) :
  has_slash s = false -> split_slash s = [s].
Proof.
  induction s as [|c s IH]; [reflexivity|].
  cbn [has_slash split_slash]. intros H. apply orb_false_iff in H.
  destruct H as [Hc Hs]. rewrite Hc, (IH Hs). reflexivity.
Qed.

(** A name without a directory part, of two characters or more, is its
    own last component. *)
Lemma path_name_plain (s : string) :
  has_slash s = false -> (2 <= String.length s)%nat -> path_name s = s.
Proof.
  intros Hs Hlen. unfold path_name. rewrite (split_no_slash s Hs).
  cbn [filter].
  destruct s as [|c [|c' s]]; cbn in Hlen; try lia.
  cbn. destruct (Ascii.eqb c "."); reflexivity.
Qed.

Lemma rfind_dot_app (a b : string) :
  rfind_dot (a ++ b)
  = match rfind_dot b with
    | Some i => Some (String.length a + i)%nat
    | None => rfind_dot a
    end.
Proof.
  induction a as [|c a IH]; cbn [append rfind_dot String.length].
  - destruct (rfind_dot b); reflexivity.
  - rewrite IH. destruct (rfind_dot b); reflexivity.
Qed.

Lemma drop_app (a b : string) : drop (String.length a) (a ++ b) = b.
Proof.
  induction a as [|c a IH]; [destruct b; reflexivity | exact IH].
Qed.

(** The suffix of a plain name that ends in an allowed extension is
    that extension. *)
Lemma suffix_of_allowed (t e : string) :
  t <> "" -> has_slash t = false -> In e ALLOWED_EXTENSIONS ->
  suffix (t ++ e) = e.
Proof.
  intros Ht Hs He.
  assert (Hfacts : has_slash e = false /\ rfind_dot e = Some O /\
                   (4 <= String.length e)%nat).
  { cbn in He. decompose [or] He; subst; try contradiction;
      repeat split; cbn; lia. }
  destruct Hfacts as [Hse [Hdot Hlen]].
  assert (Htlen : (0 < String.length t)%nat).
  { destruct t; [contradiction | cbn; lia]. }
  unfold suffix. rewrite path_name_plain.
  - rewrite rfind_dot_app, Hdot, Nat.add_0_r, FmtFacts.length_append.
    replace (0 <? String.length t)%nat with true
      by (symmetry; apply Nat.ltb_lt; lia).
    replace (S (String.length t) <? String.length t + String.length e)%nat
      with true by (symmetry; apply Nat.ltb_lt; lia).
    cbn [andb]. apply drop_app.
  - rewrite has_slash_app, Hs, Hse. reflexivity.
  - rewrite FmtFacts.length_append. lia.
Qed.

End AcceptFacts.

(** X17. What is accepted really is one of the five image types and
    small enough: the last component of an accepted file's name is a
    non-empty stem followed by an extension that, lower-cased, is in
    the allow-list, and the file is no larger than 50 MB. *)
Theorem accepted_file_has_allowed_extension (file : Upload.uploaded_file)
    (Hvalid : Upload.is_valid file = true) :
  exists stem ext,
    Upload.path_name (Upload.name file) = (stem ++ ext)%string /\
    stem <> ""%string /\
    In (Upload.lower ext) Upload.ALLOWED_EXTENSIONS /\
    Upload.size file <= 50 * 1024 * 1024.
Proof.
  apply UploadFacts.is_valid_iff in Hvalid. destruct Hvalid as [Hext Hsize].
  apply AcceptFacts.allowed_In in Hext.
  unfold Upload.suffix in Hext.
  destruct (Upload.rfind_dot (Upload.path_name (Upload.name file)))
    as [i|] eqn:Ei; [|destruct Hext as [H|[H|[H|[H|[H|[]]]]]]; discriminate].
  destruct ((0 <? i)%nat
            && (S i <? String.length (Upload.path_name (Upload.name file)))%nat)%bool
    eqn:Ec; [|destruct Hext as [H|[H|[H|[H|[H|[]]]]]]; discriminate].
  apply andb_true_iff in Ec. destruct Ec as [Hi Hlen].
  apply Nat.ltb_lt in Hi. apply Nat.ltb_lt in Hlen.
  exists (substring 0 i (Upload.path_name (Upload.name file))),
         (Upload.drop i (Upload.path_name (Upload.name file))).
  split; [symmetry; apply AcceptFacts.take_drop|].
  split; [apply AcceptFacts.take_nonempty; lia|].
  split; [exact Hext | exact Hsize].
Qed.

Lemma accepted_file_has_allowed_extension_witness :
  exists stem ext,
    Upload.path_name
      (Upload.name {| Upload.name := "Holiday.Photo.JPG"; Upload.size := 1024 |})
    = (stem ++ ext)%string /\
    stem <> ""%string /\
    In (Upload.lower ext) Upload.ALLOWED_EXTENSIONS /\
    Upload.size {| Upload.name := "Holiday.Photo.JPG"; Upload.size := 1024 |}
    <= 50 * 1024 * 1024.
Proof.
  apply (accepted_file_has_allowed_extension
           {| Upload.name := "Holiday.Photo.JPG"; Upload.size := 1024 |}).
  reflexivity.
Defined.

(** X18. And every such file is accepted: a name without directory
    part made of a non-empty stem and an extension that, lower-cased,
    is in the allow-list passes the check at any size up to 50 MB
    included; one byte more and it is refused as too large. *)
Theorem allowed_file_is_accepted (stem ext : string) (sz : Z)
    (Hstem : stem <> ""%string)
    (Hplain : has_slash stem = false)
    (Hext : In (Upload.lower ext) Upload.ALLOWED_EXTENSIONS) :
  Upload.validate_file_security
    {| Upload.name := (stem ++ ext)%string; Upload.size := sz |}
  = if sz <=? 50 * 1024 * 1024 then (true, Upload.FileIsSecure)
    else (false, Upload.FileTooLarge sz).
Proof.
  unfold Upload.validate_file_security. cbn [Upload.name Upload.size].
  assert (Hsuffix : Upload.lower (Upload.suffix (stem ++ ext))
                    = Upload.lower ext).
  { rewrite <- LowerFacts.lower_suffix, AcceptFacts.lower_app.
    apply AcceptFacts.suffix_of_allowed.
    - destruct stem; [contradiction | discriminate].
    - now rewrite AcceptFacts.has_slash_lower.
    - exact Hext. }
  rewrite Hsuffix.
  replace (Upload.allowed (Upload.lower ext)) with true
    by (symmetry; now apply AcceptFacts.allowed_In).
  cbn [negb]. unfold Upload.MAX_FILE_SIZE.
  destruct (50 * 1024 * 1024 <? sz) eqn:E1;
    destruct (sz <=? 50 * 1024 * 1024) eqn:E2; try reflexivity.
  - apply Z.ltb_lt in E1. apply Z.leb_le in E2. lia.
  - apply Z.ltb_ge in E1. apply Z.leb_gt in E2. lia.
Qed.

Lemma allowed_file_is_accepted_witness :
  Upload.validate_file_security
    {| Upload.name := ("scan.v2" ++ ".JpEg")%string;
       Upload.size := 50 * 1024 * 1024 |}
  = if 50 * 1024 * 1024 <=? 50 * 1024 * 1024 then (true, Upload.FileIsSecure)
    else (false, Upload.FileTooLarge (50 * 1024 * 1024)).
Proof.
  apply (allowed_file_is_accepted "scan.v2" ".JpEg" (50 * 1024 * 1024)).
  - discriminate.
  - reflexivity.
  - right. right. left. reflexivity.
Defined.
